(** * Covid19_DataExploration: the data reconciliation pipeline of Analysis.py

    A shallow embedding of the notebook cells of [src/Analysis.py] that scrape,
    clean, reconcile, merge and patch the two working tables ([global_data]
    and [us_data]), and the properties of them that the specification states.

    The notebook is a straight-line pandas script.  Each pandas operation it
    calls is given as a function on an explicit table type, each notebook cell
    as the composition of those functions in the order of the source lines.

    Conventions.
    - A Python [str] is a [string]: the sequence of the bytes of its UTF-8
      encoding, so a character outside ASCII takes two to four bytes.
    - A float64 is a [spec_float] of the Standard Library with precision 53 and
      maximal exponent 1024, so [inf], [-inf] and [NaN] are values of the
      model and division is IEEE 754 division.
    - An operation that raises in pandas ([KeyError], [TypeError],
      [OverflowError]) returns [None]. *)

From Stdlib Require Import ZArith Ascii Floats.SpecFloat Lia.
From stdpp Require Import gmap strings list option sorting.

Open Scope Z_scope.

(* ===================================================================== *)
(** * Text: the [str] methods the notebook calls *)
(* ===================================================================== *)

Module Text.

(** [s.replace(c, '')] for a one-character pattern [c]; also what
    [DataFrame.replace(c, '', regex=True)] does inside one string cell when
    the pattern is the literal character [c] (the notebook's patterns are
    ['\n'] and [',']). *)
Fixpoint remove_char (c : ascii) (s : string) : string :=
  match s with
  | EmptyString => EmptyString
  | String a s' =>
      if Ascii.eqb a c then remove_char c s' else String a (remove_char c s')
  end.

(** [s.lstrip(chars)]: drop the longest prefix made of characters of the set. *)
Fixpoint lstrip (p : ascii -> bool) (s : string) : string :=
  match s with
  | EmptyString => EmptyString
  | String a s' => if p a then lstrip p s' else s
  end.

(** [s.rstrip(chars)]: drop the longest suffix made of characters of the set. *)
Fixpoint rstrip (p : ascii -> bool) (s : string) : string :=
  match s with
  | EmptyString => EmptyString
  | String a s' =>
      match rstrip p s' with
      | EmptyString => if p a then EmptyString else String a EmptyString
      | t => String a t
      end
  end.

(** [s.strip(chars)]: both ends. *)
Definition strip_chars (p : ascii -> bool) (s : string) : string :=
  rstrip p (lstrip p s).

Definition newline : ascii := "010"%char.
Definition comma : ascii := ","%char.
Definition plus : ascii := "+"%char.

Definition is_plus (a : ascii) : bool := Ascii.eqb a plus.

(** The characters Python's [str.strip()] takes off (those for which
    [str.isspace] holds), by the length of their UTF-8 encoding.  One byte:
    TAB, LF, VT, FF, CR, the four separators FS GS RS US, and the space. *)
Definition is_space (a : ascii) : bool :=
  let n := N_of_ascii a in
  ((9 <=? n) && (n <=? 13) || (28 <=? n) && (n <=? 32))%N.

(** Two bytes: U+0085 (C2 85) and the no-break space U+00A0 (C2 A0). *)
Definition is_space2 (a b : ascii) : bool :=
  let m := N_of_ascii a in
  let n := N_of_ascii b in
  ((m =? 194) && ((n =? 133) || (n =? 160)))%N.

(** Three bytes: U+1680 (E1 9A 80), U+2000 to U+200A (E2 80 80 to E2 80 8A),
    U+2028, U+2029, U+202F (E2 80 A8, A9, AF), U+205F (E2 81 9F) and
    U+3000 (E3 80 80). *)
Definition is_space3 (a b c : ascii) : bool :=
  let k := N_of_ascii a in
  let m := N_of_ascii b in
  let n := N_of_ascii c in
  ((k =? 225) && (m =? 154) && (n =? 128)
   || (k =? 226) && (m =? 128)
      && ((128 <=? n) && (n <=? 138) || (n =? 168) || (n =? 169) || (n =? 175))
   || (k =? 226) && (m =? 129) && (n =? 159)
   || (k =? 227) && (m =? 128) && (n =? 128))%N.

(** The string is the encoding of exactly one white-space character. *)
Definition space_char (s : string) : bool :=
  match s with
  | String a EmptyString => is_space a
  | String a (String b EmptyString) => is_space2 a b
  | String a (String b (String c EmptyString)) => is_space3 a b c
  | _ => false
  end.

(** What follows the first character of the string, when that character is
    white space. *)
Definition space_rest (s : string) : option string :=
  match s with
  | EmptyString => None
  | String a s1 =>
      if is_space a then Some s1
      else match s1 with
           | EmptyString => None
           | String b s2 =>
               if is_space2 a b then Some s2
               else match s2 with
                    | EmptyString => None
                    | String c s3 => if is_space3 a b c then Some s3 else None
                    end
           end
  end.

(** [s.lstrip()]: the leading white-space characters go. *)
Fixpoint lstrip_space (s : string) : string :=
  match s with
  | EmptyString => EmptyString
  | String a s1 =>
      if is_space a then lstrip_space s1
      else match s1 with
           | EmptyString => s
           | String b s2 =>
               if is_space2 a b then lstrip_space s2
               else match s2 with
                    | EmptyString => s
                    | String c s3 =>
                        if is_space3 a b c then lstrip_space s3 else s
                    end
           end
  end.

(** [s.rstrip()]: the trailing white-space characters go.  Read from the
    right, a character goes when all that follows it has gone and it is a
    white-space character. *)
Fixpoint rstrip_space (s : string) : string :=
  match s with
  | EmptyString => EmptyString
  | String a s' =>
      let t := String a (rstrip_space s') in
      if space_char t then EmptyString else t
  end.

(** [s.strip()] *)
Definition strip (s : string) : string := rstrip_space (lstrip_space s).

(** [lambda x: x.strip('+')] *)
Definition strip_plus (s : string) : string := strip_chars is_plus s.

Fixpoint contains (c : ascii) (s : string) : bool :=
  match s with
  | EmptyString => false
  | String a s' => Ascii.eqb a c || contains c s'
  end.

Definition first_char (s : string) : option ascii :=
  match s with EmptyString => None | String a _ => Some a end.

Fixpoint last_char (s : string) : option ascii :=
  match s with
  | EmptyString => None
  | String a EmptyString => Some a
  | String _ s' => last_char s'
  end.

End Text.

(* ===================================================================== *)
(** * Raw tables: what the scraping loops build *)
(* ===================================================================== *)

(** The scraping cells (In[2], In[4], In[5]) collect the [<th>] texts into
    [headers] and, per [<tr>], the [<td>] texts into one row of strings. *)
Record RawTable := mkRaw {
  headers : list string;
  body : list (list string)
}.

Module Cleaning.
Import Text.

(** [df.replace(c, '', regex=True)]: every cell of a frame of strings. *)
Definition replace_regex (c : ascii) (t : RawTable) : RawTable :=
  mkRaw (headers t) (map (map (remove_char c)) (body t)).

(** [df.columns = df.columns.str.replace(c, '')] *)
Definition columns_replace (c : ascii) (t : RawTable) : RawTable :=
  mkRaw (map (remove_char c) (headers t)) (body t).

(** [df.applymap(f)] *)
Definition applymap (f : string -> string) (t : RawTable) : RawTable :=
  mkRaw (headers t) (map (map f) (body t)).

(** In[6], lines 325-328 (global_data) and In[29], lines 629-632 (us_data):
<<
    df = df.replace('\n','', regex=True)
    df = df.replace(',','', regex=True)
    df.columns = df.columns.str.replace('\n','')
    df = df.applymap(lambda x: x.strip('+'))
>> *)
Definition clean_cells (t : RawTable) : RawTable :=
  let t1 := replace_regex newline t in
  let t2 := replace_regex comma t1 in
  let t3 := columns_replace newline t2 in
  applymap strip_plus t3.

(** What the four lines do to one cell. *)
Definition clean_cell (s : string) : string :=
  strip_plus (remove_char comma (remove_char newline s)).

(** The order of cleaning as the specification words it: newlines, commas,
    leading "+" markers, then surrounding white space.  Used only to compare
    with [clean_cell]. *)
Definition spec_clean_cell (s : string) : string :=
  strip (lstrip is_plus (remove_char comma (remove_char newline s))).

End Cleaning.

(* ===================================================================== *)
(** * Numbers: float64 and the conversions between int and float *)
(* ===================================================================== *)

Module Float64.

Definition prec : Z := 53.
Definition emax : Z := 1024.

Definition NaN : spec_float := S754_nan.
Definition pos_inf : spec_float := S754_infinity false.
Definition neg_inf : spec_float := S754_infinity true.
Definition zero : spec_float := S754_zero false.

(** [float(z)]: the integer rounded to the nearest float64. *)
Definition of_int (z : Z) : spec_float := binary_normalize prec emax z 0 false.

(** [x / y] on float64. *)
Definition div (x y : spec_float) : spec_float := SFdiv prec emax x y.

Definition is_nan (x : spec_float) : bool :=
  match x with S754_nan => true | _ => false end.

Definition is_inf (x : spec_float) : bool :=
  match x with S754_infinity _ => true | _ => false end.

(** [math.isfinite] *)
Definition is_finite (x : spec_float) : bool :=
  match x with S754_zero _ | S754_finite _ _ _ => true | _ => false end.

(** Python's [int(x)] on a float: truncation towards zero; [int(nan)] raises
    [ValueError] and [int(inf)] raises [OverflowError]. *)
Definition py_int (x : spec_float) : option Z :=
  match x with
  | S754_zero _ => Some 0
  | S754_finite s m e =>
      let a := match e with
               | Zneg k => Z.shiftr (Zpos m) (Zpos k)
               | _ => Z.shiftl (Zpos m) e
               end in
      Some (if s then - a else a)
  | S754_infinity _ => None
  | S754_nan => None
  end.

(** [x.is_integer()], with the integer: what an int64 column can hold of a
    float without loss. *)
Definition integral (x : spec_float) : option Z :=
  match x with
  | S754_zero _ => Some 0
  | S754_finite _ _ _ =>
      match py_int x with
      | Some z => if SFeqb (of_int z) x then Some z else None
      | None => None
      end
  | _ => None
  end.

End Float64.

#[global] Instance spec_float_eq_dec : EqDecision spec_float.
Proof. solve_decision. Defined.

(* ===================================================================== *)
(** * Cells and data frames *)
(* ===================================================================== *)

(** One cell of a typed frame: a string, an int64 (kept as an integer: the
    notebook's counts are far from the 64-bit bounds and no claim depends on
    wrap-around) or a float64.  Pandas' missing value in these frames is the
    float [NaN]. *)
Inductive cell :=
| Str (s : string)
| Int (z : Z)
| Flt (x : spec_float).

#[global] Instance cell_eq_dec : EqDecision cell.
Proof. solve_decision. Defined.

Definition null : cell := Flt Float64.NaN.

#[global] Instance cell_inhabited : Inhabited cell := populate null.

(** [pd.isna] on one cell. *)
Definition isna (c : cell) : bool :=
  match c with Flt x => Float64.is_nan x | _ => false end.

Definition is_str (c : cell) : bool :=
  match c with Str _ => true | _ => false end.

Definition is_flt (c : cell) : bool :=
  match c with Flt _ => true | _ => false end.

(** An int64 value taken into a float64 column. *)
Definition upcast (c : cell) : cell :=
  match c with Int z => Flt (Float64.of_int z) | _ => c end.

(** The dtype of a column, as far as its cells tell: [object] when a cell is
    a string, else [float64] when a cell is a float (the missing value is
    one), else [int64]. *)
Inductive dtype := DInt | DFloat | DObject.

Definition dtype_of (vs : list cell) : dtype :=
  if existsb is_str vs then DObject
  else if existsb is_flt vs then DFloat
  else DInt.

(** A row holds the cells of one record by column name; [r !!! c] reads a
    cell, and a name the row does not store reads as the missing value. *)
Abbreviation row := (gmap string cell).

(** A frame with the default positional index: the ordered column labels and
    the records in order. *)
Record DataFrame := mkDF {
  columns : list string;
  rows : list row
}.

Module Frame.

(** [df[c]]: the cells of one column; [KeyError] when [c] is no column. *)
Definition column (c : string) (df : DataFrame) : option (list cell) :=
  if bool_decide (c ∈ columns df) then Some ((fun r : row => r !!! c) <$> rows df) else None.

(** [f] on the cell of each of the columns [cs] of one record. *)
Definition map_cells (f : cell -> cell) (cs : list string) (r : row) : row :=
  foldr (fun c acc => <[c := f (r !!! c)]> acc) r cs.

(** [df.applymap(f)] / element-wise [df.replace], [df.fillna]: every cell
    of every column. *)
Definition applymap (f : cell -> cell) (df : DataFrame) : DataFrame :=
  mkDF (columns df) (map_cells f (columns df) <$> rows df).

(** [df[c] = df[c].map(f)] for a column that exists. *)
Definition map_column (c : string) (f : cell -> cell) (df : DataFrame)
  : option DataFrame :=
  if bool_decide (c ∈ columns df)
  then Some (mkDF (columns df) ((fun r : row => <[c := f (r !!! c)]> r) <$> rows df))
  else None.

(** [df[cs] = df[cs].apply(f)] with an [f] that may raise on a cell;
    [KeyError] when one of [cs] is no column. *)
Definition apply_row (f : cell -> option cell) (cs : list string) (r : row)
  : option row :=
  foldr (fun c acc => r' ← acc; v ← f (r' !!! c); Some (<[c := v]> r'))
        (Some r) cs.

Definition apply_columns (f : cell -> option cell) (cs : list string)
  (df : DataFrame) : option DataFrame :=
  if bool_decide (Forall (fun c => c ∈ columns df) cs)
  then rs ← mapM (apply_row f cs) (rows df); Some (mkDF (columns df) rs)
  else None.

(** [df.drop(c, axis=1)]; [KeyError] when [c] is no column. *)
Definition drop_column (c : string) (df : DataFrame) : option DataFrame :=
  if bool_decide (c ∈ columns df)
  then Some (mkDF (filter (fun d => d ≠ c) (columns df)) ((fun r : row => delete c r) <$> rows df))
  else None.

(** [df[cs].copy()]: the listed columns of every record. *)
Definition select (cs : list string) (df : DataFrame) : option DataFrame :=
  if bool_decide (Forall (fun c => c ∈ columns df) cs)
  then Some (mkDF cs ((fun r : row => (list_to_map ((fun c => (c, r !!! c)) <$> cs) : row)) <$> rows df))
  else None.

(** [df[df.isna().any(axis=1)]]: the records with a missing value. *)
Definition rows_with_na (df : DataFrame) : DataFrame :=
  mkDF (columns df)
       (filter (fun r : row => existsb (fun c => isna (r !!! c)) (columns df) = true) (rows df)).

(** [df[:n]] *)
Definition head (n : nat) (df : DataFrame) : DataFrame :=
  mkDF (columns df) (take n (rows df)).

(** The key column as a list, in record order. *)
Definition keys (on : string) (df : DataFrame) : list cell :=
  (fun r : row => r !!! on) <$> rows df.

End Frame.

(* ===================================================================== *)
(** * [DataFrame.merge(aux, on=key, how='left')] *)
(* ===================================================================== *)

Module Merge.

(** Column labels other than the key that both frames have: pandas renames
    them with the suffixes [_x] (left) and [_y] (right). *)
Definition overlap (on : string) (l r : DataFrame) : list string :=
  filter (fun c => c ≠ on ∧ c ∈ columns r) (columns l).

Definition suffixed (ov : list string) (sfx : string) (c : string) : string :=
  if bool_decide (c ∈ ov) then String.app c sfx else c.

Definition right_columns (on : string) (r : DataFrame) : list string :=
  filter (fun c => c ≠ on) (columns r).

(** The cells a left record contributes to a merged record. *)
Definition left_part (ov : list string) (cs : list string) (lr : row)
  : list (string * cell) :=
  (fun c => (suffixed ov "_x" c, lr !!! c)) <$> cs.

(** The right records whose key equals [k], in the right frame's order. *)
Definition matching (on : string) (k : cell) (r : DataFrame) : list row :=
  filter (fun rr : row => rr !!! on = k) (rows r).

(** The first right record with the key of a left record, if any. *)
Definition partner (on : string) (r : DataFrame) (lr : row) : option row :=
  head (matching on (lr !!! on) r).

(** Some left record has no right record with its key: the right columns
    then take missing values. *)
Definition unmatched (on : string) (l r : DataFrame) : bool :=
  existsb (fun lr : row => bool_decide (matching on (lr !!! on) r = [])) (rows l).

(** A column of dtype [object]: one of its cells is a string. *)
Definition object_column (c : string) (df : DataFrame) : bool :=
  existsb (fun rr : row => is_str (rr !!! c)) (rows df).

(** What the merge makes of a cell of the right column [c]: a column that
    takes missing values cannot stay int64, pandas turns it into float64;
    an [object] column keeps its values as they are. *)
Definition right_cell (on : string) (l r : DataFrame) (c : string) (v : cell)
  : cell :=
  if unmatched on l r && negb (object_column c r) then upcast v else v.

(** The cells the matching right record contributes; all missing when the
    left key has no partner. *)
Definition right_part (ov : list string) (cast : string -> cell -> cell)
  (cs : list string) (rr : option row) : list (string * cell) :=
  (fun c => (suffixed ov "_y" c,
             match rr with Some r => cast c (r !!! c) | None => null end)) <$> cs.

Definition merged_row (on : string) (l r : DataFrame) (lr : row)
  (rr : option row) : row :=
  list_to_map (left_part (overlap on l r) (columns l) lr
               ++ right_part (overlap on l r) (right_cell on l r)
                    (right_columns on r) rr).

(** The merged records that one left record produces: one per matching
    right record, or a single one padded with missing values. *)
Definition merge_one (on : string) (l r : DataFrame) (lr : row) : list row :=
  match matching on (lr !!! on) r with
  | [] => [merged_row on l r lr None]
  | ms => (fun rr => merged_row on l r lr (Some rr)) <$> ms
  end.

(** The column labels of the merged frame. *)
Definition merged_columns (on : string) (l r : DataFrame) : list string :=
  (suffixed (overlap on l r) "_x" <$> columns l)
  ++ (suffixed (overlap on l r) "_y" <$> right_columns on r).

(** [l.merge(r, on=on, how='left')]: left records in left order; [KeyError]
    when [on] is not a column of both frames.  (Rows are read by label:
    where two merged columns get the same label the model keeps the cell of
    the first.) *)
Definition merge_left (on : string) (l r : DataFrame) : option DataFrame :=
  if bool_decide (on ∈ columns l ∧ on ∈ columns r)
  then Some (mkDF (merged_columns on l r)
                  (flat_map (merge_one on l r) (rows l)))
  else None.

End Merge.

(* ===================================================================== *)
(** * Frames indexed by a key column: [set_index], [drop], [.at] *)
(* ===================================================================== *)

Record IndexedFrame := mkIF {
  index_name : string;
  icolumns : list string;
  irows : list (cell * row)
}.

Module Indexed.

(** [df.set_index(key)]: the key column becomes the row labels. *)
Definition set_index (key : string) (df : DataFrame) : option IndexedFrame :=
  if bool_decide (key ∈ columns df)
  then Some (mkIF key (filter (fun c => c ≠ key) (columns df))
                  ((fun r : row => (r !!! key, delete key r)) <$> rows df))
  else None.

(** [df.reset_index()]: the labels return as the first column. *)
Definition reset_index (f : IndexedFrame) : DataFrame :=
  mkDF (index_name f :: icolumns f)
       ((fun ir : cell * row => <[index_name f := ir.1]> (ir.2)) <$> irows f).

Definition labels (f : IndexedFrame) : list cell := fst <$> irows f.

(** [df.drop(ls, axis=0)]: [KeyError] unless every label of [ls] is found,
    otherwise the records carrying one of the labels are removed. *)
Definition drop (ls : list cell) (f : IndexedFrame) : option IndexedFrame :=
  if bool_decide (Forall (fun l => l ∈ labels f) ls)
  then Some (mkIF (index_name f) (icolumns f)
                  (filter (fun ir : cell * row => ir.1 ∉ ls) (irows f)))
  else None.

(** The records labelled [l]. *)
Definition at_rows (l : cell) (f : IndexedFrame) : list (cell * row) :=
  filter (fun ir : cell * row => ir.1 = l) (irows f).

(** The cells of column [c], record by record (missing where the column is
    absent). *)
Definition icolumn (c : string) (f : IndexedFrame) : list cell :=
  (fun ir : cell * row => ir.2 !!! c) <$> irows f.

(** [df.at[l, c]]: [KeyError] when the label or the column is absent.  The
    read is the cell of the record labelled [l]; with a repeated label pandas
    falls back to [.loc] and hands back the cells of all the records carrying
    it, in order.  Both are given as the list of those cells. *)
Definition at_get (l : cell) (c : string) (f : IndexedFrame)
  : option (list cell) :=
  if bool_decide (c ∈ icolumns f)
  then match at_rows l f with
       | [] => None
       | rs => Some ((fun ir : cell * row => ir.2 !!! c) <$> rs)
       end
  else None.

(** A value an int64 column holds without loss: an int, or a float that is
    an integer. *)
Definition integer_valued (v : cell) : bool :=
  match v with
  | Int _ => true
  | Flt x => match Float64.integral x with Some _ => true | None => false end
  | Str _ => false
  end.

(** The dtype of a column of dtype [d] once the values [vs] are assigned
    into it: a string makes it [object], a float that is no integer makes an
    int64 column float64.  (This is pandas 1.5 to 2.x; the model keeps no
    dtype beside the cells and reads it off them with [dtype_of].) *)
Definition dtype_after (d : dtype) (vs : list cell) : dtype :=
  match d with
  | DObject => DObject
  | DFloat => if existsb is_str vs then DObject else DFloat
  | DInt => if existsb is_str vs then DObject
            else if forallb integer_valued vs then DInt else DFloat
  end.

(** A value as a column of dtype [d] stores it: an int becomes a float in a
    float64 column, an integer float becomes an int in an int64 column. *)
Definition held (d : dtype) (v : cell) : cell :=
  match d, v with
  | DFloat, Int z => Flt (Float64.of_int z)
  | DInt, Flt x => match Float64.integral x with Some z => Int z | None => v end
  | _, _ => v
  end.

(** The values [vs] written, in order, into column [c] of the records
    labelled [l]. *)
Fixpoint put_rows (l : cell) (c : string) (d : dtype) (vs : list cell)
  (rs : list (cell * row)) : list (cell * row) :=
  match rs with
  | [] => []
  | ir :: rs' =>
      if bool_decide (ir.1 = l)
      then match vs with
           | v :: vs' => (ir.1, <[c := held d v]> (ir.2)) :: put_rows l c d vs' rs'
           | [] => ir :: put_rows l c d [] rs'
           end
      else ir :: put_rows l c d vs rs'
  end.

(** The column [c] turned from int64 to float64. *)
Definition to_float64 (c : string) (rs : list (cell * row)) : list (cell * row) :=
  (fun ir : cell * row => (ir.1, <[c := upcast (ir.2 !!! c)]> (ir.2))) <$> rs.

(** [df.loc[l, c] = vs] for a label the index has: one value per record
    carrying the label.  The column takes the dtype that holds the values; a
    column the frame does not have is added (as a column of missing values,
    then written). *)
Definition at_put (l : cell) (c : string) (vs : list cell) (f : IndexedFrame)
  : IndexedFrame :=
  let old := dtype_of (icolumn c f) in
  let new := dtype_after old vs in
  let rs := match old, new with
            | DInt, DFloat => to_float64 c (irows f)
            | _, _ => irows f
            end in
  mkIF (index_name f)
       (if bool_decide (c ∈ icolumns f) then icolumns f else icolumns f ++ [c])
       (put_rows l c new vs rs).

(** The columns that hold no string. *)
Definition numeric_columns (f : IndexedFrame) : list string :=
  filter (fun c => existsb is_str (icolumn c f) = false) (icolumns f).

(** Setting with enlargement: a label the index does not have is appended
    with a record of missing values, and the int64 columns become float64
    for it. *)
Definition enlarge (l : cell) (f : IndexedFrame) : IndexedFrame :=
  mkIF (index_name f) (icolumns f)
       (((fun ir : cell * row =>
            (ir.1, Frame.map_cells upcast (numeric_columns f) (ir.2))) <$> irows f)
        ++ [(l, ∅)]).

(** [df.at[l, c] = v] for a scalar [v]: the cell of every record labelled
    [l]; a label the index does not have is appended first. *)
Definition at_set (l : cell) (c : string) (v : cell) (f : IndexedFrame)
  : IndexedFrame :=
  let g := if bool_decide (l ∈ labels f) then f else enlarge l f in
  at_put l c (replicate (length (at_rows l g)) v) g.

(** The cell [w] is the value [v] as a column stores it: [v] itself, [v] as
    a float, or the integer that the float [v] is. *)
Definition stored (v w : cell) : Prop :=
  w = v ∨ w = upcast v
  ∨ ∃ x z, v = Flt x ∧ Float64.integral x = Some z
           ∧ (w = Int z ∨ w = Flt (Float64.of_int z)).



(** A record after [set_index(key)] and [reset_index()]: the key cell is
    taken out and stored again. *)
Definition reindexed (key : string) (r : row) : row :=
  <[key := r !!! key]> (delete key r).

End Indexed.

(* ===================================================================== *)
(** * [DataFrame.sort_values([c], ascending=False)] *)
(* ===================================================================== *)

Module SortValues.

(** The integer a record holds in column [c] (the sort column is int64 when
    the notebook sorts). *)
Definition int_of (c : string) (r : row) : Z :=
  match r !!! c with Int z => z | _ => 0 end.

Definition is_int (c : cell) : bool :=
  match c with Int _ => true | _ => false end.

(** [r1] may stand before [r2] in descending order of column [c]. *)
Definition ge_on (c : string) (r1 r2 : row) : Prop := int_of c r2 <= int_of c r1.

#[global] Instance ge_on_dec c r1 r2 : Decision (ge_on c r1 r2).
Proof. unfold ge_on. apply _. Defined.

(** Descending sort on an int64 column; [KeyError] when the column is
    absent.  A sort column of another dtype is outside this model ([None]).
    Pandas' default sort leaves the order of records with equal keys
    unspecified; the model fixes one of the permitted orders. *)
Definition sort_values_desc (c : string) (df : DataFrame) : option DataFrame :=
  if bool_decide (c ∈ columns df)
  then if forallb (fun r : row => is_int (r !!! c)) (rows df)
       then Some (mkDF (columns df) (merge_sort (ge_on c) (rows df)))
       else None
  else None.

(** The record holds an integer in column [c]. *)
Definition int_key (c : string) (r : row) : Prop := is_int (r !!! c) = true.

(** Record by record, [k] holds in column [c] what [l] holds there, where
    that is an integer. *)
Definition keeps (c : string) (l k : list row) : Prop :=
  Forall2 (fun r r' : row => int_key c r → r' !!! c = r !!! c) l k.

End SortValues.

(* ===================================================================== *)
(** * Key reconciliation: the alias replacements and the key strip *)
(* ===================================================================== *)

Module Reconciler.

(** [Series.replace(a, b)] on one cell: a cell equal to [a] becomes [b]. *)
Definition replace_value (a b : string) (c : cell) : cell :=
  if bool_decide (c = Str a) then Str b else c.

(** The same on a name. *)
Definition replace_name (a b : string) (s : string) : string :=
  if String.eqb s a then b else s.

(** In[10], lines 374-375. *)
Definition global_aliases : list (string * string) :=
  [ ("USA", "United States");
    ("UK", "United Kingdom") ]%string.

(** In[18], lines 477-492. *)
Definition area_aliases : list (string * string) :=
  [ ("United Arab Emirates", "UAE");
    ("State of Palestine", "Palestine");
    ("Republic of North Macedonia", "North Macedonia");
    ("South Korea", "S. Korea");
    ("Côte d'Ivoire", "Ivory Coast");
    ("DR Congo", "DRC");
    ("China Hong Kong SAR", "Hong Kong");
    ("Central African Republic", "CAR");
    ("Turks and Caicos Islands", "Turks and Caicos");
    ("Saint Vincent and the Grenadines", "St. Vincent Grenadines");
    ("Saint Barthélemy", "St. Barth");
    ("Brunei Darussalam", "Brunei");
    ("Wallis and Futuna Islands", "Wallis and Futuna");
    ("China Macao SAR", "Macao");
    ("Holy See", "Vatican City");
    ("Saint Pierre and Miquelon", "Saint Pierre Miquelon") ]%string.

(** The replacement statements of a cell run one after the other on the
    same column. *)
Definition alias (tbl : list (string * string)) (s : string) : string :=
  fold_left (fun acc ab => replace_name ab.1 ab.2 acc) tbl s.

Definition alias_cell (tbl : list (string * string)) (c : cell) : cell :=
  fold_left (fun acc ab => replace_value ab.1 ab.2 acc) tbl c.

(** [df.COUNTRY = df.COUNTRY.replace(a, b)], once per entry of [tbl]. *)
Definition reconcile (key : string) (tbl : list (string * string))
  (df : DataFrame) : option DataFrame :=
  fold_left (fun acc ab =>
               d ← acc; Frame.map_column key (replace_value ab.1 ab.2) d)
            tbl (Some df).

(** [Series.str.strip()] on one cell: a cell that is no string becomes
    missing. *)
Definition str_strip (c : cell) : cell :=
  match c with Str s => Str (Text.strip s) | _ => null end.

(** Lines 579 and 580: [df.COUNTRY = df.COUNTRY.str.strip()] *)
Definition strip_key (key : string) (df : DataFrame) : option DataFrame :=
  Frame.map_column key str_strip df.

(** What becomes of a [country_area] name between scraping and the merge
    of In[25]: the replacements of In[18], then the strip of line 580. *)
Definition area_key (s : string) : string := Text.strip (alias area_aliases s).

(** What becomes of a [global_data] name: the replacements of In[10]; it is
    merged with [country_gdp] as such (line 507) and stripped (line 579)
    only before the merge with [country_area]. *)
Definition global_key_gdp (s : string) : string := alias global_aliases s.
Definition global_key_area (s : string) : string :=
  Text.strip (alias global_aliases s).

(** The same two steps on the [country_area] frame. *)
Definition prepare_area (area : DataFrame) : option DataFrame :=
  a ← reconcile "COUNTRY" area_aliases area; strip_key "COUNTRY" a.

(** An alias table read as a dictionary: the first entry for the name. *)
Fixpoint lookup_alias (tbl : list (string * string)) (s : string)
  : option string :=
  match tbl with
  | [] => None
  | (a, b) :: tbl' => if String.eqb s a then Some b else lookup_alias tbl' s
  end.

(** The reconciliation as the specification words it: strip the name, then
    look it up, unchanged when it has no entry.  Used only to compare with
    [area_key]. *)
Definition spec_reconcile (tbl : list (string * string)) (s : string) : string :=
  default (Text.strip s) (lookup_alias tbl (Text.strip s)).

(** No replacement value is itself a name to replace: checked on the
    tables, it makes the order of the statements irrelevant. *)
Definition values_not_keys (tbl : list (string * string)) : bool :=
  forallb (fun ab : string * string =>
             forallb (fun cd : string * string => negb (String.eqb ab.2 cd.1)) tbl)
          tbl.

(** The same as a proposition. *)
Definition separated (tbl : list (string * string)) : Prop :=
  ∀ ab cd, ab ∈ tbl → cd ∈ tbl → ab.2 ≠ cd.1.

End Reconciler.

(* ===================================================================== *)
(** * Numeric conversion (In[12] for global_data, In[33] for us_data) *)
(* ===================================================================== *)

Module Normalizer.

Section WithParsers.

(** [pd.to_numeric] on one string: the number it reads, as a float64, or
    [None] when the string is no number.  ([to_numeric] yields an int64
    where every cell is an integer; the counts of these tables are exactly
    representable, so the values agree.) *)
Variable to_numeric : string -> option spec_float.

(** Python's [int(s)] on a string. *)
Variable int_of_str : string -> option Z.

(** [pd.to_numeric(x, errors='coerce')]: what cannot be parsed becomes NaN. *)
Definition coerce (c : cell) : cell :=
  match c with
  | Str s => Flt (default Float64.NaN (to_numeric s))
  | _ => c
  end.

(** [fillna(0)] and [replace(np.nan, 0)] on one cell. *)
Definition fillna0 (c : cell) : cell :=
  if isna c then Flt Float64.zero else c.

(** [replace(x, 0)] on one cell, for a float [x]. *)
Definition replace0 (x : spec_float) (c : cell) : cell :=
  if bool_decide (c = Flt x) then Flt Float64.zero else c.

(** What the three replacements of In[12] make of one cell. *)
Definition zeroed (c : cell) : cell :=
  replace0 Float64.pos_inf (replace0 Float64.NaN (fillna0 c)).

(** The record holds, in each of the columns [cs], a string that
    [to_numeric] does not read as minus infinity. *)
Definition strings_in (cs : list string) (r : row) : Prop :=
  ∀ c, c ∈ cs → ∃ s, r !!! c = Str s ∧ to_numeric s ≠ Some Float64.neg_inf.

(** [int(v)] on one cell. *)
Definition py_int_cell (c : cell) : option cell :=
  match c with
  | Flt x => Int <$> Float64.py_int x
  | Int z => Some (Int z)
  | Str s => Int <$> int_of_str s
  end.

Definition global_cols : list string :=
  [ "TOTALCASES"; "TOTALDEATHS"; "TOTALRECOVERED"; "ACTIVECASES";
    "SERIOUS_CRITICAL"; "TOTCASES_PER_1M"; "DEATH_PER_1M"; "TOTALTESTS";
    "TESTS_PER_1M"; "POPULATION" ]%string.

(** In[12], lines 388-402:
<<
    global_data[cols] = global_data[cols].apply(pd.to_numeric, errors='coerce', axis=1)
    global_data.fillna(0, inplace=True)
    global_data.replace(np.nan, 0, inplace=True)
    global_data.replace(np.inf, 0, inplace=True)
    for col in global_data.columns[1:11]:
        global_data[col]=global_data[col].apply(int)
>> *)
Definition global_to_numeric (df : DataFrame) : option DataFrame :=
  df1 ← Frame.apply_columns (fun c => Some (coerce c)) global_cols df;
  let df2 := Frame.applymap fillna0 df1 in
  let df3 := Frame.applymap (replace0 Float64.NaN) df2 in
  let df4 := Frame.applymap (replace0 Float64.pos_inf) df3 in
  Frame.apply_columns py_int_cell (take 10 (drop 1 (columns df4))) df4.

Definition us_cols : list string :=
  [ "TOTALCASES"; "TOTALDEATHS"; "TOTALRECOVERED"; "ACTIVECASES";
    "TOTCASES_PER_1M"; "DEATH_PER_1M"; "TOTALTESTS"; "TESTS_PER_1M";
    "POPULATION" ]%string.

(** [df[c] = pd.Series(df[c], dtype=int)]: the Series constructor casts an
    existing Series with errors ignored, so a column with a cell that [int]
    rejects (a NaN) is left as it is. *)
Definition series_int (c : string) (df : DataFrame) : DataFrame :=
  match mapM (fun r : row => py_int_cell (r !!! c)) (rows df) with
  | Some vs =>
      mkDF (columns df) (zip_with (fun (r : row) v => <[c := v]> r) (rows df) vs)
  | None => df
  end.

(** In[33], lines 677-685:
<<
    us_data[cols] = us_data[cols].apply(pd.to_numeric, errors='coerce', axis=1)
    for col in us_data.columns[1:]:
        us_data[col]=pd.Series(us_data[col], dtype=int)
>> *)
Definition us_to_numeric (df : DataFrame) : option DataFrame :=
  df1 ← Frame.apply_columns (fun c => Some (coerce c)) us_cols df;
  Some (fold_left (fun acc c => series_int c acc) (drop 1 (columns df1)) df1).

End WithParsers.

(** A reader of unsigned decimal integers, to run the conversions on
    examples. *)
Definition digit_of (a : ascii) : option Z :=
  let n := Z.of_N (N_of_ascii a) in
  if (48 <=? n) && (n <=? 57) then Some (n - 48) else None.

Fixpoint read_digits (acc : Z) (s : string) : option Z :=
  match s with
  | EmptyString => Some acc
  | String a s' =>
      match digit_of a with
      | Some d => read_digits (10 * acc + d) s'
      | None => None
      end
  end.

Definition read_nat (s : string) : option Z :=
  match s with EmptyString => None | _ => read_digits 0 s end.

Definition read_float (s : string) : option spec_float :=
  Float64.of_int <$> read_nat s.

End Normalizer.

(* ===================================================================== *)
(** * Derived metrics (In[20], In[26] for global_data, In[34] for us_data) *)
(* ===================================================================== *)

Module Metrics.

(** The float64 a numeric cell stands for in a division; dividing a string
    raises [TypeError]. *)
Definition to_float (c : cell) : option spec_float :=
  match c with
  | Int z => Some (Float64.of_int z)
  | Flt x => Some x
  | Str _ => None
  end.

(** [a / b] on two cells of numeric columns. *)
Definition truediv (a b : cell) : option cell :=
  x ← to_float a; y ← to_float b; Some (Flt (Float64.div x y)).

Definition ratio_row (new num den : string) (r : row) : option row :=
  q ← truediv (r !!! num) (r !!! den); Some (<[new := q]> r).

(** [df[new] = df[num] / df[den]] *)
Definition ratio_column (new num den : string) (df : DataFrame)
  : option DataFrame :=
  if bool_decide (num ∈ columns df ∧ den ∈ columns df)
  then rs ← mapM (ratio_row new num den) (rows df);
       Some (mkDF (if bool_decide (new ∈ columns df) then columns df
                   else columns df ++ [new]) rs)
  else None.

(** [df.replace([np.inf, -np.inf], 0)] on one cell. *)
Definition replace_inf (c : cell) : cell :=
  match c with
  | Flt (S754_infinity _) => Flt Float64.zero
  | _ => c
  end.

(** The three ratio assignments shared by In[20] and In[34]. *)
Definition ratios (df : DataFrame) : option DataFrame :=
  df1 ← ratio_column "DEATH_RATE" "TOTALDEATHS" "TOTALCASES" df;
  df2 ← ratio_column "SURVIVAL_RATE" "TOTALRECOVERED" "TOTALCASES" df1;
  ratio_column "PERCENT_TESTS_POSITIVE" "TOTALCASES" "TOTALTESTS" df2.

(** In[20], lines 517-524: the ratios, then
    [global_data = global_data.replace([np.inf, -np.inf], 0)]. *)
Definition global_metrics (df : DataFrame) : option DataFrame :=
  df3 ← ratios df; Some (Frame.applymap replace_inf df3).

(** In[34], lines 696-704: the ratios; the replacement line is commented
    out there ([#us_data = us_data.replace([np.inf, -np.inf], 0)]). *)
Definition us_metrics (df : DataFrame) : option DataFrame := ratios df.

(** In[26], line 588, computed after the replacement of In[20]. *)
Definition population_density (df : DataFrame) : option DataFrame :=
  ratio_column "POPULATION_DENSITY" "POPULATION" "LAND_AREA" df.

(** A cell that is exactly zero. *)
Definition is_zero (c : cell) : bool :=
  match c with
  | Int 0 => true
  | Flt (S754_zero _) => true
  | _ => false
  end.

(** A cell holding a finite number. *)
Definition is_finite_cell (c : cell) : bool :=
  match c with
  | Int _ => true
  | Flt x => Float64.is_finite x
  | Str _ => false
  end.

(** A record after the three ratio assignments. *)
Definition with_ratios (q1 q2 q3 : cell) (r : row) : row :=
  <["PERCENT_TESTS_POSITIVE" := q3]>
    (<["SURVIVAL_RATE" := q2]> (<["DEATH_RATE" := q1]> r)).

(** The columns the three ratios read. *)
Definition ratio_inputs : list string :=
  ["TOTALDEATHS"; "TOTALCASES"; "TOTALRECOVERED"; "TOTALTESTS"]%string.

(** The record holds a number in each of the columns [cs]. *)
Definition numeric (cs : list string) (r : row) : Prop :=
  Forall (fun c => is_Some (to_float (r !!! c))) cs.

(** A number that is neither zero nor NaN. *)
Definition nonzero (c : cell) : bool :=
  match c with
  | Int z => negb (z =? 0)
  | Flt (S754_finite _ _ _) => true
  | Flt (S754_infinity _) => true
  | _ => false
  end.

(** The sign of a number: [true] for a negative one (and for [-0.0]). *)
Definition negative (c : cell) : bool :=
  match c with
  | Int z => z <? 0
  | Flt (S754_zero s) => s
  | Flt (S754_infinity s) => s
  | Flt (S754_finite s _ _) => s
  | _ => false
  end.

(** Between a record [r] and the record [r'] computed from it: a non-zero
    number [num], an int or a float, over a zero [den] gives the zero float
    in column [new]. *)
Definition zero_den_replaced (num den new : string) (r r' : row) : Prop :=
  nonzero (r !!! num) = true → is_zero (r !!! den) = true →
  r' !!! new = Flt Float64.zero.

(** The same quotient left as the infinity that IEEE 754 division gives: its
    sign is that of the numerator, turned when the zero is [-0.0]. *)
Definition zero_den_infinite (num den new : string) (r r' : row) : Prop :=
  nonzero (r !!! num) = true → is_zero (r !!! den) = true →
  r' !!! new
  = Flt (S754_infinity (xorb (negative (r !!! num)) (negative (r !!! den)))).

(** Zero over zero left as NaN. *)
Definition zero_zero_nan (num den new : string) (r r' : row) : Prop :=
  is_zero (r !!! num) = true → is_zero (r !!! den) = true →
  r' !!! new = Flt Float64.NaN.

(** The cell of column [new] is no infinity. *)
Definition not_infinite (new : string) (r' : row) : Prop :=
  match r' !!! new with Flt x => Float64.is_inf x = false | _ => True end.

End Metrics.

(* ===================================================================== *)
(** * Filling the missing GDP values by hand (In[22]-In[24]) *)
(* ===================================================================== *)

Module NullRepair.

(** In[22], line 545: [gdp_entry = global_data[['COUNTRY', 'GDP_PER_CAPITA']].copy()],
    written to [gdp_entry.csv] in In[23]: every record, both columns. *)
Definition gdp_entry (df : DataFrame) : option DataFrame :=
  Frame.select ["COUNTRY"; "GDP_PER_CAPITA"]%string df.

(** In[24], lines 560-566, with [gdp_df_update] the frame read back from the
    hand-edited [gdp_entry2.csv]:
<<
    global_data = global_data.drop('GDP_PER_CAPITA', axis=1)
    global_data = global_data.merge(gdp_df_update, on='COUNTRY', how='left')
>> *)
Definition remerge (gdp_df_update df : DataFrame) : option DataFrame :=
  df1 ← Frame.drop_column "GDP_PER_CAPITA" df;
  Merge.merge_left "COUNTRY" df1 gdp_df_update.

(** [u] is the export record [e] with its GDP cell kept when present and
    filled in when missing. *)
Definition corrects (e u : row) : Prop :=
  u !!! "COUNTRY" = e !!! "COUNTRY"
  ∧ isna (u !!! "GDP_PER_CAPITA") = false
  ∧ (isna (e !!! "GDP_PER_CAPITA") = false →
     u !!! "GDP_PER_CAPITA" = e !!! "GDP_PER_CAPITA").

(** The replacement table answers the export [e]: no key occurs twice in
    it, and every exported record has a record in it that corrects it. *)
Definition answers (e upd : DataFrame) : Prop :=
  NoDup (Frame.keys "COUNTRY" upd)
  ∧ Forall (fun er : row => ∃ u, u ∈ rows upd ∧ corrects er u) (rows e).

End NullRepair.

(* ===================================================================== *)
(** * The vessels (In[24], lines 569-570) *)
(* ===================================================================== *)

Module Exclusion.

Definition vessels : list cell := [Str "Diamond Princess"; Str "MS Zaandam"].

(** <<
    global_data = global_data.set_index('COUNTRY')
    global_data = global_data.drop(['Diamond Princess','MS Zaandam'], axis = 0).reset_index()
>> *)
Definition drop_vessels (df : DataFrame) : option DataFrame :=
  f ← Indexed.set_index "COUNTRY" df;
  g ← Indexed.drop vessels f;
  Some (Indexed.reset_index g).

End Exclusion.

(* ===================================================================== *)
(** * The patch of eight US states (In[36]-In[54]) *)
(* ===================================================================== *)

Module StatePatch.

(** The states whose cells In[54] overwrites, in the order of lines
    1086-1116. *)
Definition patched_states : list string :=
  [ "Hawaii"; "South Carolina"; "Indiana"; "Wisconsin"; "Alabama";
    "Louisiana"; "Nebraska"; "Maine" ]%string.

(** What In[36]-In[51] scrape for one state: the recovered count (an [int])
    and the active count (the last point of a chart series). *)
Record scraped := mkScraped { recovered : Z; active : cell }.

(** Lines 1086-1088 for Hawaii, and the same three lines per state:
<<
    us_data.at[st,'TOTALRECOVERED'] = recovered
    us_data.at[st,'ACTIVECASES'] = active
    us_data.at[st,'SURVIVAL_RATE'] = (recovered / (us_data.at[st, 'TOTALCASES']))
>>
    The division is that of the integer by each cell read ([TypeError] on a
    string); the quotients are written to the records they were read from. *)
Definition patch_state (st : string) (v : scraped) (f : IndexedFrame)
  : option IndexedFrame :=
  let f1 := Indexed.at_set (Str st) "TOTALRECOVERED" (Int (recovered v)) f in
  let f2 := Indexed.at_set (Str st) "ACTIVECASES" (active v) f1 in
  tc ← Indexed.at_get (Str st) "TOTALCASES" f2;
  q ← mapM (Metrics.truediv (Int (recovered v))) tc;
  Some (Indexed.at_put (Str st) "SURVIVAL_RATE" q f2).

(** The patches of a list of states in sequence. *)
Definition patch_list (sts : list string) (scr : string -> scraped)
  (f : IndexedFrame) : option IndexedFrame :=
  fold_left (fun acc st => g ← acc; patch_state st (scr st) g) sts (Some f).

(** In[54]: the eight patches in sequence. *)
Definition patch_all (scr : string -> scraped) (f : IndexedFrame)
  : option IndexedFrame :=
  patch_list patched_states scr f.

(** In[52]-In[56]: strip the state names, index by state, patch, and put
    the index back. *)
Definition repair_states (scr : string -> scraped) (df : DataFrame)
  : option DataFrame :=
  d ← Reconciler.strip_key "STATE" df;
  f ← Indexed.set_index "STATE" d;
  g ← patch_all scr f;
  Some (Indexed.reset_index g).






End StatePatch.

(* ===================================================================== *)
(** * The cells of global_data from the sort to the top ten *)
(* ===================================================================== *)

Module Pipeline.

(** One table-transforming statement group of the notebook. *)
Inductive stage :=
| SortCases                    (* In[13], line 411 *)
| MergeLeft (aux : DataFrame)  (* lines 507, 566, 581 *)
| DerivedMetrics               (* In[20] *)
| DropColumn (c : string)      (* line 563 *)
| DropVessels                  (* lines 569-570 *)
| StripKey                     (* line 579 *)
| Density.                     (* line 588 *)

Definition step (s : stage) (df : DataFrame) : option DataFrame :=
  match s with
  | SortCases => SortValues.sort_values_desc "TOTALCASES" df
  | MergeLeft aux => Merge.merge_left "COUNTRY" df aux
  | DerivedMetrics => Metrics.global_metrics df
  | DropColumn c => Frame.drop_column c df
  | DropVessels => Exclusion.drop_vessels df
  | StripKey => Reconciler.strip_key "COUNTRY" df
  | Density => Metrics.population_density df
  end.

Definition run (ss : list stage) (df : DataFrame) : option DataFrame :=
  fold_left (fun acc s => d ← acc; step s d) ss (Some df).

(** In[13] to In[26] in source order.  [country_gdp] is the frame of In[16],
    [gdp_df_update] the hand-edited frame read in In[24], [country_area] the
    frame of In[18] after the strip of line 580. *)
Definition global_stages (country_gdp gdp_df_update country_area : DataFrame)
  : list stage :=
  [ SortCases;
    MergeLeft country_gdp;
    DerivedMetrics;
    DropColumn "GDP_PER_CAPITA";
    MergeLeft gdp_df_update;
    DropVessels;
    StripKey;
    MergeLeft country_area;
    Density ].

Definition is_merge (s : stage) : bool :=
  match s with MergeLeft _ => true | _ => false end.

Definition is_drop_vessels (s : stage) : bool :=
  match s with DropVessels => true | _ => false end.

(** [global_data] as In[57] finds it. *)
Definition global_final (country_gdp gdp_df_update country_area df : DataFrame)
  : option DataFrame :=
  a ← Reconciler.prepare_area country_area;
  run (global_stages country_gdp gdp_df_update a) df.

(** In[57], line 1169: [top_cases = global_data[:10]] *)
Definition top_cases (global_data : DataFrame) : DataFrame :=
  Frame.head 10 global_data.

(** The table holds an int64 TOTALCASES column in non-increasing order. *)
Definition cases_ordered (df : DataFrame) : Prop :=
  "TOTALCASES" ∈ columns df
  ∧ Forall (fun r : row => SortValues.is_int (r !!! "TOTALCASES") = true) (rows df)
  ∧ StronglySorted (SortValues.ge_on "TOTALCASES") (rows df).

(** A stage that neither removes nor renames the TOTALCASES column: a merge
    whose auxiliary table has no column of that name, a drop of another
    column. *)
Definition keeps_cases (s : stage) : Prop :=
  match s with
  | MergeLeft aux => "TOTALCASES" ∉ columns aux
  | DropColumn c => c ≠ "TOTALCASES"%string
  | _ => True
  end.

End Pipeline.

(* ===================================================================== *)
(** * Further cells of the notebook: headers, row trimming, scraped counts *)
(* ===================================================================== *)

Module Headers.

(** A function on characters applied to every character of a string. *)
Fixpoint map_chars (f : ascii -> ascii) (s : string) : string :=
  match s with
  | EmptyString => EmptyString
  | String a s' => String (f a) (map_chars f s')
  end.

(** [str.upper] on one character of the ASCII range: the letters a-z.  The
    bytes of a character outside ASCII are left as they are: the casing of
    such characters is not modelled, and what is proved of [upper] is stated
    for ASCII text. *)
Definition upper_char (a : ascii) : ascii :=
  let n := N_of_ascii a in
  if ((97 <=? n) && (n <=? 122))%N then ascii_of_N (n - 32) else a.

(** [s.upper()] *)
Definition upper (s : string) : string := map_chars upper_char s.

(** [s.replace(' ', '_')] on one character. *)
Definition underscore_char (a : ascii) : ascii :=
  if Ascii.eqb a " "%char then "_"%char else a.

Definition underscore (s : string) : string := map_chars underscore_char s.

(** Lines 189-190 (and 247-248, 289-290) on one column label:
<<
    df.columns = df.columns.to_series().apply(lambda x: x.strip())
    df.columns = (df.columns.str.strip().str.upper().str.replace(' ', '_'))
>> *)
Definition canonical (h : string) : string :=
  underscore (upper (Text.strip (Text.strip h))).

Definition canonical_headers (t : RawTable) : RawTable :=
  mkRaw (map canonical (headers t)) (body t).

(** A character of the ASCII range: one byte, below 128. *)
Definition is_ascii (a : ascii) : bool := (N_of_ascii a <? 128)%N.

Definition is_lower (a : ascii) : bool :=
  let n := N_of_ascii a in ((97 <=? n) && (n <=? 122))%N.

Fixpoint all_chars (p : ascii -> bool) (s : string) : bool :=
  match s with
  | EmptyString => true
  | String a s' => p a && all_chars p s'
  end.

End Headers.

Module Trim.

(** [df.drop(df.index[[0, ..., n-1]]).reset_index(drop=True)]: the first [n]
    records go; indexing positions the table does not have raises
    [IndexError]. *)
Definition drop_first {A} (n : nat) (l : list A) : option (list A) :=
  if bool_decide (n ≤ length l)%nat then Some (drop n l) else None.

(** [df.drop(df.tail(n).index, inplace=True)]: the last [n] records go, all
    of them when there are fewer. *)
Definition drop_last {A} (n : nat) (l : list A) : list A :=
  take (length l - n) l.

(** In[6], lines 331-334: eight records off the top, eight off the bottom. *)
Definition trim_global (t : RawTable) : option RawTable :=
  b ← drop_first 8 (body t); Some (mkRaw (headers t) (drop_last 8 b)).

(** In[30], lines 642-645: one record off the top, thirteen off the bottom. *)
Definition trim_us (t : RawTable) : option RawTable :=
  b ← drop_first 1 (body t); Some (mkRaw (headers t) (drop_last 13 b)).

End Trim.

Module Scrape.

Section WithInt.

(** Python's [int(s)] on a string. *)
Variable int_of_str : string -> option Z.

(** In[36], lines 739-741 (and the same three lines per state):
<<
    recovered = a.find('span').text
    recovered = recovered.replace(",", "")
    recovered = int(recovered)
>> *)
Definition recovered_count (text : string) : option Z :=
  int_of_str (Text.remove_char Text.comma text).

End WithInt.

(** In[37], line 765: [active = data[-1]], the last point of the chart
    series; [IndexError] on an empty series. *)
Definition last_point {A} (data : list A) : option A := last data.

End Scrape.

(* ===================================================================== *)
(** * Small tables on which the statements below are run *)
(* ===================================================================== *)

Module Samples.
Definition mk_row (l : list (string * cell)) : row := list_to_map l.

Definition base2 : DataFrame :=
  mkDF ["COUNTRY"; "TOTALCASES"]
       [ mk_row [("COUNTRY", Str "United States"); ("TOTALCASES", Int 10)];
         mk_row [("COUNTRY", Str "United Kingdom"); ("TOTALCASES", Int 5)] ].

Definition gdp2 : DataFrame :=
  mkDF ["COUNTRY"; "GDP_PER_CAPITA"]
       [ mk_row [("COUNTRY", Str "United States"); ("GDP_PER_CAPITA", Int 60000)];
         mk_row [("COUNTRY", Str "Atlantis"); ("GDP_PER_CAPITA", Int 1)] ].

Definition base1 : DataFrame :=
  mkDF ["COUNTRY"; "TOTALCASES"]
       [ mk_row [("COUNTRY", Str "A"); ("TOTALCASES", Int 10)] ].

Definition gdp_dup : DataFrame :=
  mkDF ["COUNTRY"; "GDP_PER_CAPITA"]
       [ mk_row [("COUNTRY", Str "A"); ("GDP_PER_CAPITA", Int 1)];
         mk_row [("COUNTRY", Str "A"); ("GDP_PER_CAPITA", Int 2)] ].

(** A float64 cell holding an integer. *)
Definition flt (z : Z) : cell := Flt (Float64.of_int z).

Definition gdp_table : DataFrame :=
  mkDF ["COUNTRY"; "TOTALCASES"; "GDP_PER_CAPITA"]
       [ mk_row [("COUNTRY", Str "A"); ("TOTALCASES", Int 10); ("GDP_PER_CAPITA", flt 1)];
         mk_row [("COUNTRY", Str "B"); ("TOTALCASES", Int 5); ("GDP_PER_CAPITA", null)] ].

Definition gdp_export : DataFrame :=
  mkDF ["COUNTRY"; "GDP_PER_CAPITA"]
       [ mk_row [("COUNTRY", Str "A"); ("GDP_PER_CAPITA", flt 1)];
         mk_row [("COUNTRY", Str "B"); ("GDP_PER_CAPITA", null)] ].

(** The export with its missing value filled in, the records in another
    order. *)
Definition gdp_fixed : DataFrame :=
  mkDF ["COUNTRY"; "GDP_PER_CAPITA"]
       [ mk_row [("COUNTRY", Str "B"); ("GDP_PER_CAPITA", flt 5)];
         mk_row [("COUNTRY", Str "A"); ("GDP_PER_CAPITA", flt 1)] ].

(** A replacement for the key of the missing value only. *)
Definition gdp_fixed_nulls_only : DataFrame :=
  mkDF ["COUNTRY"; "GDP_PER_CAPITA"]
       [ mk_row [("COUNTRY", Str "B"); ("GDP_PER_CAPITA", Int 5)] ].

(** A replacement in which a key occurs twice. *)
Definition gdp_fixed_twice : DataFrame :=
  mkDF ["COUNTRY"; "GDP_PER_CAPITA"]
       [ mk_row [("COUNTRY", Str "A"); ("GDP_PER_CAPITA", flt 1)];
         mk_row [("COUNTRY", Str "B"); ("GDP_PER_CAPITA", flt 5)];
         mk_row [("COUNTRY", Str "B"); ("GDP_PER_CAPITA", flt 6)] ].

Definition world_row (name : string) (cases deaths recovered tests pop : Z) : row :=
  mk_row [("COUNTRY", Str name); ("TOTALCASES", Int cases);
          ("TOTALDEATHS", Int deaths); ("TOTALRECOVERED", Int recovered);
          ("TOTALTESTS", Int tests); ("POPULATION", Int pop)].

Definition world : DataFrame :=
  mkDF ["COUNTRY"; "TOTALCASES"; "TOTALDEATHS"; "TOTALRECOVERED"; "TOTALTESTS";
        "POPULATION"]
       [ world_row "China" 80 4 70 1000 1400;
         world_row "United States" 1000 50 300 5000 330;
         world_row "Diamond Princess" 7 1 6 0 0;
         world_row "India" 500 10 400 0 1300;
         world_row "MS Zaandam" 0 0 0 0 0;
         world_row " Italy" 200 30 100 900 60 ].

Definition world_gdp : DataFrame :=
  mkDF ["COUNTRY"; "GDP_PER_CAPITA"]
       [ mk_row [("COUNTRY", Str "United States"); ("GDP_PER_CAPITA", Int 60000)];
         mk_row [("COUNTRY", Str "China"); ("GDP_PER_CAPITA", Int 10000)] ].

Definition world_gdp_update : DataFrame :=
  mkDF ["COUNTRY"; "GDP_PER_CAPITA"]
       [ mk_row [("COUNTRY", Str "United States"); ("GDP_PER_CAPITA", Int 60000)];
         mk_row [("COUNTRY", Str "China"); ("GDP_PER_CAPITA", Int 10000)];
         mk_row [("COUNTRY", Str "India"); ("GDP_PER_CAPITA", Int 2000)];
         mk_row [("COUNTRY", Str " Italy"); ("GDP_PER_CAPITA", Int 30000)] ].

Definition world_area : DataFrame :=
  mkDF ["COUNTRY"; "LAND_AREA"]
       [ mk_row [("COUNTRY", Str "United States"); ("LAND_AREA", Int 3500)];
         mk_row [("COUNTRY", Str "China"); ("LAND_AREA", Int 3600)];
         mk_row [("COUNTRY", Str "Italy "); ("LAND_AREA", Int 110)];
         mk_row [("COUNTRY", Str "South Korea"); ("LAND_AREA", Int 40)] ].

Definition world_final : DataFrame :=
  default (mkDF [] []) (Pipeline.global_final world_gdp world_gdp_update world_area world).






Definition metrics_row (cases deaths recovered tests pop area : Z) : row :=
  mk_row [("TOTALCASES", Int cases); ("TOTALDEATHS", Int deaths);
          ("TOTALRECOVERED", Int recovered); ("TOTALTESTS", Int tests);
          ("POPULATION", Int pop); ("LAND_AREA", Int area)].

Definition metrics_table : DataFrame :=
  mkDF ["TOTALCASES"; "TOTALDEATHS"; "TOTALRECOVERED"; "TOTALTESTS";
        "POPULATION"; "LAND_AREA"]
       [ metrics_row 100 5 50 0 1000 0;
         metrics_row 0 0 0 0 0 0 ].

(** A table with float64 columns, as the code has them: TOTALRECOVERED after
    a failed parse in [us_data], LAND_AREA after the left merge of line 581. *)
Definition float_row (cases deaths : Z) (recovered : cell) (tests pop : Z)
  (area : cell) : row :=
  mk_row [("TOTALCASES", Int cases); ("TOTALDEATHS", Int deaths);
          ("TOTALRECOVERED", recovered); ("TOTALTESTS", Int tests);
          ("POPULATION", Int pop); ("LAND_AREA", area)].

Definition float_table : DataFrame :=
  mkDF ["TOTALCASES"; "TOTALDEATHS"; "TOTALRECOVERED"; "TOTALTESTS";
        "POPULATION"; "LAND_AREA"]
       [ float_row 100 5 (flt 50) 0 1000 (Flt Float64.zero);
         float_row 0 0 (flt 7) 10 20 null;
         float_row 0 0 null 0 0 (flt 3) ].

Definition scraped_global : DataFrame :=
  mkDF ("COUNTRY" :: (Normalizer.global_cols ++ ["CONTINENT"])%list)
       [ mk_row [("COUNTRY", Str "Italy"); ("TOTALCASES", Str "200");
                 ("TOTALDEATHS", Str "30"); ("TOTALRECOVERED", Str "N/A");
                 ("ACTIVECASES", Str ""); ("SERIOUS_CRITICAL", Str "7");
                 ("TOTCASES_PER_1M", Str "3"); ("DEATH_PER_1M", Str "1");
                 ("TOTALTESTS", Str "900"); ("TESTS_PER_1M", Str "15");
                 ("POPULATION", Str "60"); ("CONTINENT", Str "Europe")] ].

Definition scraped_us : DataFrame :=
  mkDF ("STATE" :: Normalizer.us_cols)
       [ mk_row [("STATE", Str "Hawaii"); ("TOTALCASES", Str "40");
                 ("TOTALDEATHS", Str "1"); ("TOTALRECOVERED", Str "");
                 ("ACTIVECASES", Str ""); ("TOTCASES_PER_1M", Str "3");
                 ("DEATH_PER_1M", Str "1"); ("TOTALTESTS", Str "900");
                 ("TESTS_PER_1M", Str "15"); ("POPULATION", Str "60")];
         mk_row [("STATE", Str "Texas"); ("TOTALCASES", Str "1000");
                 ("TOTALDEATHS", Str "10"); ("TOTALRECOVERED", Str "600");
                 ("ACTIVECASES", Str "390"); ("TOTCASES_PER_1M", Str "3");
                 ("DEATH_PER_1M", Str "1"); ("TOTALTESTS", Str "9000");
                 ("TESTS_PER_1M", Str "15"); ("POPULATION", Str "290")] ].
End Samples.

(* ===================================================================== *)
(** * Counting the records of a merge; tables for the edge cases *)
(* ===================================================================== *)

Module MergeCount.

(** The number of merged records one left record yields: one per right
    record with its key, and one when there is none. *)
Definition copies (on : string) (r : DataFrame) (lr : row) : nat :=
  max 1 (length (Merge.matching on (lr !!! on) r)).

End MergeCount.

Module MoreSamples.
(** A reader that also knows the spelling of minus infinity. *)
Definition read_signed (s : string) : option spec_float :=
  if String.eqb s "-inf" then Some Float64.neg_inf else Normalizer.read_float s.

Definition overflow_row : row :=
  Samples.mk_row [("COUNTRY", Str "Italy"); ("TOTALCASES", Str "200");
                  ("TOTALDEATHS", Str "-inf")].

Definition scraped_overflow : DataFrame :=
  mkDF ("COUNTRY" :: (Normalizer.global_cols ++ ["CONTINENT"])%list) [overflow_row].
End MoreSamples.

(* ===================================================================== *)
(** * Properties *)
(* ===================================================================== *)

(** ** Text *)

Section TextFacts.
Import Text.

Lemma remove_char_absent c s : contains c (remove_char c s) = false.
Proof.
  induction s as [|a s IH]; simpl; [done|].
  destruct (Ascii.eqb a c) eqn:E; simpl; [done|]. by rewrite E.
Qed.

Lemma contains_lstrip p c s : contains c s = false -> contains c (lstrip p s) = false.
Proof.
  induction s as [|a s IH]; simpl; [done|].
  intros [Ha Hs]%orb_false_iff. destruct (p a); [auto|]. simpl. by rewrite Ha, Hs.
Qed.

Lemma contains_rstrip p c s : contains c s = false -> contains c (rstrip p s) = false.
Proof.
  induction s as [|a s IH]; simpl; [done|].
  intros [Ha Hs]%orb_false_iff. specialize (IH Hs).
  destruct (rstrip p s) eqn:E.
  - destruct (p a); simpl; [done|]. by rewrite Ha.
  - simpl in *. by rewrite Ha, IH.
Qed.

Lemma first_char_lstrip p s a : first_char (lstrip p s) = Some a -> p a = false.
Proof.
  induction s as [|b s IH]; simpl; [done|].
  destruct (p b) eqn:E; [auto|]. simpl. congruence.
Qed.

Lemma last_char_rstrip p s a : last_char (rstrip p s) = Some a -> p a = false.
Proof.
  revert a. induction s as [|b s IH]; simpl; [done|]. intros a.
  destruct (rstrip p s) as [|c t] eqn:E.
  - destruct (p b) eqn:Eb; simpl; [done|]. congruence.
  - simpl. simpl in IH. destruct t; auto.
Qed.

Lemma first_char_rstrip p s a :
  first_char (rstrip p s) = Some a -> first_char s = Some a.
Proof.
  destruct s as [|b s]; simpl; [done|].
  destruct (rstrip p s); [destruct (p b)|]; simpl; congruence.
Qed.

End TextFacts.

(** ** Alias tables *)

Section AliasFacts.
Import Reconciler.

Lemma values_not_keys_separated t : values_not_keys t = true → separated t.
Proof.
  unfold values_not_keys, separated. intros H ab cd Hab Hcd E.
  rewrite forallb_forall in H. apply list_elem_of_In in Hab, Hcd.
  specialize (H _ Hab). rewrite forallb_forall in H. specialize (H _ Hcd).
  apply negb_true_iff in H. apply String.eqb_neq in H. done.
Qed.

Lemma alias_miss t s : s ∉ t.*1 → alias t s = s.
Proof.
  revert s. induction t as [|[a b] t IH]; intros s Hs; [done|].
  unfold alias in *. simpl. unfold replace_name at 2. simpl.
  destruct (String.eqb_spec s a) as [->|Hne].
  - exfalso. apply Hs. simpl. left.
  - apply IH. intros H. apply Hs. simpl. by right.
Qed.

Lemma lookup_alias_miss t s : s ∉ t.*1 → lookup_alias t s = None.
Proof.
  induction t as [|[a b] t IH]; intros Hs; [done|]. simpl.
  destruct (String.eqb_spec s a) as [->|Hne].
  - exfalso. apply Hs. simpl. left.
  - apply IH. intros H. apply Hs. simpl. by right.
Qed.

Lemma lookup_alias_Some t s b : lookup_alias t s = Some b → (s, b) ∈ t.
Proof.
  induction t as [|[a c] t IH]; simpl; [done|].
  destruct (String.eqb_spec s a) as [->|Hne].
  - intros [= ->]. left.
  - intros H. right. auto.
Qed.

Lemma alias_lookup t s : separated t → alias t s = default s (lookup_alias t s).
Proof.
  revert s. induction t as [|[a b] t IH]; intros s Hsep; [done|].
  assert (Hsep' : separated t).
  { intros x y Hx Hy. apply Hsep; by right. }
  change (alias ((a, b) :: t) s) with (alias t (replace_name a b s)).
  simpl. unfold replace_name.
  destruct (String.eqb_spec s a) as [->|Hne]; simpl.
  - apply alias_miss. intros (cd & Hcd1 & Hcd)%list_elem_of_fmap.
    eapply (Hsep (a, b) cd); [left|by right|done].
  - by apply IH.
Qed.

Lemma alias_not_key t s : separated t → alias t s ∉ t.*1.
Proof.
  intros Hsep. rewrite alias_lookup by done.
  destruct (lookup_alias t s) as [b|] eqn:E; simpl.
  - apply lookup_alias_Some in E.
    intros (cd & Hcd1 & Hcd)%list_elem_of_fmap.
    by eapply (Hsep (s, b) cd).
  - intros H. destruct (decide (s ∈ t.*1)) as [Hin|Hout]; [|done].
    clear H. induction t as [|[a c] t IH]; [by apply elem_of_nil in Hin|].
    simpl in E. destruct (String.eqb_spec s a); [done|].
    apply IH; [|done|].
    + intros x y Hx Hy. apply Hsep; by right.
    + simpl in Hin. apply elem_of_cons in Hin as [?|?]; done.
Qed.

Lemma alias_idem t s : separated t → alias t (alias t s) = alias t s.
Proof. intros Hsep. apply alias_miss, alias_not_key, Hsep. Qed.

Lemma alias_image_fixed t s : separated t → s ∈ t.*2 → alias t s = s.
Proof.
  intros Hsep (ab & -> & Hab)%list_elem_of_fmap. apply alias_miss.
  intros (cd & Hcd1 & Hcd)%list_elem_of_fmap. by eapply (Hsep ab cd).
Qed.

Lemma alias_cell_Str t s : alias_cell t (Str s) = Str (alias t s).
Proof.
  revert s. induction t as [|[a b] t IH]; intros s; [done|].
  unfold alias_cell, alias in *. simpl. unfold replace_value at 2, replace_name at 2. simpl.
  destruct (String.eqb_spec s a) as [->|Hne].
  - rewrite bool_decide_eq_true_2 by done. apply IH.
  - rewrite bool_decide_eq_false_2 by congruence. apply IH.
Qed.

Lemma alias_cell_other t c : (∀ s, c ≠ Str s) → alias_cell t c = c.
Proof.
  intros Hc. induction t as [|[a b] t IH]; [done|].
  unfold alias_cell in *. simpl. unfold replace_value at 2.
  rewrite bool_decide_eq_false_2 by apply Hc. apply IH.
Qed.

End AliasFacts.

(** ** Column updates and key reconciliation on frames *)

Section CellMapFacts.

Lemma map_cells_in f cs (r : row) c :
  c ∈ cs → Frame.map_cells f cs r !! c = Some (f (r !!! c)).
Proof.
  induction cs as [|c0 cs IH]; intros Hc; [by apply elem_of_nil in Hc|].
  unfold Frame.map_cells. simpl. destruct (decide (c0 = c)) as [->|Hne].
  - by rewrite lookup_insert_eq.
  - rewrite lookup_insert_ne by done. apply IH.
    apply elem_of_cons in Hc as [?|?]; [congruence|done].
Qed.

Lemma map_cells_out f cs (r : row) c :
  c ∉ cs → Frame.map_cells f cs r !! c = r !! c.
Proof.
  induction cs as [|c0 cs IH]; intros Hc; [done|].
  apply not_elem_of_cons in Hc as [Hne Hc].
  unfold Frame.map_cells. simpl. rewrite lookup_insert_ne by done. by apply IH.
Qed.

Lemma map_cells_total_in f cs (r : row) c :
  c ∈ cs → Frame.map_cells f cs r !!! c = f (r !!! c).
Proof. intros Hc. by rewrite lookup_total_alt, map_cells_in. Qed.

Lemma map_cells_total_out f cs (r : row) c :
  c ∉ cs → Frame.map_cells f cs r !!! c = r !!! c.
Proof. intros Hc. by rewrite !lookup_total_alt, map_cells_out. Qed.

End CellMapFacts.

Section ReconcileFacts.
Import Reconciler.

Lemma map_column_Some key f df :
  key ∈ columns df →
  Frame.map_column key f df
  = Some (mkDF (columns df) ((fun r : row => <[key := f (r !!! key)]> r) <$> rows df)).
Proof. intros H. unfold Frame.map_column. by rewrite bool_decide_eq_true_2. Qed.

Lemma map_column_None key f df :
  key ∉ columns df → Frame.map_column key f df = None.
Proof. intros H. unfold Frame.map_column. by rewrite bool_decide_eq_false_2. Qed.

Lemma keys_map_column key f df df' :
  Frame.map_column key f df = Some df' →
  columns df' = columns df ∧ Frame.keys key df' = f <$> Frame.keys key df.
Proof.
  unfold Frame.map_column. case_bool_decide; [|done]. intros [= <-]. split; [done|].
  unfold Frame.keys. simpl. rewrite <- !list_fmap_compose.
  apply list_fmap_ext. intros i r _. simpl. by rewrite lookup_total_insert_eq.
Qed.

Lemma reconcile_None key tbl : 
  fold_left (fun acc (ab : string * string) =>
               d ← acc; Frame.map_column key (replace_value ab.1 ab.2) d) tbl None = None.
Proof. induction tbl; simpl; auto. Qed.

Lemma reconcile_keys key tbl df :
  key ∈ columns df →
  ∃ df', reconcile key tbl df = Some df' ∧ columns df' = columns df
         ∧ Frame.keys key df' = alias_cell tbl <$> Frame.keys key df.
Proof.
  revert df. induction tbl as [|[a b] tbl IH]; intros df Hk.
  - exists df. split; [done|]. split; [done|].
    unfold alias_cell. simpl. by rewrite list_fmap_id.
  - unfold reconcile. simpl.
    rewrite (map_column_Some key _ df Hk).
    set (df1 := mkDF _ _).
    destruct (IH df1) as (df' & Hr & Hc & Hkeys); [done|].
    exists df'. split; [exact Hr|]. split; [done|].
    rewrite Hkeys. unfold df1, Frame.keys. simpl. rewrite <- !list_fmap_compose.
    apply list_fmap_ext. intros i r _. simpl. rewrite lookup_total_insert_eq. done.
Qed.

Lemma reconcile_missing key a b tbl df :
  key ∉ columns df → reconcile key ((a, b) :: tbl) df = None.
Proof.
  intros Hk. unfold reconcile. simpl. rewrite map_column_None by done.
  apply reconcile_None.
Qed.

Lemma prepare_area_keys area :
  Frame.keys "COUNTRY" <$> prepare_area area
  = if bool_decide ("COUNTRY" ∈ columns area)
    then Some ((fun c => str_strip (alias_cell area_aliases c)) <$> Frame.keys "COUNTRY" area)
    else None.
Proof.
  unfold prepare_area. case_bool_decide as Hk.
  - destruct (reconcile_keys "COUNTRY" area_aliases area Hk) as (a & Hr & Hc & Hkeys).
    rewrite Hr. cbn [mbind option_bind]. unfold strip_key.
    destruct (Frame.map_column "COUNTRY" str_strip a) as [d|] eqn:Hm.
    + apply keys_map_column in Hm as [_ Hd]. cbn [fmap option_fmap option_map].
      f_equal. rewrite Hd, Hkeys. by rewrite <- list_fmap_compose.
    + rewrite map_column_Some in Hm by (by rewrite Hc). done.
  - destruct area_aliases as [|[a b] t] eqn:E; [done|].
    rewrite reconcile_missing by done. done.
Qed.

End ReconcileFacts.

(** ** Left merges *)

Section MergeFacts.
Import Merge.

Lemma suffixed_nil sfx c : suffixed [] sfx c = c.
Proof. unfold suffixed. rewrite bool_decide_eq_false_2; [done|]. apply not_elem_of_nil. Qed.

Lemma filter_none {A} (P : A → Prop) `{∀ x, Decision (P x)} (l : list A) :
  (∀ x, x ∈ l → ¬ P x) → filter P l = [].
Proof.
  induction l as [|x xs IH]; [done|]. intros Hn. rewrite filter_cons.
  destruct (decide (P x)) as [Hp|_].
  - exfalso. apply (Hn x); [left|done].
  - apply IH. intros y Hy. apply Hn. by right.
Qed.

Lemma matching_unique on k r :
  NoDup (Frame.keys on r) → (length (matching on k r) ≤ 1)%nat.
Proof.
  unfold Frame.keys, matching. induction (rows r) as [|x xs IH]; simpl; [lia|].
  rewrite NoDup_cons. intros [Hx Hxs]. rewrite filter_cons.
  destruct (decide (x !!! on = k)) as [E|E]; [|auto].
  simpl. assert (filter (fun rr : row => rr !!! on = k) xs = []) as ->; [|simpl; lia].
  apply filter_none. intros y Hy Ey.
  apply Hx. rewrite E, <- Ey. apply list_elem_of_fmap. eauto.
Qed.

Lemma merge_one_length on l r lr :
  NoDup (Frame.keys on r) → length (merge_one on l r lr) = 1%nat.
Proof.
  intros Hnd. unfold merge_one.
  pose proof (matching_unique on (lr !!! on) r Hnd) as Hlen.
  destruct (matching on (lr !!! on) r) as [|x [|y ys]]; simpl in *; [done|done|lia].
Qed.

Lemma flat_map_length_1 {A B} (f : A → list B) (l : list A) :
  (∀ x, x ∈ l → length (f x) = 1%nat) → length (flat_map f l) = length l.
Proof.
  induction l as [|x xs IH]; simpl; [done|]. intros H.
  rewrite length_app, H, IH; [done| |left]. intros y Hy. apply H. by right.
Qed.

Lemma merge_one_partner on l r lr :
  NoDup (Frame.keys on r) →
  merge_one on l r lr = [merged_row on l r lr (partner on r lr)].
Proof.
  intros Hnd. unfold merge_one, partner.
  pose proof (matching_unique on (lr !!! on) r Hnd) as Hlen.
  destruct (matching on (lr !!! on) r) as [|x [|y ys]]; simpl in *; [done|done|lia].
Qed.

Lemma flat_map_singleton {A B} (f : A → list B) (g : A → B) (l : list A) :
  (∀ x, x ∈ l → f x = [g x]) → flat_map f l = g <$> l.
Proof.
  induction l as [|x xs IH]; simpl; [done|]. intros H.
  rewrite H by left. simpl. f_equal. apply IH. intros y Hy. apply H. by right.
Qed.

Lemma merge_left_unique on l r :
  on ∈ columns l → on ∈ columns r → NoDup (Frame.keys on r) →
  ∃ m, merge_left on l r = Some m
       ∧ rows m = (fun lr => merged_row on l r lr (partner on r lr)) <$> rows l.
Proof.
  intros Hl Hr Hnd. unfold merge_left. rewrite bool_decide_eq_true_2 by done.
  eexists. split; [done|]. simpl. apply flat_map_singleton.
  intros x _. by apply merge_one_partner.
Qed.

Lemma overlap_nil_left on l r c :
  overlap on l r = [] → c ∈ columns l → c ∈ columns r → c = on.
Proof.
  unfold overlap. intros H Hl Hr. destruct (decide (c = on)) as [|Hne]; [done|].
  assert (c ∈ filter (fun c => c ≠ on ∧ c ∈ columns r) (columns l)) as Hin.
  { apply list_elem_of_filter. done. }
  rewrite H in Hin. by apply elem_of_nil in Hin.
Qed.

Lemma merged_row_left on l r lr rr c :
  overlap on l r = [] → c ∈ columns l →
  merged_row on l r lr rr !!! c = lr !!! c.
Proof.
  intros Hov Hc. unfold merged_row. rewrite Hov.
  rewrite lookup_total_alt.
  erewrite elem_of_list_to_map_1'; [done| |].
  - intros y Hy. apply elem_of_app in Hy as [Hy|Hy].
    + unfold left_part in Hy. apply list_elem_of_fmap in Hy as (c' & Heq & Hc').
      rewrite suffixed_nil in Heq. by injection Heq as <- ->.
    + unfold right_part in Hy. apply list_elem_of_fmap in Hy as (c' & Heq & Hc').
      rewrite suffixed_nil in Heq. injection Heq as <- ->.
      unfold right_columns in Hc'. apply list_elem_of_filter in Hc' as [Hne Hr].
      exfalso. apply Hne. by eapply overlap_nil_left.
  - apply elem_of_app. left. unfold left_part. apply list_elem_of_fmap.
    exists c. by rewrite suffixed_nil.
Qed.

Lemma merged_row_right on l r lr rr c :
  overlap on l r = [] → c ∈ columns r → c ≠ on →
  merged_row on l r lr rr !!! c
  = match rr with Some x => right_cell on l r c (x !!! c) | None => null end.
Proof.
  intros Hov Hc Hne. unfold merged_row. rewrite Hov.
  rewrite lookup_total_alt.
  erewrite elem_of_list_to_map_1'; [done| |].
  - intros y Hy. apply elem_of_app in Hy as [Hy|Hy].
    + unfold left_part in Hy. apply list_elem_of_fmap in Hy as (c' & Heq & Hc').
      rewrite suffixed_nil in Heq. injection Heq as <- ->.
      exfalso. apply Hne. by eapply overlap_nil_left.
    + unfold right_part in Hy. apply list_elem_of_fmap in Hy as (c' & Heq & Hc').
      rewrite suffixed_nil in Heq. by injection Heq as <- ->.
  - apply elem_of_app. right. unfold right_part. apply list_elem_of_fmap.
    exists c. rewrite suffixed_nil. split; [done|].
    unfold right_columns. by apply list_elem_of_filter.
Qed.

Lemma merged_row_other on l r lr rr c :
  overlap on l r = [] → c ∉ columns l → c ∉ columns r →
  merged_row on l r lr rr !! c = None.
Proof.
  intros Hov Hl Hr. unfold merged_row. rewrite Hov.
  apply not_elem_of_list_to_map_1. rewrite fmap_app.
  intros [H|H]%elem_of_app.
  - unfold left_part in H. rewrite <- list_fmap_compose in H.
    apply list_elem_of_fmap in H as (c' & Heq & Hc'). simpl in Heq.
    rewrite suffixed_nil in Heq. by subst.
  - unfold right_part in H. rewrite <- list_fmap_compose in H.
    apply list_elem_of_fmap in H as (c' & Heq & Hc'). simpl in Heq.
    rewrite suffixed_nil in Heq. subst. 
    unfold right_columns in Hc'. apply list_elem_of_filter in Hc' as [_ ?]. done.
Qed.

Lemma partner_key on r lr rr : partner on r lr = Some rr → rr !!! on = lr !!! on ∧ rr ∈ rows r.
Proof.
  unfold partner, matching. intros H. apply head_Some_elem_of in H.
  by apply list_elem_of_filter in H.
Qed.

Lemma partner_None on r lr : partner on r lr = None → lr !!! on ∉ Frame.keys on r.
Proof.
  unfold partner, matching, Frame.keys. intros H.
  apply head_None in H. intros (rr & Heq & Hin)%list_elem_of_fmap.
  assert (rr ∈ filter (fun rr : row => rr !!! on = lr !!! on) (rows r)) as Hf.
  { apply list_elem_of_filter. done. }
  rewrite H in Hf. by apply elem_of_nil in Hf.
Qed.

(** The labels of a merged record are the merged column labels. *)
Lemma merged_labels on l r lr rr :
  (left_part (overlap on l r) (columns l) lr
   ++ right_part (overlap on l r) (right_cell on l r) (right_columns on r) rr).*1
  = merged_columns on l r.
Proof.
  unfold merged_columns, left_part, right_part.
  rewrite fmap_app, <- !list_fmap_compose. done.
Qed.

Lemma merged_row_lookup on l r lr rr k v :
  NoDup (merged_columns on l r) →
  (k, v) ∈ left_part (overlap on l r) (columns l) lr
           ++ right_part (overlap on l r) (right_cell on l r) (right_columns on r) rr →
  merged_row on l r lr rr !!! k = v.
Proof.
  intros Hnd Hin. unfold merged_row. rewrite lookup_total_alt.
  erewrite elem_of_list_to_map_1; [done| |exact Hin].
  by rewrite merged_labels.
Qed.

Lemma merged_row_left_label on l r lr rr c :
  NoDup (merged_columns on l r) → c ∈ columns l →
  merged_row on l r lr rr !!! suffixed (overlap on l r) "_x" c = lr !!! c.
Proof.
  intros Hnd Hc. apply merged_row_lookup; [done|].
  apply elem_of_app. left. unfold left_part. apply list_elem_of_fmap. by exists c.
Qed.

Lemma merged_row_right_label on l r lr rr c :
  NoDup (merged_columns on l r) → c ∈ right_columns on r →
  merged_row on l r lr rr !!! suffixed (overlap on l r) "_y" c
  = match rr with Some x => right_cell on l r c (x !!! c) | None => null end.
Proof.
  intros Hnd Hc. apply merged_row_lookup; [done|].
  apply elem_of_app. right. unfold right_part. apply list_elem_of_fmap. by exists c.
Qed.

Lemma suffixed_key on l r sfx : suffixed (overlap on l r) sfx on = on.
Proof.
  unfold suffixed. rewrite bool_decide_eq_false_2; [done|].
  unfold overlap. intros [[Hne _] _]%list_elem_of_filter. done.
Qed.

Lemma merged_row_key on l r lr rr :
  NoDup (merged_columns on l r) → on ∈ columns l →
  merged_row on l r lr rr !!! on = lr !!! on.
Proof.
  intros Hnd Hc. rewrite <- (suffixed_key on l r "_x") at 1.
  by apply merged_row_left_label.
Qed.

(** Where every left record has a partner no right column takes a missing
    value, and the right cells are merged as they are. *)
Lemma unmatched_false on l r :
  (∀ lr, lr ∈ rows l → is_Some (partner on r lr)) → unmatched on l r = false.
Proof.
  intros H. unfold unmatched. apply not_true_is_false. intros Hex.
  apply existsb_exists in Hex as (lr & Hin & Hd).
  apply list_elem_of_In in Hin. destruct (H lr Hin) as [rr Hrr].
  apply bool_decide_eq_true_1 in Hd. unfold partner in Hrr. by rewrite Hd in Hrr.
Qed.

Lemma right_cell_matched on l r c v :
  unmatched on l r = false → right_cell on l r c v = v.
Proof. intros H. unfold right_cell. by rewrite H. Qed.

Lemma right_cell_upcast on l r c v :
  right_cell on l r c v = v ∨ right_cell on l r c v = upcast v.
Proof. unfold right_cell. destruct (_ && _); auto. Qed.

End MergeFacts.

(** ** Cell cleaning *)

Lemma clean_cells_body t :
  body (Cleaning.clean_cells t) = map (map Cleaning.clean_cell) (body t).
Proof.
  unfold Cleaning.clean_cells, Cleaning.applymap, Cleaning.columns_replace,
    Cleaning.replace_regex. simpl.
  rewrite !map_map. apply map_ext. intros r. rewrite !map_map. done.
Qed.

Lemma leading_blank_kept s :
  Text.first_char (Cleaning.clean_cell (String " " s)) = Some " "%char.
Proof.
  unfold Cleaning.clean_cell, Text.strip_plus, Text.strip_chars. simpl.
  destruct (Text.rstrip Text.is_plus _); done.
Qed.

(** Claim C6, as amended.  Cell cleaning (In[6], In[29]) removes, in this
    order, every newline, every comma, and then the "+" characters at both
    ends of each cell; the result holds no newline and no comma and neither
    starts nor ends with "+".  Surrounding white space is not stripped: a
    leading blank survives. *)
Theorem clean_cells_order (t : RawTable) (s : string) :
  body (Cleaning.clean_cells t) = map (map Cleaning.clean_cell) (body t)
  ∧ headers (Cleaning.clean_cells t) = map (Text.remove_char Text.newline) (headers t)
  ∧ Cleaning.clean_cell s
    = Text.strip_plus (Text.remove_char Text.comma (Text.remove_char Text.newline s))
  ∧ Text.contains Text.newline (Cleaning.clean_cell s) = false
  ∧ Text.contains Text.comma (Cleaning.clean_cell s) = false
  ∧ Text.first_char (Cleaning.clean_cell s) ≠ Some Text.plus
  ∧ Text.last_char (Cleaning.clean_cell s) ≠ Some Text.plus
  ∧ Text.first_char (Cleaning.clean_cell (String " " s)) = Some " "%char.
Proof.
  split; [apply clean_cells_body|]. split; [done|]. split; [done|].
  unfold Cleaning.clean_cell, Text.strip_plus, Text.strip_chars.
  split; [|split; [|split; [|split]]].
  - apply contains_rstrip, contains_lstrip.
    induction s as [|a s IH]; simpl; [done|].
    destruct (Ascii.eqb a Text.newline) eqn:E; [done|].
    simpl. destruct (Ascii.eqb a Text.comma); [done|]. simpl. by rewrite E.
  - apply contains_rstrip, contains_lstrip, remove_char_absent.
  - intros H. apply first_char_rstrip, first_char_lstrip in H. done.
  - intros H. apply last_char_rstrip in H. done.
  - apply leading_blank_kept.
Qed.

(** Claim C6 as stated fails: " 12 " keeps its blanks, and "+1,234+" loses
    its trailing "+" too. *)
Lemma clean_cell_not_spec_order :
  Cleaning.clean_cell " 12 " = " 12 "%string
  ∧ Cleaning.spec_clean_cell " 12 " = "12"%string
  ∧ Cleaning.clean_cell "+1,234+" = "1234"%string
  ∧ Cleaning.spec_clean_cell "+1,234+" = "1234+"%string.
Proof. repeat split; vm_compute; reflexivity. Qed.

(** ** Key reconciler *)

Section ReconcilerClaims.
Import Reconciler.

Lemma area_aliases_separated : separated area_aliases.
Proof. apply values_not_keys_separated. vm_compute. reflexivity. Qed.

Lemma global_aliases_separated : separated global_aliases.
Proof. apply values_not_keys_separated. vm_compute. reflexivity. Qed.

(** Claim C3, as amended.  The replacement statements of In[10] and In[18]
    are an exact-match dictionary lookup on the name as it arrives (no case
    folding, no stripping), a name without an entry passing through
    unchanged; white space is stripped afterwards (lines 579-580), before the
    merge with [country_area], and not at all before the merge with
    [country_gdp]. *)
Theorem reconciler_exact_lookup_then_strip (s : string) (area : DataFrame) :
  alias area_aliases s = default s (lookup_alias area_aliases s)
  ∧ alias global_aliases s = default s (lookup_alias global_aliases s)
  ∧ area_key s = Text.strip (default s (lookup_alias area_aliases s))
  ∧ global_key_gdp s = default s (lookup_alias global_aliases s)
  ∧ global_key_area s = Text.strip (default s (lookup_alias global_aliases s))
  ∧ Frame.keys "COUNTRY" <$> prepare_area area
    = (if bool_decide ("COUNTRY" ∈ columns area)
       then Some ((fun c => str_strip (alias_cell area_aliases c))
                    <$> Frame.keys "COUNTRY" area)
       else None)
  ∧ alias_cell area_aliases (Str s) = Str (alias area_aliases s).
Proof.
  pose proof (alias_lookup area_aliases s area_aliases_separated) as Ha.
  pose proof (alias_lookup global_aliases s global_aliases_separated) as Hg.
  unfold area_key, global_key_gdp, global_key_area.
  rewrite Ha, Hg. repeat split.
  - apply prepare_area_keys.
  - rewrite alias_cell_Str. by rewrite Ha.
Qed.

(** Claim C3 as stated fails: " South Korea" is not stripped before the
    lookup, so it misses its alias and ends as "South Korea", where stripping
    first would give "S. Korea". *)
Lemma strip_after_lookup_counterexample :
  area_key " South Korea" = "South Korea"%string
  ∧ spec_reconcile area_aliases " South Korea" = "S. Korea"%string.
Proof. split; vm_compute; reflexivity. Qed.

(** Claim C4.  For both alias tables of the notebook, a key that is a
    replacement value or that has no entry is returned unchanged, and applying
    the aliases twice to any key, or to any list of keys, gives what applying
    them once gives. *)
Theorem alias_idempotent_on_canonical (tbl : list (string * string)) (s : string) :
  tbl = global_aliases ∨ tbl = area_aliases →
  s ∈ tbl.*2 ∨ s ∉ tbl.*1 →
  alias tbl s = s
  ∧ (∀ x, alias tbl (alias tbl x) = alias tbl x)
  ∧ (∀ l : list string, alias tbl <$> (alias tbl <$> l) = alias tbl <$> l).
Proof.
  intros Ht Hs.
  assert (separated tbl) as Hsep.
  { destruct Ht as [-> | ->];
      [apply global_aliases_separated | apply area_aliases_separated]. }
  split; [|split].
  - destruct Hs as [Hs|Hs]; [by apply alias_image_fixed | by apply alias_miss].
  - intros x. by apply alias_idem.
  - intros l. rewrite <- list_fmap_compose. apply list_fmap_ext.
    intros i x _. simpl. by apply alias_idem.
Qed.

(** The hypotheses of [alias_idempotent_on_canonical] hold for the canonical
    key "United States". *)
Lemma alias_idempotent_witness :
  alias global_aliases "United States" = "United States"%string
  ∧ (∀ x, alias global_aliases (alias global_aliases x) = alias global_aliases x)
  ∧ (∀ l : list string,
       alias global_aliases <$> (alias global_aliases <$> l)
       = alias global_aliases <$> l).
Proof.
  apply (alias_idempotent_on_canonical global_aliases "United States").
  - left. reflexivity.
  - left. vm_compute. constructor.
Defined.

End ReconcilerClaims.

(** ** Left merge: cardinality *)

Section MergeClaims.
Import Merge.

(** Claim C2, as amended.  When the key is a column of both tables and no two
    auxiliary records have the same key, the left merge succeeds and has
    exactly one record per base record, in the base order: the record merged
    from the base record and the one auxiliary record with its key, or from
    the base record alone when no auxiliary record has its key; an auxiliary
    record whose key no base record has contributes nothing.  Cells are read
    by label: where the merged labels are pairwise distinct, the merged
    records have the base keys (so distinct base keys stay distinct) and the
    base cells (under the label with [_x] for a column both tables have), and
    under the auxiliary's labels (with [_y] for such a column) the cells of
    the auxiliary record, which are missing when there is none; pandas turns
    an int64 auxiliary column into float64 when some base record is
    unmatched. *)
Theorem merge_left_keeps_base_records (on : string) (l r : DataFrame) :
  on ∈ columns l → on ∈ columns r → NoDup (Frame.keys on r) →
  ∃ m, merge_left on l r = Some m
     ∧ columns m = merged_columns on l r
     ∧ length (rows m) = length (rows l)
     ∧ Forall2 (fun lr mr : row =>
          mr = merged_row on l r lr (partner on r lr)
          ∧ match partner on r lr with
            | Some rr => (rr ∈ rows r) ∧ (rr !!! on = lr !!! on)
            | None => lr !!! on ∉ Frame.keys on r
            end)
         (rows l) (rows m)
     ∧ (NoDup (columns m) →
        Frame.keys on m = Frame.keys on l
        ∧ (NoDup (Frame.keys on l) → NoDup (Frame.keys on m))
        ∧ Forall2 (fun lr mr : row =>
             (∀ c, c ∈ columns l →
                   mr !!! suffixed (overlap on l r) "_x" c = lr !!! c)
             ∧ (∀ c, c ∈ columns r → c ≠ on →
                   mr !!! suffixed (overlap on l r) "_y" c
                   = match partner on r lr with
                     | Some rr => right_cell on l r c (rr !!! c)
                     | None => null
                     end))
            (rows l) (rows m))
     ∧ (∀ c v, right_cell on l r c v
               = if unmatched on l r && negb (object_column c r)
                 then upcast v else v).
Proof.
  intros Hl Hr Hnd.
  destruct (merge_left_unique on l r Hl Hr Hnd) as (m & Hm & Hrows).
  exists m. split; [done|].
  assert (columns m = merged_columns on l r) as Hcols.
  { unfold merge_left in Hm. rewrite bool_decide_eq_true_2 in Hm by done.
    by injection Hm as <-. }
  split; [done|]. split; [by rewrite Hrows, length_fmap|].
  split; [|split; [|done]].
  - rewrite Hrows. apply Forall2_fmap_r, Forall_Forall2_diag, Forall_forall.
    intros lr _. split; [done|].
    destruct (partner on r lr) as [rr|] eqn:Hp.
    + apply partner_key in Hp as [Hk Hin]. done.
    + by apply partner_None.
  - rewrite Hcols. intros Hlab.
    assert (Frame.keys on m = Frame.keys on l) as Hkeys.
    { unfold Frame.keys. rewrite Hrows, <- list_fmap_compose.
      apply list_fmap_ext. intros i lr _. simpl. by apply merged_row_key. }
    split; [done|]. split; [by rewrite Hkeys|].
    rewrite Hrows. apply Forall2_fmap_r, Forall_Forall2_diag, Forall_forall.
    intros lr _. split.
    + intros c Hc. by apply merged_row_left_label.
    + intros c Hc Hne. apply merged_row_right_label; [done|].
      unfold right_columns. by apply list_elem_of_filter.
Qed.

(** Claim C2 as stated fails: one base record and two auxiliary records with
    its key merge into two records. *)
Lemma merge_left_duplicate_aux_key :
  (fun m => length (rows m)) <$> merge_left "COUNTRY" Samples.base1 Samples.gdp_dup
  = Some 2%nat
  ∧ length (rows Samples.base1) = 1%nat.
Proof. split; vm_compute; reflexivity. Qed.

(** The hypotheses of [merge_left_keeps_base_records] hold on the end-to-end
    scenario of the specification: two base records, one of them without a
    GDP record. *)
Lemma merge_left_witness :
  ∃ m, merge_left "COUNTRY" Samples.base2 Samples.gdp2 = Some m
     ∧ columns m = merged_columns "COUNTRY" Samples.base2 Samples.gdp2
     ∧ length (rows m) = length (rows Samples.base2)
     ∧ Forall2 (fun lr mr : row =>
          mr = merged_row "COUNTRY" Samples.base2 Samples.gdp2 lr
                 (partner "COUNTRY" Samples.gdp2 lr)
          ∧ match partner "COUNTRY" Samples.gdp2 lr with
            | Some rr => (rr ∈ rows Samples.gdp2) ∧ (rr !!! "COUNTRY" = lr !!! "COUNTRY")
            | None => lr !!! "COUNTRY" ∉ Frame.keys "COUNTRY" Samples.gdp2
            end)
         (rows Samples.base2) (rows m)
     ∧ (NoDup (columns m) →
        Frame.keys "COUNTRY" m = Frame.keys "COUNTRY" Samples.base2
        ∧ (NoDup (Frame.keys "COUNTRY" Samples.base2) → NoDup (Frame.keys "COUNTRY" m))
        ∧ Forall2 (fun lr mr : row =>
             (∀ c, c ∈ columns Samples.base2 →
                   mr !!! suffixed (overlap "COUNTRY" Samples.base2 Samples.gdp2) "_x" c
                   = lr !!! c)
             ∧ (∀ c, c ∈ columns Samples.gdp2 → c ≠ "COUNTRY"%string →
                   mr !!! suffixed (overlap "COUNTRY" Samples.base2 Samples.gdp2) "_y" c
                   = match partner "COUNTRY" Samples.gdp2 lr with
                     | Some rr => right_cell "COUNTRY" Samples.base2 Samples.gdp2 c (rr !!! c)
                     | None => null
                     end))
            (rows Samples.base2) (rows m))
     ∧ (∀ c v, right_cell "COUNTRY" Samples.base2 Samples.gdp2 c v
               = if unmatched "COUNTRY" Samples.base2 Samples.gdp2
                    && negb (object_column c Samples.gdp2)
                 then upcast v else v).
Proof.
  apply (merge_left_keeps_base_records "COUNTRY" Samples.base2 Samples.gdp2).
  - vm_compute. constructor.
  - vm_compute. constructor.
  - apply (bool_decide_unpack _). vm_compute. exact I.
Defined.

End MergeClaims.

(** ** Filling the missing GDP values *)

Section NullRepairClaims.
Import Merge NullRepair Samples.

Lemma select_Some cs df :
  Forall (fun c => c ∈ columns df) cs →
  Frame.select cs df
  = Some (mkDF cs ((fun r : row => (list_to_map ((fun c => (c, r !!! c)) <$> cs) : row)) <$> rows df)).
Proof. intros H. unfold Frame.select. by rewrite bool_decide_eq_true_2. Qed.

Lemma select_row_lookup (cs : list string) (r : row) c :
  c ∈ cs → (list_to_map ((fun c => (c, r !!! c)) <$> cs) : row) !!! c = r !!! c.
Proof.
  intros Hc. rewrite lookup_total_alt.
  erewrite elem_of_list_to_map_1'; [done| |].
  - intros y (c' & Heq & _)%list_elem_of_fmap. by injection Heq as <- ->.
  - apply list_elem_of_fmap. by exists c.
Qed.

Lemma drop_column_Some c df :
  c ∈ columns df →
  Frame.drop_column c df
  = Some (mkDF (filter (fun d => d ≠ c) (columns df)) ((fun r : row => delete c r) <$> rows df)).
Proof. intros H. unfold Frame.drop_column. by rewrite bool_decide_eq_true_2. Qed.

Lemma partner_at on (r : DataFrame) (lr u : row) i :
  NoDup (Frame.keys on r) → rows r !! i = Some u → u !!! on = lr !!! on →
  partner on r lr = Some u.
Proof.
  intros Hnd Hi Hk. unfold partner.
  pose proof (matching_unique on (lr !!! on) r Hnd) as Hlen.
  assert (u ∈ matching on (lr !!! on) r) as Hin.
  { unfold matching. apply list_elem_of_filter. split; [done|].
    by eapply list_elem_of_lookup_2. }
  destruct (matching on (lr !!! on) r) as [|x [|y ys]]; simpl in *.
  - by apply elem_of_nil in Hin.
  - apply list_elem_of_singleton in Hin. by subst.
  - lia.
Qed.

Lemma Forall2_fmap_eq {A B C} (f : A → C) (g : B → C) l k :
  Forall2 (fun x y => f x = g y) l k → f <$> l = g <$> k.
Proof. induction 1; simpl; [done|]. by f_equal. Qed.

Lemma partner_elem on (r : DataFrame) (lr u : row) :
  NoDup (Frame.keys on r) → u ∈ rows r → u !!! on = lr !!! on →
  partner on r lr = Some u.
Proof.
  intros Hnd Hin Hk. apply list_elem_of_lookup in Hin as [i Hi].
  by eapply partner_at.
Qed.

(** Claim C8, as amended.  The export holds the (COUNTRY, GDP_PER_CAPITA)
    cells of every record.  When the replacement table has those two columns,
    no key twice, and for every exported record a record of the same key that
    keeps the exported value where there was one and holds a value where
    there was none, dropping the old column and merging the replacement
    gives the records of the table in their order, with no GDP cell missing,
    every GDP cell that was present kept, and every other cell kept. *)
Theorem remerge_fills_missing_gdp (df upd e : DataFrame) :
  gdp_entry df = Some e →
  columns upd = ["COUNTRY"; "GDP_PER_CAPITA"]%string →
  answers e upd →
  ∃ df', remerge upd df = Some df'
    ∧ Forall2 (fun r r' : row =>
         (∀ c, c ∈ columns df → c ≠ "GDP_PER_CAPITA"%string → r' !!! c = r !!! c)
         ∧ isna (r' !!! "GDP_PER_CAPITA") = false
         ∧ (isna (r !!! "GDP_PER_CAPITA") = false →
            r' !!! "GDP_PER_CAPITA" = r !!! "GDP_PER_CAPITA"))
       (rows df) (rows df').
Proof.
  intros He Hcols [Hndu Hans].
  assert ("COUNTRY" ∈ columns df ∧ "GDP_PER_CAPITA" ∈ columns df) as [Hc Hg].
  { unfold gdp_entry, Frame.select in He. case_bool_decide as Hsel; [|done].
    apply Forall_cons in Hsel as [H1 Hsel]. by apply Forall_cons in Hsel as [H2 _]. }
  unfold gdp_entry in He. rewrite select_Some in He.
  2:{ repeat constructor; done. }
  injection He as <-. cbn [rows] in Hans.
  (* every record of the table has its correcting record in the update *)
  assert (∀ r : row, r ∈ rows df →
            ∃ u : row, partner "COUNTRY" upd (delete "GDP_PER_CAPITA" r) = Some u
                 ∧ isna (u !!! "GDP_PER_CAPITA") = false
                 ∧ (isna (r !!! "GDP_PER_CAPITA") = false →
                    u !!! "GDP_PER_CAPITA" = r !!! "GDP_PER_CAPITA")) as Hru.
  { intros r Hr. rewrite Forall_fmap, Forall_forall in Hans.
    destruct (Hans r Hr) as (u & Hu & Hcor). unfold corrects in Hcor.
    cbv beta in Hcor. destruct Hcor as (H1 & H2 & H3).
    rewrite lookup_total_insert_eq in H1.
    rewrite !(lookup_total_insert_ne _ "COUNTRY" "GDP_PER_CAPITA") in H3 by done.
    rewrite !lookup_total_insert_eq in H3.
    exists u. split; [|done]. apply partner_elem; [done|done|].
    by rewrite lookup_total_delete_ne. }
  unfold remerge. rewrite drop_column_Some by done. cbn [mbind option_bind].
  set (df1 := mkDF _ _).
  assert ("COUNTRY" ∈ columns df1) as Hc1.
  { unfold df1. simpl. apply list_elem_of_filter. split; [done|done]. }
  assert ("COUNTRY" ∈ columns upd) as Hcu by (rewrite Hcols; constructor).
  assert (overlap "COUNTRY" df1 upd = []) as Hov.
  { unfold overlap. apply filter_none. intros c Hin [Hne Hu].
    unfold df1 in Hin. simpl in Hin. apply list_elem_of_filter in Hin as [Hng _].
    rewrite Hcols in Hu. apply elem_of_cons in Hu as [->|Hu]; [done|].
    apply list_elem_of_singleton in Hu. done. }
  assert (unmatched "COUNTRY" df1 upd = false) as Hall.
  { apply unmatched_false. intros lr Hlr. unfold df1 in Hlr. cbn [rows] in Hlr.
    apply list_elem_of_fmap in Hlr as (r & -> & Hr).
    destruct (Hru r Hr) as (u & -> & _). by eexists. }
  destruct (merge_left_unique "COUNTRY" df1 upd Hc1 Hcu Hndu) as (m & Hm & Hrows).
  exists m. split; [done|]. rewrite Hrows. unfold df1 at 2. simpl.
  rewrite <- list_fmap_compose. apply Forall2_fmap_r.
  apply Forall_Forall2_diag, Forall_forall. intros r Hr.
  destruct (Hru r Hr) as (u & Hu & Hna & Hkeep). simpl. rewrite Hu.
  assert (∀ c, c ∈ columns df → c ≠ "GDP_PER_CAPITA"%string →
            merged_row "COUNTRY" df1 upd (delete "GDP_PER_CAPITA" r) (Some u) !!! c
            = r !!! c) as Hleft.
  { intros c Hin Hne. rewrite merged_row_left; [|done|].
    - by rewrite lookup_total_delete_ne.
    - unfold df1. simpl. by apply list_elem_of_filter. }
  assert (merged_row "COUNTRY" df1 upd (delete "GDP_PER_CAPITA" r) (Some u)
            !!! "GDP_PER_CAPITA" = u !!! "GDP_PER_CAPITA") as Hright.
  { rewrite merged_row_right; [|done| |done].
    - by apply right_cell_matched.
    - rewrite Hcols. repeat constructor. }
  split; [done|]. rewrite Hright. split; [done|]. done.
Qed.

(** Claim C8 as stated fails.  A replacement table for the keys of the
    missing cells only (which corrects every record of the report of In[21])
    turns the GDP cell that was present into a missing one; and a replacement
    in which a key occurs twice yields three records from two. *)
Lemma remerge_counterexample :
  (∃ report,
      Frame.select ["COUNTRY"; "GDP_PER_CAPITA"]%string (Frame.rows_with_na gdp_table)
      = Some report
      ∧ Forall2 corrects (rows report) (rows gdp_fixed_nulls_only))
  ∧ Frame.column "GDP_PER_CAPITA" gdp_table = Some [flt 1; null]
  ∧ (remerge gdp_fixed_nulls_only gdp_table ≫= Frame.column "GDP_PER_CAPITA")
    = Some [null; flt 5]
  ∧ Forall (fun er : row => ∃ u, u ∈ rows gdp_fixed_twice ∧ corrects er u)
           (rows gdp_export)
  ∧ gdp_entry gdp_table = Some gdp_export
  ∧ length (rows gdp_table) = 2%nat
  ∧ (fun d => length (rows d)) <$> remerge gdp_fixed_twice gdp_table = Some 3%nat.
Proof.
  split; [|split; [|split; [|split; [|split; [|split]]]]].
  - eexists. split; [vm_compute; reflexivity|].
    repeat constructor; vm_compute; try reflexivity; intros; discriminate.
  - vm_compute. reflexivity.
  - vm_compute. reflexivity.
  - constructor; [|constructor; [|constructor]].
    + eexists. split; [apply list_elem_of_here|].
      repeat split; vm_compute; reflexivity.
    + eexists. split; [apply list_elem_of_further, list_elem_of_here|].
      repeat split; vm_compute; try reflexivity; intros; discriminate.
  - vm_compute. reflexivity.
  - reflexivity.
  - vm_compute. reflexivity.
Qed.

(** The hypotheses of [remerge_fills_missing_gdp] hold on a two-record
    table and a replacement that lists the records in another order. *)
Lemma remerge_witness :
  ∃ df', remerge gdp_fixed gdp_table = Some df'
    ∧ Forall2 (fun r r' : row =>
         (∀ c, c ∈ columns gdp_table → c ≠ "GDP_PER_CAPITA"%string → r' !!! c = r !!! c)
         ∧ isna (r' !!! "GDP_PER_CAPITA") = false
         ∧ (isna (r !!! "GDP_PER_CAPITA") = false →
            r' !!! "GDP_PER_CAPITA" = r !!! "GDP_PER_CAPITA"))
       (rows gdp_table) (rows df').
Proof.
  apply (remerge_fills_missing_gdp gdp_table gdp_fixed gdp_export).
  - vm_compute. reflexivity.
  - reflexivity.
  - split; [apply (bool_decide_unpack _); vm_compute; exact I|].
    constructor; [|constructor; [|constructor]].
    + eexists. split; [apply list_elem_of_further, list_elem_of_here|].
      repeat split; vm_compute; reflexivity.
    + eexists. split; [apply list_elem_of_here|].
      repeat split; vm_compute; try reflexivity; intros; discriminate.
Defined.

End NullRepairClaims.

(** ** Dropping the vessels *)

Section ExclusionFacts.
Import Exclusion Pipeline Indexed.

Lemma filter_fmap_comm {A B} (f : A → B) (P : B → Prop) `{∀ y, Decision (P y)}
  (l : list A) :
  filter P (f <$> l) = f <$> filter (fun x => P (f x)) l.
Proof.
  induction l as [|x xs IH]; [done|]. rewrite fmap_cons, !filter_cons.
  destruct (decide (P (f x))); rewrite IH; done.
Qed.

Lemma reindexed_lookup key (r : row) c : reindexed key r !!! c = r !!! c.
Proof.
  unfold reindexed. destruct (decide (key = c)) as [->|Hne].
  - by rewrite lookup_total_insert_eq.
  - by rewrite lookup_total_insert_ne, lookup_total_delete_ne.
Qed.

Lemma drop_vessels_eq df :
  drop_vessels df
  = if bool_decide ("COUNTRY" ∈ columns df
                    ∧ Forall (fun v => v ∈ Frame.keys "COUNTRY" df) vessels)
    then Some (mkDF ("COUNTRY" :: filter (fun c => c ≠ "COUNTRY"%string) (columns df))
                    (reindexed "COUNTRY"
                       <$> filter (fun r : row => r !!! "COUNTRY" ∉ vessels) (rows df)))
    else None.
Proof.
  unfold drop_vessels, Indexed.set_index.
  destruct (decide ("COUNTRY" ∈ columns df)) as [Hc|Hc].
  2:{ rewrite bool_decide_eq_false_2 by done.
      rewrite bool_decide_eq_false_2; [done|]. by intros [? _]. }
  rewrite bool_decide_eq_true_2 by done. cbn [mbind option_bind].
  unfold Indexed.drop, Indexed.labels. cbn [irows index_name icolumns].
  rewrite <- list_fmap_compose.
  change (fst ∘ (fun r : row => (r !!! "COUNTRY", delete "COUNTRY" r)))
    with (fun r : row => r !!! "COUNTRY").
  change ((fun r : row => r !!! "COUNTRY") <$> rows df) with (Frame.keys "COUNTRY" df).
  destruct (decide (Forall (fun v => v ∈ Frame.keys "COUNTRY" df) vessels)) as [Hv|Hv].
  - rewrite !bool_decide_eq_true_2 by done. cbn [mbind option_bind].
    unfold Indexed.reset_index. cbn [irows index_name icolumns]. f_equal. f_equal.
    rewrite (filter_fmap_comm _ (fun ir : cell * row => ir.1 ∉ vessels)).
    rewrite <- list_fmap_compose. done.
  - rewrite bool_decide_eq_false_2 by done.
    rewrite bool_decide_eq_false_2; [done|]. by intros [_ ?].
Qed.

End ExclusionFacts.

(** ** The TOTALCASES column through the merges *)

Section MergeCasesFacts.
Import Merge.

Lemma last_char_app s t :
  t ≠ EmptyString → Text.last_char (String.app s t) = Text.last_char t.
Proof.
  intros Ht. induction s as [|a s IH]; [done|]. simpl.
  destruct (String.app s t) eqn:E; [|done].
  destruct s; simpl in E; [done|discriminate].
Qed.

Lemma totalcases_not_suffixed ov sfx c :
  sfx = "_x"%string ∨ sfx = "_y"%string →
  suffixed ov sfx c = "TOTALCASES"%string → c = "TOTALCASES"%string ∧ c ∉ ov.
Proof.
  intros Hs. unfold suffixed. case_bool_decide as Hov; [|done].
  intros E. apply (f_equal Text.last_char) in E.
  rewrite last_char_app in E by (destruct Hs as [-> | ->]; done).
  destruct Hs as [-> | ->]; discriminate.
Qed.

Lemma overlap_subset on l r c : c ∈ overlap on l r → c ∈ columns r ∧ c ∈ columns l.
Proof. unfold overlap. intros [[_ ?] ?]%list_elem_of_filter. done. Qed.

Lemma merged_row_totalcases on l r lr rr :
  "TOTALCASES" ∈ columns l → "TOTALCASES" ∉ columns r →
  merged_row on l r lr rr !!! "TOTALCASES" = lr !!! "TOTALCASES".
Proof.
  intros Hl Hr. unfold merged_row. rewrite lookup_total_alt.
  assert ("TOTALCASES" ∉ overlap on l r) as Hov.
  { intros H. by apply overlap_subset in H as [? _]. }
  erewrite elem_of_list_to_map_1'; [done| |].
  - intros y Hy. apply elem_of_app in Hy as [Hy|Hy].
    + unfold left_part in Hy. apply list_elem_of_fmap in Hy as (c' & Heq & Hc').
      injection Heq as Hk ->. symmetry in Hk.
      apply totalcases_not_suffixed in Hk as [-> _]; [done|by left].
    + unfold right_part in Hy. apply list_elem_of_fmap in Hy as (c' & Heq & Hc').
      injection Heq as Hk ->. symmetry in Hk.
      apply totalcases_not_suffixed in Hk as [-> _]; [|by right].
      unfold right_columns in Hc'. by apply list_elem_of_filter in Hc' as [_ ?].
  - apply elem_of_app. left. unfold left_part. apply list_elem_of_fmap.
    exists "TOTALCASES"%string. split; [|done]. unfold suffixed.
    by rewrite bool_decide_eq_false_2.
Qed.

Lemma merge_left_columns_totalcases on l r m :
  merge_left on l r = Some m →
  "TOTALCASES" ∈ columns l → "TOTALCASES" ∉ columns r → "TOTALCASES" ∈ columns m.
Proof.
  unfold merge_left. case_bool_decide; [|done]. intros [= <-] Hl Hr. simpl.
  apply elem_of_app. left. apply list_elem_of_fmap. exists "TOTALCASES"%string.
  split; [|done]. unfold suffixed. rewrite bool_decide_eq_false_2; [done|].
  intros H'. by apply overlap_subset in H' as [? _].
Qed.

Lemma merge_one_totalcases on l r lr mr :
  "TOTALCASES" ∈ columns l → "TOTALCASES" ∉ columns r →
  mr ∈ merge_one on l r lr → mr !!! "TOTALCASES" = lr !!! "TOTALCASES".
Proof.
  intros Hl Hr. unfold merge_one.
  destruct (matching on (lr !!! on) r) as [|x xs].
  - intros ->%list_elem_of_singleton. by apply merged_row_totalcases.
  - intros (rr & -> & _)%list_elem_of_fmap. by apply merged_row_totalcases.
Qed.

End MergeCasesFacts.

(** ** Descending order and the stages that keep it *)

Section OrderFacts.
Import SortValues Pipeline Samples.

Section Ordered.
Variable c : string.

Local Abbreviation int_key := (SortValues.int_key c).

Lemma ge_on_same_key (x y x' y' : row) :
  x' !!! c = x !!! c → y' !!! c = y !!! c → ge_on c x y → ge_on c x' y'.
Proof. unfold ge_on, int_of. by intros -> ->. Qed.

Lemma same_key_sorted (k : cell) (l : list row) :
  (∀ r, r ∈ l → r !!! c = k) → StronglySorted (ge_on c) l.
Proof.
  induction l as [|x xs IH]; intros H; constructor.
  - apply IH. intros r Hr. apply H. by right.
  - apply Forall_forall. intros y Hy. unfold ge_on, int_of.
    rewrite (H x) by left. rewrite (H y); [lia|]. by right.
Qed.

Lemma ordered_flat_map (g : row → list row) (l : list row) :
  (∀ r r', r ∈ l → r' ∈ g r → r' !!! c = r !!! c) →
  Forall int_key l → StronglySorted (ge_on c) l →
  Forall int_key (flat_map g l) ∧ StronglySorted (ge_on c) (flat_map g l).
Proof.
  intros Hg Hint Hs. split.
  - apply Forall_forall. intros r' Hr'. apply list_elem_of_In, in_flat_map in Hr'.
    destruct Hr' as (r & Hr & Hin). apply list_elem_of_In in Hr, Hin.
    unfold int_key. rewrite (Hg r r') by done.
    rewrite Forall_forall in Hint. by apply Hint.
  - clear Hint. induction Hs as [|x xs Hs IH Hx]; simpl; [constructor|].
    apply StronglySorted_app_2.
    + intros y z Hy Hz. apply list_elem_of_In, in_flat_map in Hz.
      destruct Hz as (x' & Hx' & Hz). apply list_elem_of_In in Hx', Hz.
      rewrite Forall_forall in Hx.
      apply (ge_on_same_key x x'); [apply Hg; [left|done] | apply Hg; [by right|done] |].
      by apply Hx.
    + apply (same_key_sorted (x !!! c)). intros r Hr. apply Hg; [left|done].
    + apply IH. intros r r' Hr. apply Hg. by right.
Qed.

Lemma ordered_fmap (f : row → row) (l : list row) :
  (∀ r, r ∈ l → f r !!! c = r !!! c) →
  Forall int_key l → StronglySorted (ge_on c) l →
  Forall int_key (f <$> l) ∧ StronglySorted (ge_on c) (f <$> l).
Proof.
  intros Hf Hint Hs.
  assert (f <$> l = flat_map (fun r => [f r]) l) as ->.
  { clear. induction l; simpl; [done|]. by f_equal. }
  apply ordered_flat_map; [|done|done].
  intros r r' Hr ->%list_elem_of_singleton. by apply Hf.
Qed.

Lemma ordered_filter (P : row → Prop) `{∀ r, Decision (P r)} (l : list row) :
  Forall int_key l → StronglySorted (ge_on c) l →
  Forall int_key (filter P l) ∧ StronglySorted (ge_on c) (filter P l).
Proof.
  intros Hint Hs.
  assert (filter P l = flat_map (fun r => if decide (P r) then [r] else []) l) as ->.
  { clear. induction l as [|x xs IH]; [done|]. rewrite filter_cons. simpl.
    destruct (decide (P x)); rewrite IH; done. }
  apply ordered_flat_map; [|done|done].
  intros r r' Hr Hin. destruct (decide (P r)).
  - by apply list_elem_of_singleton in Hin as ->.
  - by apply elem_of_nil in Hin.
Qed.

Lemma ordered_Forall2 (l k : list row) :
  Forall2 (fun r r' : row => int_key r → r' !!! c = r !!! c) l k →
  Forall int_key l → StronglySorted (ge_on c) l →
  Forall int_key k ∧ StronglySorted (ge_on c) k.
Proof.
  intros HF. induction HF as [|x y xs ys Hxy HF IH]; [done|].
  intros Hint Hs. apply Forall_cons in Hint as [Hx Hint].
  apply StronglySorted_inv in Hs as [Hs Hall].
  destruct (IH Hint Hs) as [IH1 IH2]. specialize (Hxy Hx). split.
  - constructor; [|done]. unfold int_key. by rewrite Hxy.
  - constructor; [done|]. apply Forall_forall. intros z Hz.
    apply list_elem_of_lookup in Hz as [i Hi].
    destruct (Forall2_lookup_r _ _ _ _ _ HF Hi) as (w & Hw & Hwz).
    rewrite Forall_forall in Hall, Hint.
    assert (w ∈ xs) as Hin by (by eapply list_elem_of_lookup_2).
    apply (ge_on_same_key x w); [done|by apply Hwz, Hint|].
    by apply Hall.
Qed.
End Ordered.

#[global] Instance ge_on_trans c : Transitive (ge_on c).
Proof. unfold ge_on. intros x y z. lia. Qed.

#[global] Instance ge_on_total c : Total (ge_on c).
Proof. unfold ge_on. intros x y. lia. Qed.

Lemma sort_values_desc_spec c df d :
  sort_values_desc c df = Some d →
  columns d = columns df
  ∧ rows d ≡ₚ rows df
  ∧ Forall (int_key c) (rows d)
  ∧ StronglySorted (ge_on c) (rows d).
Proof.
  unfold sort_values_desc. case_bool_decide; [|done].
  destruct (forallb _ _) eqn:Hall; [|done]. intros [= <-]. simpl.
  split; [done|]. split; [apply merge_sort_Permutation|]. split.
  - rewrite merge_sort_Permutation. apply Forall_forall. intros r Hr.
    rewrite forallb_forall in Hall. apply Hall. by apply list_elem_of_In.
  - apply StronglySorted_merge_sort; apply _.
Qed.

Lemma run_cons s ss df : run (s :: ss) df = step s df ≫= run ss.
Proof.
  unfold run. simpl. destruct (step s df) as [d|]; [done|]. simpl.
  induction ss; simpl; auto.
Qed.

Lemma ratio_column_spec new num den df df' :
  Metrics.ratio_column new num den df = Some df' →
  (∀ c, c ∈ columns df → c ∈ columns df')
  ∧ Forall2 (fun r r' : row => ∀ c, c ≠ new → r' !!! c = r !!! c) (rows df) (rows df').
Proof.
  unfold Metrics.ratio_column. case_bool_decide; [|done].
  destruct (mapM _ _) as [rs|] eqn:Hm; [|done]. intros [= <-]. simpl. split.
  - intros c Hc. case_bool_decide; [done|]. apply elem_of_app. by left.
  - apply mapM_Some in Hm. eapply Forall2_impl; [exact Hm|].
    intros r r' Hr c Hne. unfold Metrics.ratio_row in Hr.
    destruct (Metrics.truediv _ _); [|done]. injection Hr as <-.
    by rewrite lookup_total_insert_ne.
Qed.

Lemma replace_inf_int_key c cs (r : row) :
  int_key c r → Frame.map_cells Metrics.replace_inf cs r !!! c = r !!! c.
Proof.
  unfold int_key. intros Hr. destruct (decide (c ∈ cs)) as [Hin|Hout].
  - rewrite map_cells_total_in by done. by destruct (r !!! c).
  - by rewrite map_cells_total_out.
Qed.

Lemma Forall2_trans_key {A} (P Q R : A → A → Prop) l k m :
  (∀ x y z, P x y → Q y z → R x z) → Forall2 P l k → Forall2 Q k m → Forall2 R l m.
Proof.
  intros H HP. revert m. induction HP; intros m HQ; inversion HQ; subst; constructor; eauto.
Qed.

Lemma keeps_trans c l k m : keeps c l k → keeps c k m → keeps c l m.
Proof.
  apply Forall2_trans_key. intros x y z Hxy Hyz Hx.
  rewrite Hyz; [by apply Hxy|]. unfold int_key in *. by rewrite Hxy.
Qed.

Lemma ratio_column_keeps c new num den df df' :
  c ≠ new → Metrics.ratio_column new num den df = Some df' →
  (c ∈ columns df → c ∈ columns df') ∧ keeps c (rows df) (rows df').
Proof.
  intros Hne H. apply ratio_column_spec in H as [Hc HF]. split; [apply Hc|].
  eapply Forall2_impl; [exact HF|]. intros r r' Hr _. by apply Hr.
Qed.

Lemma global_metrics_keeps df df' :
  Metrics.global_metrics df = Some df' →
  ("TOTALCASES" ∈ columns df → "TOTALCASES" ∈ columns df')
  ∧ keeps "TOTALCASES" (rows df) (rows df').
Proof.
  unfold Metrics.global_metrics, Metrics.ratios.
  destruct (Metrics.ratio_column "DEATH_RATE" _ _ df) as [d1|] eqn:H1; [|done].
  cbn [mbind option_bind].
  destruct (Metrics.ratio_column "SURVIVAL_RATE" _ _ d1) as [d2|] eqn:H2; [|done].
  cbn [mbind option_bind].
  destruct (Metrics.ratio_column "PERCENT_TESTS_POSITIVE" _ _ d2) as [d3|] eqn:H3; [|done].
  cbn [mbind option_bind]. intros [= <-].
  apply (ratio_column_keeps "TOTALCASES") in H1 as [C1 K1]; [|done].
  apply (ratio_column_keeps "TOTALCASES") in H2 as [C2 K2]; [|done].
  apply (ratio_column_keeps "TOTALCASES") in H3 as [C3 K3]; [|done].
  split; [simpl; auto|].
  eapply keeps_trans; [exact K1|]. eapply keeps_trans; [exact K2|].
  eapply keeps_trans; [exact K3|]. simpl.
  apply Forall2_fmap_r, Forall_Forall2_diag, Forall_forall.
  intros r _ Hr. by apply replace_inf_int_key.
Qed.

Lemma step_keeps_cases s df df' :
  keeps_cases s → cases_ordered df → step s df = Some df' → cases_ordered df'.
Proof.
  intros Hk (Hc & Hint & Hs) Hstep. destruct s; simpl in *.
  - apply sort_values_desc_spec in Hstep as (Hcols & _ & Hi & Hss).
    split; [by rewrite Hcols|]. done.
  - split; [by eapply merge_left_columns_totalcases|].
    unfold Merge.merge_left in Hstep. case_bool_decide; [|done].
    injection Hstep as <-. simpl. apply ordered_flat_map; [|done|done].
    intros r r' _ Hr'. by eapply merge_one_totalcases.
  - apply global_metrics_keeps in Hstep as [C K]. split; [auto|].
    by apply (ordered_Forall2 "TOTALCASES" (rows df)).
  - unfold Frame.drop_column in Hstep. case_bool_decide; [|done].
    injection Hstep as <-. simpl. split; [by apply list_elem_of_filter|].
    apply ordered_fmap; [|done|done]. intros r _. by rewrite lookup_total_delete_ne.
  - rewrite drop_vessels_eq in Hstep. case_bool_decide; [|done].
    injection Hstep as <-. simpl. split.
    { right. by apply list_elem_of_filter. }
    destruct (ordered_filter "TOTALCASES"
                (fun r : row => r !!! "COUNTRY" ∉ Exclusion.vessels) (rows df) Hint Hs)
      as [F1 F2].
    apply ordered_fmap; [|done|done]. intros r _. apply reindexed_lookup.
  - unfold Reconciler.strip_key in Hstep. 
    destruct (decide ("COUNTRY" ∈ columns df)) as [Hin|Hout].
    + rewrite map_column_Some in Hstep by done. injection Hstep as <-. simpl.
      split; [done|]. apply ordered_fmap; [|done|done].
      intros r _. by rewrite lookup_total_insert_ne.
    + by rewrite map_column_None in Hstep.
  - apply (ratio_column_keeps "TOTALCASES") in Hstep as [C K]; [|done].
    split; [auto|]. by apply (ordered_Forall2 "TOTALCASES" (rows df)).
Qed.

Lemma run_keeps_cases ss df df' :
  Forall keeps_cases ss → cases_ordered df → run ss df = Some df' → cases_ordered df'.
Proof.
  revert df. induction ss as [|s ss IH]; intros df Hk Ho Hr.
  - by injection Hr as <-.
  - rewrite run_cons in Hr. apply Forall_cons in Hk as [Hs Hk].
    destruct (step s df) as [d|] eqn:Hd; [|done]. simpl in Hr.
    eapply IH; [done| |exact Hr]. by eapply step_keeps_cases.
Qed.

Lemma prepare_area_columns a a' :
  Reconciler.prepare_area a = Some a' → columns a' = columns a.
Proof.
  unfold Reconciler.prepare_area.
  destruct (decide ("COUNTRY" ∈ columns a)) as [Hin|Hout].
  - destruct (reconcile_keys "COUNTRY" Reconciler.area_aliases a Hin) as (d & -> & Hc & _).
    cbn [mbind option_bind]. unfold Reconciler.strip_key.
    rewrite map_column_Some by (by rewrite Hc). by intros [= <-].
  - destruct Reconciler.area_aliases as [|[x y] t] eqn:E; [done|].
    by rewrite reconcile_missing.
Qed.

(** Claim C10.  Whenever the cells In[13]-In[26] run, the sort of In[13]
    yields a permutation of the records in non-increasing order of TOTALCASES,
    the table In[57] finds is still in that order, and [top_cases] is its
    first ten records: none of the other records has more cases than any of
    them. *)
Theorem top_cases_are_the_largest (gdp upd area df final : DataFrame) :
  "TOTALCASES" ∉ columns gdp → "TOTALCASES" ∉ columns upd →
  "TOTALCASES" ∉ columns area →
  global_final gdp upd area df = Some final →
  (∃ sorted, sort_values_desc "TOTALCASES" df = Some sorted
             ∧ rows sorted ≡ₚ rows df
             ∧ cases_ordered sorted)
  ∧ cases_ordered final
  ∧ rows (top_cases final) = take 10 (rows final)
  ∧ (∀ r r' : row, r ∈ rows (top_cases final) → r' ∈ drop 10 (rows final) →
       int_of "TOTALCASES" r' <= int_of "TOTALCASES" r).
Proof.
  intros Hg Hu Ha Hfin. unfold global_final in Hfin.
  destruct (Reconciler.prepare_area area) as [a|] eqn:Hprep; [|done].
  cbn [mbind option_bind] in Hfin.
  apply prepare_area_columns in Hprep.
  unfold global_stages in Hfin. rewrite run_cons in Hfin.
  destruct (step SortCases df) as [sorted|] eqn:Hsort; [|done].
  cbn [mbind option_bind] in Hfin.
  assert (cases_ordered sorted ∧ rows sorted ≡ₚ rows df) as [Hord Hperm].
  { simpl in Hsort. pose proof Hsort as Hs.
    apply sort_values_desc_spec in Hs as (Hc & Hp & Hi & Hss).
    split; [|done]. split; [|done]. rewrite Hc.
    unfold sort_values_desc in Hsort. by case_bool_decide. }
  assert (cases_ordered final) as Hfinal.
  { eapply run_keeps_cases; [|exact Hord|exact Hfin].
    repeat constructor; simpl; try done. by rewrite Hprep. }
  split; [by exists sorted|]. split; [done|]. split; [done|].
  intros r r' Hr Hr'. destruct Hfinal as (_ & _ & Hss).
  rewrite <- (take_drop 10 (rows final)) in Hss.
  apply StronglySorted_app in Hss as (Hcross & _ & _).
  by apply Hcross.
Qed.

(** The hypotheses of [top_cases_are_the_largest] hold on a six-record
    table. *)
Lemma top_cases_witness :
  (∃ sorted, sort_values_desc "TOTALCASES" world = Some sorted
             ∧ rows sorted ≡ₚ rows world
             ∧ cases_ordered sorted)
  ∧ cases_ordered world_final
  ∧ rows (top_cases world_final) = take 10 (rows world_final)
  ∧ (∀ r r' : row, r ∈ rows (top_cases world_final) → r' ∈ drop 10 (rows world_final) →
       int_of "TOTALCASES" r' <= int_of "TOTALCASES" r).
Proof.
  apply (top_cases_are_the_largest world_gdp world_gdp_update world_area world world_final).
  - apply (bool_decide_unpack _). vm_compute. exact I.
  - apply (bool_decide_unpack _). vm_compute. exact I.
  - apply (bool_decide_unpack _). vm_compute. exact I.
  - vm_compute. reflexivity.
Defined.

(** ** The vessels *)

(** Claim C7, as amended.  The vessels are dropped after the two GDP merges
    and before the merge with [country_area].  The step succeeds exactly when
    COUNTRY is a column and both vessel names occur as keys; it then keeps, in
    order and cell by cell, exactly the records whose key is neither
    "Diamond Princess" nor "MS Zaandam". *)
Theorem vessels_dropped_between_merges (gdp upd area df : DataFrame) (r : row) (c : string) :
  global_stages gdp upd area
  = [SortCases; MergeLeft gdp; DerivedMetrics; DropColumn "GDP_PER_CAPITA";
     MergeLeft upd] ++ DropVessels :: [StripKey; MergeLeft area; Density]
  ∧ Exclusion.drop_vessels df
    = (if bool_decide ("COUNTRY" ∈ columns df
                       ∧ Forall (fun v => v ∈ Frame.keys "COUNTRY" df) Exclusion.vessels)
       then Some (mkDF ("COUNTRY" :: filter (fun c => c ≠ "COUNTRY"%string) (columns df))
                       (Indexed.reindexed "COUNTRY"
                          <$> filter (fun r : row => r !!! "COUNTRY" ∉ Exclusion.vessels)
                                     (rows df)))
       else None)
  ∧ Indexed.reindexed "COUNTRY" r !!! c = r !!! c
  ∧ (r !!! "COUNTRY" ∉ Exclusion.vessels
     ↔ r !!! "COUNTRY" ≠ Str "Diamond Princess" ∧ r !!! "COUNTRY" ≠ Str "MS Zaandam").
Proof.
  split; [reflexivity|]. split; [apply drop_vessels_eq|].
  split; [apply reindexed_lookup|].
  unfold Exclusion.vessels. rewrite !not_elem_of_cons. 
  split; [intros (?&?&?); done|intros [? ?]; split_and!; [done|done|apply not_elem_of_nil]].
Qed.

(** Claim C7 as stated fails: a merge stage follows the stage that drops the
    vessels; the table has no LAND_AREA column when the vessels are dropped
    and has one at the end. *)
Lemma merge_after_vessels_counterexample :
  ∃ pre post,
    global_stages world_gdp world_gdp_update world_area = pre ++ DropVessels :: post
    ∧ forallb (fun s => negb (is_drop_vessels s)) pre = true
    ∧ existsb is_merge post = true
    ∧ (run pre world ≫= step DropVessels) ≫= Frame.column "LAND_AREA" = None
    ∧ is_Some (run (pre ++ DropVessels :: post) world ≫= Frame.column "LAND_AREA").
Proof.
  exists [SortCases; MergeLeft world_gdp; DerivedMetrics; DropColumn "GDP_PER_CAPITA";
          MergeLeft world_gdp_update],
         [StripKey; MergeLeft world_area; Density].
  split; [reflexivity|]. split; [reflexivity|]. split; [reflexivity|].
  split; [vm_compute; reflexivity|]. vm_compute. eexists. reflexivity.
Qed.

End OrderFacts.

(** ** The patch of the eight states *)

Section StatePatchFacts.
Import Indexed StatePatch Samples.

(** *** Values as a column stores them *)


Lemma stored_refl v : stored v v.
Proof. by left. Qed.





(** *** One assignment *)











(** *** One state *)





(** *** The states in sequence *)








(** *** How many records are written *)







End StatePatchFacts.
(** ** Integers as float64: a non-zero integer is a non-zero float *)

Section FloatFacts.

Lemma shr_1_pos mrs m :
  shr_m mrs = Zpos m → 1 < Zpos (digits2_pos m) →
  ∃ m', shr_m (shr_1 mrs) = Zpos m'
        ∧ Zpos (digits2_pos m') = Zpos (digits2_pos m) - 1.
Proof.
  destruct mrs as [x r s]. simpl. intros -> Hd.
  destruct m as [p|p|]; simpl in *.
  - exists p. split; [done|]. lia.
  - exists p. split; [done|]. lia.
  - lia.
Qed.

Lemma iter_shr_1_pos k : ∀ mrs m,
  shr_m mrs = Zpos m → Zpos k < Zpos (digits2_pos m) →
  ∃ m', shr_m (SpecFloat.iter_pos shr_1 k mrs) = Zpos m'
        ∧ Zpos (digits2_pos m') = Zpos (digits2_pos m) - Zpos k.
Proof.
  induction k as [k IH|k IH|]; intros mrs m Hm Hk; simpl.
  - destruct (shr_1_pos mrs m Hm) as (m1 & H1 & D1); [lia|].
    destruct (IH _ m1 H1) as (m2 & H2 & D2); [lia|].
    destruct (IH _ m2 H2) as (m3 & H3 & D3); [lia|].
    exists m3. split; [done|]. lia.
  - destruct (IH _ m Hm) as (m2 & H2 & D2); [lia|].
    destruct (IH _ m2 H2) as (m3 & H3 & D3); [lia|].
    exists m3. split; [done|]. lia.
  - apply shr_1_pos; [done|lia].
Qed.

Lemma shr_record_of_loc_m m l : shr_m (shr_record_of_loc m l) = m.
Proof. destruct l as [|[]]; done. Qed.

Lemma shr_fexp_pos m e l :
  -1074 <= e →
  ∃ m', shr_m (shr_fexp 53 1024 (Zpos m) e l).1 = Zpos m'
        ∧ -1074 <= (shr_fexp 53 1024 (Zpos m) e l).2.
Proof.
  intros He. unfold shr_fexp, shr.
  destruct (fexp 53 1024 (Zdigits2 (Zpos m) + e) - e) as [|k|k] eqn:En; simpl.
  - exists m. by rewrite shr_record_of_loc_m.
  - destruct (iter_shr_1_pos k (shr_record_of_loc (Zpos m) l) m) as (m' & H1 & _).
    + apply shr_record_of_loc_m.
    + unfold fexp, emin in En. simpl in En. lia.
    + exists m'. split; [done|]. lia.
  - exists m. by rewrite shr_record_of_loc_m.
Qed.

Lemma round_nearest_even_pos m l : ∃ m', round_nearest_even (Zpos m) l = Zpos m'.
Proof.
  destruct l as [|[]]; unfold round_nearest_even.
  - by exists m.
  - destruct (Z.even (Zpos m)); [by exists m|by exists (m + 1)%positive].
  - by exists m.
  - by exists (m + 1)%positive.
Qed.

Lemma binary_round_aux_nonzero s m e l :
  -1074 <= e →
  (∃ m' e', binary_round_aux 53 1024 s (Zpos m) e l = S754_finite s m' e')
  ∨ binary_round_aux 53 1024 s (Zpos m) e l = S754_infinity s.
Proof.
  intros He. unfold binary_round_aux.
  destruct (shr_fexp_pos m e l He) as (m1 & H1 & E1).
  destruct (shr_fexp 53 1024 (Zpos m) e l) as [mrs' e'] eqn:S1. simpl in H1, E1.
  rewrite H1.
  destruct (round_nearest_even_pos m1 (loc_of_shr_record mrs')) as (m2 & ->).
  destruct (shr_fexp_pos m2 e' loc_Exact E1) as (m3 & H3 & E3).
  destruct (shr_fexp 53 1024 (Zpos m2) e' loc_Exact) as [mrs'' e''] eqn:S2.
  simpl in H3. rewrite H3. destruct (e'' <=? 1024 - 53); eauto.
Qed.

Lemma binary_round_nonzero s p :
  (∃ m' e', binary_round 53 1024 s p 0 = S754_finite s m' e')
  ∨ binary_round 53 1024 s p 0 = S754_infinity s.
Proof.
  unfold binary_round, shl_align.
  destruct (fexp 53 1024 (Zpos (digits2_pos p) + 0) - 0) as [|d|d] eqn:E.
  - by apply binary_round_aux_nonzero.
  - by apply binary_round_aux_nonzero.
  - apply binary_round_aux_nonzero. unfold fexp, emin. lia.
Qed.

Lemma of_int_nonzero z :
  z ≠ 0 →
  (∃ s m e, Float64.of_int z = S754_finite s m e)
  ∨ (∃ s, Float64.of_int z = S754_infinity s).
Proof.
  intros Hz. unfold Float64.of_int, binary_normalize, Float64.prec, Float64.emax.
  destruct z as [|p|p]; [done| |].
  - destruct (binary_round_nonzero false p) as [(m & e & ->)| ->]; eauto.
  - destruct (binary_round_nonzero true p) as [(m & e & ->)| ->]; eauto.
Qed.

Lemma of_int_zero : Float64.of_int 0 = S754_zero false.
Proof. reflexivity. Qed.

Lemma of_int_sign z s m e :
  Float64.of_int z = S754_finite s m e → s = bool_decide (z < 0).
Proof.
  unfold Float64.of_int, binary_normalize, Float64.prec, Float64.emax.
  destruct z as [|p|p]; [done| |].
  - destruct (binary_round_nonzero false p) as [(m' & e' & ->)| ->]; [|done].
    by intros [= <- _ _].
  - destruct (binary_round_nonzero true p) as [(m' & e' & ->)| ->]; [|done].
    by intros [= <- _ _].
Qed.

Lemma of_int_cases z :
  z ≠ 0 →
  (∃ m e, Float64.of_int z = S754_finite (z <? 0) m e)
  ∨ Float64.of_int z = S754_infinity (z <? 0).
Proof.
  intros Hz. unfold Float64.of_int, binary_normalize, Float64.prec, Float64.emax.
  destruct z as [|p|p]; [done| |].
  - destruct (binary_round_nonzero false p) as [(m & e & ->)| ->]; eauto.
  - destruct (binary_round_nonzero true p) as [(m & e & ->)| ->]; eauto.
Qed.

End FloatFacts.

(** ** Derived metrics and zero denominators *)

Section MetricsFacts.
Import Metrics Samples.

Lemma binary_round_sign s p :
  (∃ m' e', binary_round 53 1024 s p 0 = S754_finite s m' e')
  ∨ binary_round 53 1024 s p 0 = S754_infinity s.
Proof. apply binary_round_nonzero. Qed.

Lemma div_int_by_zero d :
  d ≠ 0 →
  Float64.div (Float64.of_int d) (Float64.of_int 0)
  = S754_infinity (bool_decide (d < 0)).
Proof.
  intros Hd. unfold Float64.div, Float64.of_int, binary_normalize,
    Float64.prec, Float64.emax.
  destruct d as [|p|p]; [done| |].
  - rewrite bool_decide_eq_false_2 by lia.
    by destruct (binary_round_nonzero false p) as [(m & e & ->)| ->].
  - rewrite bool_decide_eq_true_2 by lia.
    by destruct (binary_round_nonzero true p) as [(m & e & ->)| ->].
Qed.

Lemma truediv_int_by_zero d :
  d ≠ 0 → truediv (Int d) (Int 0) = Some (Flt (S754_infinity (bool_decide (d < 0)))).
Proof.
  intros Hd. unfold truediv. cbn [to_float mbind option_bind].
  by rewrite div_int_by_zero.
Qed.

Lemma truediv_zero_by_zero : truediv (Int 0) (Int 0) = Some (Flt S754_nan).
Proof. reflexivity. Qed.

Lemma truediv_is_Some a b :
  is_Some (to_float a) → is_Some (to_float b) → is_Some (truediv a b).
Proof. intros [x Hx] [y Hy]. unfold truediv. rewrite Hx, Hy. by eexists. Qed.

(** What [ratio_column] does to the records, once its columns exist. *)
Lemma ratio_column_rows new num den df :
  num ∈ columns df → den ∈ columns df →
  Forall (fun r : row => is_Some (truediv (r !!! num) (r !!! den))) (rows df) →
  ∃ df', ratio_column new num den df = Some df'
    ∧ (∀ c, c ∈ columns df → c ∈ columns df')
    ∧ new ∈ columns df'
    ∧ Forall2 (fun r r' : row =>
                 ∃ q, truediv (r !!! num) (r !!! den) = Some q ∧ r' = <[new := q]> r)
              (rows df) (rows df').
Proof.
  intros Hn Hd Hall. unfold ratio_column. rewrite bool_decide_eq_true_2 by done.
  assert (is_Some (mapM (ratio_row new num den) (rows df))) as [rs Hrs].
  { apply mapM_is_Some. eapply Forall_impl; [exact Hall|].
    intros r [q Hq]. unfold compose, ratio_row. rewrite Hq. by eexists. }
  rewrite Hrs. cbn [mbind option_bind]. eexists. split; [done|]. cbn [columns rows].
  split; [|split].
  - intros c Hc. case_bool_decide; [done|]. apply elem_of_app. by left.
  - case_bool_decide; [done|]. apply elem_of_app. right. constructor.
  - apply mapM_Some in Hrs. eapply Forall2_impl; [exact Hrs|].
    intros r r' Hr. unfold ratio_row in Hr.
    destruct (truediv _ _) as [q|]; [|done]. injection Hr as <-. by exists q.
Qed.

Lemma numeric_insert cs new q (r : row) :
  new ∉ cs → numeric cs r → numeric cs (<[new := q]> r).
Proof.
  unfold numeric. intros Hn H. rewrite Forall_forall in *. intros c Hc.
  rewrite lookup_total_insert_ne; [by apply H|]. by intros ->.
Qed.

Lemma numeric_truediv cs (r : row) a b :
  numeric cs r → a ∈ cs → b ∈ cs → is_Some (truediv (r !!! a) (r !!! b)).
Proof.
  unfold numeric. rewrite Forall_forall. intros H Ha Hb.
  apply truediv_is_Some; by apply H.
Qed.

Lemma ratios_rows df :
  Forall (fun c => c ∈ columns df) ratio_inputs →
  Forall (numeric ratio_inputs) (rows df) →
  ∃ df', ratios df = Some df'
    ∧ Forall (fun c => c ∈ columns df')
             ["DEATH_RATE"; "SURVIVAL_RATE"; "PERCENT_TESTS_POSITIVE"]%string
    ∧ Forall2 (fun r r' : row =>
         ∃ q1 q2 q3,
           truediv (r !!! "TOTALDEATHS") (r !!! "TOTALCASES") = Some q1
           ∧ truediv (r !!! "TOTALRECOVERED") (r !!! "TOTALCASES") = Some q2
           ∧ truediv (r !!! "TOTALCASES") (r !!! "TOTALTESTS") = Some q3
           ∧ r' = with_ratios q1 q2 q3 r)
       (rows df) (rows df').
Proof.
  intros Hc Hnum. unfold ratio_inputs in Hc.
  apply Forall_cons in Hc as [Htd Hc]. apply Forall_cons in Hc as [Htc Hc].
  apply Forall_cons in Hc as [Htr Hc]. apply Forall_cons in Hc as [Htt _].
  unfold ratios.
  destruct (ratio_column_rows "DEATH_RATE" "TOTALDEATHS" "TOTALCASES" df)
    as (d1 & -> & C1 & N1 & R1); [done|done| |].
  { eapply Forall_impl; [exact Hnum|]. intros r Hr.
    eapply numeric_truediv; [exact Hr| |]; repeat constructor. }
  cbn [mbind option_bind].
  assert (Forall2 (fun r r1 : row =>
            numeric ratio_inputs r ∧ numeric ratio_inputs r1
            ∧ ∃ q1, truediv (r !!! "TOTALDEATHS") (r !!! "TOTALCASES") = Some q1
                    ∧ r1 = <["DEATH_RATE" := q1]> r) (rows df) (rows d1)) as R1'.
  { apply Forall2_same_length_lookup. split; [by eapply Forall2_length|].
    intros i r r1 Hr Hr1. rewrite Forall_forall in Hnum.
    assert (numeric ratio_inputs r) as Hn by (apply Hnum; by eapply list_elem_of_lookup_2).
    destruct (Forall2_lookup_lr _ _ _ _ _ _ R1 Hr Hr1) as (q1 & Hq & ->).
    split; [done|]. split; [|by exists q1].
    apply numeric_insert; [|done]. apply (bool_decide_unpack _). vm_compute. exact I. }
  destruct (ratio_column_rows "SURVIVAL_RATE" "TOTALRECOVERED" "TOTALCASES" d1)
    as (d2 & -> & C2 & N2 & R2); [auto|auto| |].
  { apply Forall_forall. intros r1 Hr1. apply list_elem_of_lookup in Hr1 as [i Hi].
    destruct (Forall2_lookup_r _ _ _ _ _ R1' Hi) as (r & _ & _ & Hn1 & _).
    eapply numeric_truediv; [exact Hn1| |]; repeat constructor. }
  cbn [mbind option_bind].
  assert (Forall2 (fun r r2 : row =>
            numeric ratio_inputs r2
            ∧ ∃ q1 q2, truediv (r !!! "TOTALDEATHS") (r !!! "TOTALCASES") = Some q1
                    ∧ truediv (r !!! "TOTALRECOVERED") (r !!! "TOTALCASES") = Some q2
                    ∧ r2 = <["SURVIVAL_RATE" := q2]> (<["DEATH_RATE" := q1]> r))
            (rows df) (rows d2)) as R2'.
  { apply Forall2_same_length_lookup. split.
    { rewrite (Forall2_length _ _ _ R1'). by eapply Forall2_length. }
    intros i r r2 Hr Hr2.
    destruct (Forall2_lookup_l _ _ _ _ _ R1' Hr) as (r1 & Hr1 & _ & Hn1 & q1 & Hq1 & ->).
    destruct (Forall2_lookup_lr _ _ _ _ _ _ R2 Hr1 Hr2) as (q2 & Hq2 & ->).
    rewrite !lookup_total_insert_ne in Hq2 by done.
    split; [apply numeric_insert; [apply (bool_decide_unpack _); vm_compute; exact I|done]|].
    by exists q1, q2. }
  destruct (ratio_column_rows "PERCENT_TESTS_POSITIVE" "TOTALCASES" "TOTALTESTS" d2)
    as (d3 & -> & C3 & N3 & R3); [auto|auto| |].
  { apply Forall_forall. intros r2 Hr2. apply list_elem_of_lookup in Hr2 as [i Hi].
    destruct (Forall2_lookup_r _ _ _ _ _ R2' Hi) as (r & _ & Hn2 & _).
    eapply numeric_truediv; [exact Hn2| |]; repeat constructor. }
  exists d3. split; [done|]. split; [repeat constructor; auto|].
  apply Forall2_same_length_lookup. split.
  { rewrite (Forall2_length _ _ _ R2'). by eapply Forall2_length. }
  intros i r r3 Hr Hr3.
  destruct (Forall2_lookup_l _ _ _ _ _ R2' Hr) as (r2 & Hr2 & _ & q1 & q2 & Hq1 & Hq2 & ->).
  destruct (Forall2_lookup_lr _ _ _ _ _ _ R3 Hr2 Hr3) as (q3 & Hq3 & ->).
  rewrite !lookup_total_insert_ne in Hq3 by done.
  by exists q1, q2, q3.
Qed.

Lemma replace_inf_not_infinite q :
  match replace_inf q with Flt x => Float64.is_inf x = false | _ => True end.
Proof. destruct q as [?|?|[]]; done. Qed.

Lemma replaced_ratio_lookups cs q1 q2 q3 (r : row) :
  Forall (fun c => c ∈ cs)
         ["DEATH_RATE"; "SURVIVAL_RATE"; "PERCENT_TESTS_POSITIVE"]%string →
  Frame.map_cells replace_inf cs (with_ratios q1 q2 q3 r) !!! "DEATH_RATE"
  = replace_inf q1
  ∧ Frame.map_cells replace_inf cs (with_ratios q1 q2 q3 r) !!! "SURVIVAL_RATE"
    = replace_inf q2
  ∧ Frame.map_cells replace_inf cs (with_ratios q1 q2 q3 r)
      !!! "PERCENT_TESTS_POSITIVE" = replace_inf q3.
Proof.
  intros Hc. apply Forall_cons in Hc as [H1 Hc]. apply Forall_cons in Hc as [H2 Hc].
  apply Forall_cons in Hc as [H3 _].
  rewrite !map_cells_total_in by done. unfold with_ratios. split_and!.
  - rewrite !lookup_total_insert_ne by done. by rewrite lookup_total_insert_eq.
  - rewrite lookup_total_insert_ne by done. by rewrite lookup_total_insert_eq.
  - by rewrite lookup_total_insert_eq.
Qed.

Lemma ratio_lookups q1 q2 q3 (r : row) :
  with_ratios q1 q2 q3 r !!! "DEATH_RATE" = q1
  ∧ with_ratios q1 q2 q3 r !!! "SURVIVAL_RATE" = q2
  ∧ with_ratios q1 q2 q3 r !!! "PERCENT_TESTS_POSITIVE" = q3.
Proof.
  unfold with_ratios. split_and!.
  - rewrite !lookup_total_insert_ne by done. by rewrite lookup_total_insert_eq.
  - rewrite lookup_total_insert_ne by done. by rewrite lookup_total_insert_eq.
  - by rewrite lookup_total_insert_eq.
Qed.

(** A non-zero number over a zero: the infinity of IEEE 754. *)
Lemma quotient_infinite (a b q : cell) :
  truediv a b = Some q → nonzero a = true → is_zero b = true →
  q = Flt (S754_infinity (xorb (negative a) (negative b))).
Proof.
  unfold truediv. intros Hq Ha Hb.
  assert (∃ x, to_float a = Some x
             ∧ ((∃ m e, x = S754_finite (negative a) m e)
                ∨ x = S754_infinity (negative a))) as (x & Hx & Hcase).
  { destruct a as [s|z|[s|s| |s m e]]; try done; simpl.
    - exists (Float64.of_int z). split; [done|]. apply of_int_cases.
      simpl in Ha. apply negb_true_iff, Z.eqb_neq in Ha. done.
    - eexists. split; [done|]. by right.
    - eexists. split; [done|]. left. eauto. }
  assert (to_float b = Some (S754_zero (negative b))) as Hy.
  { destruct b as [s|[| |]|[s|s| |s m e]]; try done. }
  rewrite Hx, Hy in Hq. cbn [mbind option_bind] in Hq. injection Hq as <-.
  destruct Hcase as [(m & e & ->)| ->]; reflexivity.
Qed.

Lemma quotient_replaced (a b q : cell) :
  truediv a b = Some q → nonzero a = true → is_zero b = true →
  replace_inf q = Flt Float64.zero.
Proof.
  intros Hq Ha Hb. by rewrite (quotient_infinite a b q Hq Ha Hb).
Qed.

(** Claim C1, as amended.  In [global_data] (In[20]) a non-zero number, of
    an int64 or of a float64 column, over a zero denominator gives exactly
    zero in DEATH_RATE, SURVIVAL_RATE and PERCENT_TESTS_POSITIVE, and none of
    the three columns holds an infinity afterwards.  In [us_data] (In[34],
    where the replacement line is commented out) the same quotients stay the
    infinity of IEEE 754 division (of the numerator's sign, turned where the
    zero is the float [-0.0]), and so does POPULATION_DENSITY (In[26]), which
    is computed after the replacement. *)
Theorem zero_denominator_policy (df dd : DataFrame) :
  Forall (fun c => c ∈ columns df) ratio_inputs →
  Forall (numeric ratio_inputs) (rows df) →
  Forall (fun c => c ∈ columns dd) ["POPULATION"; "LAND_AREA"]%string →
  Forall (numeric ["POPULATION"; "LAND_AREA"]%string) (rows dd) →
  (∃ g, global_metrics df = Some g
        ∧ Forall2 (fun r r' : row =>
             zero_den_replaced "TOTALDEATHS" "TOTALCASES" "DEATH_RATE" r r'
             ∧ zero_den_replaced "TOTALRECOVERED" "TOTALCASES" "SURVIVAL_RATE" r r'
             ∧ zero_den_replaced "TOTALCASES" "TOTALTESTS" "PERCENT_TESTS_POSITIVE" r r'
             ∧ not_infinite "DEATH_RATE" r' ∧ not_infinite "SURVIVAL_RATE" r'
             ∧ not_infinite "PERCENT_TESTS_POSITIVE" r')
           (rows df) (rows g))
  ∧ (∃ u, us_metrics df = Some u
        ∧ Forall2 (fun r r' : row =>
             zero_den_infinite "TOTALDEATHS" "TOTALCASES" "DEATH_RATE" r r'
             ∧ zero_den_infinite "TOTALRECOVERED" "TOTALCASES" "SURVIVAL_RATE" r r'
             ∧ zero_den_infinite "TOTALCASES" "TOTALTESTS" "PERCENT_TESTS_POSITIVE" r r')
           (rows df) (rows u))
  ∧ (∃ p, population_density dd = Some p
        ∧ Forall2 (zero_den_infinite "POPULATION" "LAND_AREA" "POPULATION_DENSITY")
           (rows dd) (rows p)).
Proof.
  intros Hc Hn Hcd Hnd.
  destruct (ratios_rows df Hc Hn) as (d3 & Hd3 & Hcols3 & HF).
  split; [|split].
  - unfold global_metrics. rewrite Hd3. cbn [mbind option_bind].
    eexists. split; [done|]. cbn [Frame.applymap rows].
    apply Forall2_fmap_r. eapply Forall2_impl; [exact HF|].
    intros r r' (q1 & q2 & q3 & H1 & H2 & H3 & ->). cbv beta.
    destruct (replaced_ratio_lookups (columns d3) q1 q2 q3 r Hcols3) as (L1 & L2 & L3).
    unfold compose, zero_den_replaced, not_infinite. rewrite L1, L2, L3.
    split_and!; try apply replace_inf_not_infinite.
    + intros Ha Hb. by eapply quotient_replaced.
    + intros Ha Hb. by eapply quotient_replaced.
    + intros Ha Hb. by eapply quotient_replaced.
  - unfold us_metrics. exists d3. split; [done|].
    eapply Forall2_impl; [exact HF|].
    intros r r' (q1 & q2 & q3 & H1 & H2 & H3 & ->).
    destruct (ratio_lookups q1 q2 q3 r) as (L1 & L2 & L3).
    unfold zero_den_infinite. rewrite L1, L2, L3.
    split_and!; intros Ha Hb; by eapply quotient_infinite.
  - apply Forall_cons in Hcd as [Hp Hcd]. apply Forall_cons in Hcd as [Hl _].
    unfold population_density.
    destruct (ratio_column_rows "POPULATION_DENSITY" "POPULATION" "LAND_AREA" dd)
      as (p & -> & _ & _ & R); [done|done| |].
    { eapply Forall_impl; [exact Hnd|]. intros r Hr.
      eapply numeric_truediv; [exact Hr| |]; repeat constructor. }
    exists p. split; [done|]. eapply Forall2_impl; [exact R|].
    intros r r' (q & Hq & ->). unfold zero_den_infinite.
    intros Ha Hb. rewrite lookup_total_insert_eq.
    by eapply quotient_infinite.
Qed.

(** Claim C1 as stated fails: with TOTALCASES = 100 and TOTALTESTS = 0 the US
    table's PERCENT_TESTS_POSITIVE is +inf; with LAND_AREA = 0 the density is
    +inf; and 0/0 is NaN, which the replacement of the global table does not
    touch. *)
Lemma zero_denominator_counterexample :
  Frame.column "TOTALCASES" metrics_table = Some [Int 100; Int 0]
  ∧ Frame.column "TOTALTESTS" metrics_table = Some [Int 0; Int 0]
  ∧ Frame.column "LAND_AREA" metrics_table = Some [Int 0; Int 0]
  ∧ us_metrics metrics_table ≫= Frame.column "PERCENT_TESTS_POSITIVE"
    = Some [Flt Float64.pos_inf; Flt Float64.NaN]
  ∧ global_metrics metrics_table ≫= Frame.column "PERCENT_TESTS_POSITIVE"
    = Some [Flt Float64.zero; Flt Float64.NaN]
  ∧ population_density metrics_table ≫= Frame.column "POPULATION_DENSITY"
    = Some [Flt Float64.pos_inf; Flt Float64.NaN].
Proof. repeat split; vm_compute; reflexivity. Qed.

(** The hypotheses of [zero_denominator_policy] hold on a table with int64
    and float64 columns. *)
Lemma zero_denominator_witness :
  (∃ g, global_metrics float_table = Some g
        ∧ Forall2 (fun r r' : row =>
             zero_den_replaced "TOTALDEATHS" "TOTALCASES" "DEATH_RATE" r r'
             ∧ zero_den_replaced "TOTALRECOVERED" "TOTALCASES" "SURVIVAL_RATE" r r'
             ∧ zero_den_replaced "TOTALCASES" "TOTALTESTS" "PERCENT_TESTS_POSITIVE" r r'
             ∧ not_infinite "DEATH_RATE" r' ∧ not_infinite "SURVIVAL_RATE" r'
             ∧ not_infinite "PERCENT_TESTS_POSITIVE" r')
           (rows float_table) (rows g))
  ∧ (∃ u, us_metrics float_table = Some u
        ∧ Forall2 (fun r r' : row =>
             zero_den_infinite "TOTALDEATHS" "TOTALCASES" "DEATH_RATE" r r'
             ∧ zero_den_infinite "TOTALRECOVERED" "TOTALCASES" "SURVIVAL_RATE" r r'
             ∧ zero_den_infinite "TOTALCASES" "TOTALTESTS" "PERCENT_TESTS_POSITIVE" r r')
           (rows float_table) (rows u))
  ∧ (∃ p, population_density float_table = Some p
        ∧ Forall2 (zero_den_infinite "POPULATION" "LAND_AREA" "POPULATION_DENSITY")
           (rows float_table) (rows p)).
Proof.
  apply (zero_denominator_policy float_table float_table).
  - apply (bool_decide_unpack _). vm_compute. exact I.
  - apply (bool_decide_unpack _). vm_compute. exact I.
  - apply (bool_decide_unpack _). vm_compute. exact I.
  - apply (bool_decide_unpack _). vm_compute. exact I.
Defined.

End MetricsFacts.

(** ** Numeric conversion *)

Section NormalizerFacts.
Import Normalizer Samples.

Lemma apply_row_spec f cs (r : row) :
  NoDup cs → (∀ c, c ∈ cs → is_Some (f (r !!! c))) →
  ∃ r', Frame.apply_row f cs r = Some r'
        ∧ (∀ c, c ∈ cs → f (r !!! c) = Some (r' !!! c))
        ∧ (∀ c, c ∉ cs → r' !! c = r !! c).
Proof.
  induction cs as [|c0 cs IH]; intros Hnd Hf.
  - exists r. split; [done|]. split; [|done]. intros c Hc. by apply elem_of_nil in Hc.
  - apply NoDup_cons in Hnd as [Hc0 Hnd].
    destruct IH as (r1 & H1 & Hin & Hout); [done|intros c Hc; apply Hf; by right|].
    assert (r1 !!! c0 = r !!! c0) as E0 by (by rewrite !lookup_total_alt, Hout).
    destruct (Hf c0) as [v Hv]; [left|].
    exists (<[c0 := v]> r1). split; [|split].
    + unfold Frame.apply_row in *. simpl. rewrite H1. cbn [mbind option_bind].
      rewrite E0, Hv. done.
    + intros c [->|Hc]%elem_of_cons.
      * by rewrite lookup_total_insert_eq.
      * rewrite lookup_total_insert_ne by (intros ->; done). by apply Hin.
    + intros c [Hne Hc]%not_elem_of_cons.
      rewrite lookup_insert_ne by done. by apply Hout.
Qed.

Lemma apply_columns_spec f cs df :
  NoDup cs → Forall (fun c => c ∈ columns df) cs →
  Forall (fun r : row => ∀ c, c ∈ cs → is_Some (f (r !!! c))) (rows df) →
  ∃ df', Frame.apply_columns f cs df = Some df'
    ∧ columns df' = columns df
    ∧ Forall2 (fun r r' : row =>
                 (∀ c, c ∈ cs → f (r !!! c) = Some (r' !!! c))
                 ∧ (∀ c, c ∉ cs → r' !! c = r !! c))
              (rows df) (rows df').
Proof.
  intros Hnd Hc Hall. unfold Frame.apply_columns.
  rewrite bool_decide_eq_true_2 by done.
  assert (∃ rs, mapM (Frame.apply_row f cs) (rows df) = Some rs
                ∧ Forall2 (fun r r' : row =>
                     (∀ c, c ∈ cs → f (r !!! c) = Some (r' !!! c))
                     ∧ (∀ c, c ∉ cs → r' !! c = r !! c)) (rows df) rs)
    as (rs & Hrs & HF).
  { induction Hall as [|r l Hr Hl IH].
    - exists []. split; [done|constructor].
    - destruct IH as (rs & Hrs & HF).
      destruct (apply_row_spec f cs r Hnd Hr) as (r' & Hr' & P).
      exists (r' :: rs). split; [|by constructor].
      rewrite mapM_Some. constructor; [done|]. by apply mapM_Some. }
  rewrite Hrs. cbn [mbind option_bind]. eexists. split; [done|]. done.
Qed.

Section WithParsers.
Variable to_numeric : string → option spec_float.
Variable int_of_str : string → option Z.

Lemma zeroed_float x :
  x ≠ Float64.neg_inf →
  ∃ z, py_int_cell int_of_str (zeroed (Flt x)) = Some (Int z)
       ∧ (x = Float64.NaN ∨ x = Float64.pos_inf → z = 0)
       ∧ (Float64.is_finite x = true → Float64.py_int x = Some z).
Proof.
  intros Hx. unfold zeroed, fillna0, replace0, isna.
  destruct x as [s|[]| |s m e]; try done; cbn;
    repeat (case_bool_decide; try done); cbn;
    eexists; (split; [reflexivity|]); (split; [|done]);
    try done; intros [?|?]; done.
Qed.

Lemma elem_of_take_drop {A} (x : A) n m l : x ∈ take n (drop m l) → x ∈ l.
Proof.
  intros (i & Hi & _)%elem_of_take. rewrite lookup_drop in Hi.
  by eapply list_elem_of_lookup_2.
Qed.

Lemma zeroed_lookup cs (r : row) c :
  c ∈ cs →
  Frame.map_cells (replace0 Float64.pos_inf) cs
    (Frame.map_cells (replace0 Float64.NaN) cs (Frame.map_cells fillna0 cs r)) !!! c
  = zeroed (r !!! c).
Proof. intros Hc. by rewrite !map_cells_total_in. Qed.

Lemma global_cols_NoDup : NoDup global_cols.
Proof. apply (bool_decide_unpack _). vm_compute. exact I. Qed.

Lemma us_cols_NoDup : NoDup us_cols.
Proof. apply (bool_decide_unpack _). vm_compute. exact I. Qed.

Lemma global_to_numeric_spec df :
  take 10 (drop 1 (columns df)) = global_cols →
  Forall (strings_in to_numeric global_cols) (rows df) →
  ∃ g, global_to_numeric to_numeric int_of_str df = Some g
    ∧ columns g = columns df
    ∧ Forall2 (fun r r' : row =>
         ∀ c s, c ∈ global_cols → r !!! c = Str s →
           ∃ z, r' !!! c = Int z
                ∧ (to_numeric s = None ∨ to_numeric s = Some Float64.NaN
                   ∨ to_numeric s = Some Float64.pos_inf → z = 0)
                ∧ (∀ x, to_numeric s = Some x → Float64.is_finite x = true →
                        Float64.py_int x = Some z))
       (rows df) (rows g).
Proof.
  intros Hcols Hstr.
  assert (Forall (fun c => c ∈ columns df) global_cols) as Hin.
  { apply Forall_forall. intros c Hc. rewrite <- Hcols in Hc.
    by eapply elem_of_take_drop. }
  unfold global_to_numeric.
  destruct (apply_columns_spec (fun c => Some (coerce to_numeric c)) global_cols df)
    as (d1 & -> & C1 & R1); [apply global_cols_NoDup|done| |].
  { apply Forall_forall. intros r _ c _. by eexists. }
  cbn [mbind option_bind]. unfold Frame.applymap. cbn [columns rows].
  rewrite C1, Hcols.
  set (d4 := mkDF _ _).
  assert (Forall2 (fun r r4 : row =>
            ∀ c s, c ∈ global_cols → r !!! c = Str s →
                   r4 !!! c = zeroed (Flt (default Float64.NaN (to_numeric s))))
            (rows df) (rows d4)) as R4.
  { unfold d4. cbn [rows]. rewrite <- !list_fmap_compose.
    apply Forall2_fmap_r. eapply Forall2_impl; [exact R1|].
    intros r r1 [P _] c s Hc Hs. unfold compose.
    rewrite zeroed_lookup by (rewrite Forall_forall in Hin; by apply Hin).
    specialize (P c Hc). rewrite Hs in P. simpl in P. by injection P as <-. }
  destruct (apply_columns_spec (py_int_cell int_of_str) global_cols d4)
    as (g & -> & Cg & Rg); [apply global_cols_NoDup|done| |].
  { apply Forall_forall. intros r4 Hr4 c Hc.
    apply list_elem_of_lookup in Hr4 as [i Hi].
    destruct (Forall2_lookup_r _ _ _ _ _ R4 Hi) as (r & Hr & P).
    rewrite Forall_forall in Hstr.
    destruct (Hstr r (list_elem_of_lookup_2 _ _ _ Hr) c Hc) as (s & Hs & Hneg).
    rewrite (P c s Hc Hs).
    destruct (zeroed_float (default Float64.NaN (to_numeric s))) as (z & -> & _).
    - destruct (to_numeric s); [simpl; congruence|done].
    - by eexists. }
  exists g. split; [done|]. split; [done|].
  apply Forall2_same_length_lookup. split.
  { rewrite (Forall2_length _ _ _ R4). by eapply Forall2_length. }
  intros i r r' Hr Hr'.
  destruct (Forall2_lookup_l _ _ _ _ _ R4 Hr) as (r4 & Hr4 & P4).
  destruct (Forall2_lookup_lr _ _ _ _ _ _ Rg Hr4 Hr') as [Pg _].
  intros c s Hc Hs. rewrite Forall_forall in Hstr.
  destruct (Hstr r (list_elem_of_lookup_2 _ _ _ Hr) c Hc) as (s' & Hs' & Hneg).
  rewrite Hs in Hs'. injection Hs' as <-.
  specialize (Pg c Hc). rewrite (P4 c s Hc Hs) in Pg.
  destruct (zeroed_float (default Float64.NaN (to_numeric s))) as (z & Hz & Z0 & Zf).
  { destruct (to_numeric s); [simpl; congruence|done]. }
  rewrite Hz in Pg. injection Pg as Pg. exists z. split; [done|]. split.
  - intros [E|[E|E]]; rewrite E in Z0; simpl in Z0; apply Z0; auto.
  - intros x E Hfin. rewrite E in Zf. by apply Zf.
Qed.

Lemma series_int_keeps_null c' d :
  Forall2 (fun r r' : row => ∀ c, r !!! c = null → r' !!! c = null)
          (rows d) (rows (series_int int_of_str c' d)).
Proof.
  unfold series_int.
  destruct (mapM _ _) as [vs|] eqn:Hm; [|by apply Forall_Forall2_diag, Forall_forall].
  cbn [rows]. apply mapM_Some in Hm.
  induction Hm as [|r v rs vs Hv Hm IH]; [constructor|].
  simpl. constructor; [|done]. intros c Hc.
  destruct (decide (c' = c)) as [->|Hne].
  - rewrite Hc in Hv. done.
  - by rewrite lookup_total_insert_ne.
Qed.

Lemma series_int_fold_keeps_null cs d :
  Forall2 (fun r r' : row => ∀ c, r !!! c = null → r' !!! c = null)
          (rows d) (rows (fold_left (fun acc c => series_int int_of_str c acc) cs d)).
Proof.
  revert d. induction cs as [|c cs IH]; intros d; simpl.
  - by apply Forall_Forall2_diag, Forall_forall.
  - eapply Forall2_trans_key; [|apply series_int_keeps_null|apply IH].
    intros x y z Hxy Hyz c0 Hc0. by apply Hyz, Hxy.
Qed.

Lemma us_to_numeric_spec us :
  Forall (fun c => c ∈ columns us) us_cols →
  ∃ u, us_to_numeric to_numeric int_of_str us = Some u
    ∧ Forall2 (fun r r' : row =>
         ∀ c s, c ∈ us_cols → r !!! c = Str s → to_numeric s = None →
                r' !!! c = null)
       (rows us) (rows u).
Proof.
  intros Hin. unfold us_to_numeric.
  destruct (apply_columns_spec (fun c => Some (coerce to_numeric c)) us_cols us)
    as (d1 & -> & C1 & R1); [apply us_cols_NoDup|done| |].
  { apply Forall_forall. intros r _ c _. by eexists. }
  cbn [mbind option_bind]. eexists. split; [done|].
  eapply Forall2_trans_key; [|exact R1|apply series_int_fold_keeps_null].
  intros r r1 r' [P _] Q c s Hc Hs Hnone. apply Q.
  specialize (P c Hc). rewrite Hs in P. simpl in P. rewrite Hnone in P.
  simpl in P. by injection P as <-.
Qed.
End WithParsers.

(** Claim C5, as amended.  In [global_data] (In[12]) every cell of a
    declared numeric column ends as an integer, which is zero when the parse
    fails or yields NaN or +inf, and the truncated number otherwise.  In
    [us_data] (In[33]) a cell whose parse fails ends as the missing value:
    nothing there fills it. *)
Theorem numeric_parse_failure (to_numeric : string → option spec_float)
  (int_of_str : string → option Z) (df us : DataFrame) :
  take 10 (drop 1 (columns df)) = global_cols →
  Forall (strings_in to_numeric global_cols) (rows df) →
  Forall (fun c => c ∈ columns us) us_cols →
  (∃ g, global_to_numeric to_numeric int_of_str df = Some g
    ∧ Forall2 (fun r r' : row =>
         ∀ c s, c ∈ global_cols → r !!! c = Str s →
           ∃ z, r' !!! c = Int z
                ∧ (to_numeric s = None ∨ to_numeric s = Some Float64.NaN
                   ∨ to_numeric s = Some Float64.pos_inf → z = 0)
                ∧ (∀ x, to_numeric s = Some x → Float64.is_finite x = true →
                        Float64.py_int x = Some z))
       (rows df) (rows g))
  ∧ (∃ u, us_to_numeric to_numeric int_of_str us = Some u
    ∧ Forall2 (fun r r' : row =>
         ∀ c s, c ∈ us_cols → r !!! c = Str s → to_numeric s = None →
                r' !!! c = null)
       (rows us) (rows u)).
Proof.
  intros Hcols Hstr Hus. split.
  - destruct (global_to_numeric_spec to_numeric int_of_str df Hcols Hstr)
      as (g & Hg & _ & HF).
    by exists g.
  - by apply us_to_numeric_spec.
Qed.

(** Claim C5 as stated fails: in [us_data] the empty TOTALRECOVERED cell of
    a record ends as NaN, not zero. *)
Lemma us_parse_failure_counterexample :
  Frame.column "TOTALRECOVERED" scraped_us = Some [Str ""; Str "600"]
  ∧ read_float "" = None
  ∧ us_to_numeric read_float read_nat scraped_us ≫= Frame.column "TOTALRECOVERED"
    = Some [null; Flt (Float64.of_int 600)]
  ∧ us_to_numeric read_float read_nat scraped_us ≫= Frame.column "TOTALCASES"
    = Some [Int 40; Int 1000]
  ∧ global_to_numeric read_float read_nat scraped_global
      ≫= Frame.column "TOTALRECOVERED" = Some [Int 0].
Proof. repeat split; vm_compute; reflexivity. Qed.

(** The hypotheses of [numeric_parse_failure] hold on two scraped tables,
    with a reader of decimal integers as the parser. *)
Lemma numeric_parse_witness :
  (∃ g, global_to_numeric read_float read_nat scraped_global = Some g
    ∧ Forall2 (fun r r' : row =>
         ∀ c s, c ∈ global_cols → r !!! c = Str s →
           ∃ z, r' !!! c = Int z
                ∧ (read_float s = None ∨ read_float s = Some Float64.NaN
                   ∨ read_float s = Some Float64.pos_inf → z = 0)
                ∧ (∀ x, read_float s = Some x → Float64.is_finite x = true →
                        Float64.py_int x = Some z))
       (rows scraped_global) (rows g))
  ∧ (∃ u, us_to_numeric read_float read_nat scraped_us = Some u
    ∧ Forall2 (fun r r' : row =>
         ∀ c s, c ∈ us_cols → r !!! c = Str s → read_float s = None →
                r' !!! c = null)
       (rows scraped_us) (rows u)).
Proof.
  apply (numeric_parse_failure read_float read_nat scraped_global scraped_us).
  - reflexivity.
  - constructor; [|constructor]. intros c Hc. unfold global_cols in Hc.
    repeat (apply elem_of_cons in Hc as [->|Hc];
            [eexists; split; [vm_compute; reflexivity | vm_compute; discriminate]|]).
    by apply elem_of_nil in Hc.
  - apply (bool_decide_unpack _). vm_compute. exact I.
Defined.

End NormalizerFacts.

(* ===================================================================== *)
(** * Further properties of the notebook's cells *)
(* ===================================================================== *)

(** ** White space at the ends of a string *)

Section SpaceFacts.
Import Text.

Lemma lstrip_space_step s :
  lstrip_space s = match space_rest s with Some t => lstrip_space t | None => s end.
Proof.
  destruct s as [|a [|b [|c s3]]]; simpl; [done| | |].
  - by destruct (is_space a).
  - destruct (is_space a); [done|]. by destruct (is_space2 a b).
  - destruct (is_space a); [done|]. destruct (is_space2 a b); [done|].
    by destruct (is_space3 a b c).
Qed.

Lemma space_rest_shorter s t :
  space_rest s = Some t → (String.length t < String.length s)%nat.
Proof.
  destruct s as [|a [|b [|c s3]]]; simpl; [done| | |].
  - destruct (is_space a); [|done]. intros [= <-]. simpl. lia.
  - destruct (is_space a); [intros [= <-]; simpl; lia|].
    destruct (is_space2 a b); [|done]. intros [= <-]. simpl. lia.
  - destruct (is_space a); [intros [= <-]; simpl; lia|].
    destruct (is_space2 a b); [intros [= <-]; simpl; lia|].
    destruct (is_space3 a b c); [|done]. intros [= <-]. simpl. lia.
Qed.

(** After [lstrip] no white-space character leads. *)
Lemma lstrip_space_leads s : space_rest (lstrip_space s) = None.
Proof.
  remember (String.length s) as n eqn:Hn. revert s Hn.
  induction n as [n IH] using lt_wf_ind. intros s ->.
  rewrite lstrip_space_step. destruct (space_rest s) as [t|] eqn:E; [|done].
  eapply IH; [|reflexivity]. by apply space_rest_shorter.
Qed.

Lemma lstrip_space_fixed s : space_rest s = None → lstrip_space s = s.
Proof. intros H. by rewrite lstrip_space_step, H. Qed.

Lemma space_rest_app p t x :
  space_rest p = Some t → space_rest (String.append p x) = Some (String.append t x).
Proof.
  destruct p as [|a [|b [|c p3]]]; unfold String.append; simpl;
    fold String.append; [done| | |].
  - destruct (is_space a); [|done]. intros [= <-]. reflexivity.
  - destruct (is_space a); [intros [= <-]; reflexivity|].
    destruct (is_space2 a b); [|done]. intros [= <-]. reflexivity.
  - destruct (is_space a); [intros [= <-]; reflexivity|].
    destruct (is_space2 a b); [intros [= <-]; reflexivity|].
    destruct (is_space3 a b c); [|done]. intros [= <-]. reflexivity.
Qed.

Lemma rstrip_space_prefix s : ∃ x, s = String.append (rstrip_space s) x.
Proof.
  induction s as [|a s [x IH]]; [by exists ""|]. cbn [rstrip_space].
  destruct (space_char (String a (rstrip_space s))).
  - by exists (String a s).
  - exists x. rewrite IH at 1. reflexivity.
Qed.

Lemma rstrip_space_idem s : rstrip_space (rstrip_space s) = rstrip_space s.
Proof.
  induction s as [|a s IH]; [done|]. cbn [rstrip_space].
  destruct (space_char (String a (rstrip_space s))) eqn:E; [done|].
  cbn [rstrip_space]. by rewrite IH, E.
Qed.

(** Stripping the right end brings no white space to the left end. *)
Lemma rstrip_space_leads s : space_rest s = None → space_rest (rstrip_space s) = None.
Proof.
  intros H. destruct (space_rest (rstrip_space s)) as [t|] eqn:E; [|done].
  destruct (rstrip_space_prefix s) as [x Hx].
  apply (space_rest_app _ _ x) in E. rewrite <- Hx in E. congruence.
Qed.

Lemma strip_leads s : space_rest (strip s) = None.
Proof. apply rstrip_space_leads, lstrip_space_leads. Qed.

Lemma strip_trails s : rstrip_space (strip s) = strip s.
Proof. apply rstrip_space_idem. Qed.

Lemma strip_fixed s : space_rest s = None → rstrip_space s = s → strip s = s.
Proof. intros H1 H2. unfold strip. by rewrite lstrip_space_fixed. Qed.

Lemma strip_idem s : strip (strip s) = strip s.
Proof. apply strip_fixed; [apply strip_leads|apply strip_trails]. Qed.

End SpaceFacts.

(** ** Stripping and cleaning twice *)

Section TwiceFacts.
Import Text.

Lemma lstrip_fixed p s :
  (∀ a, first_char s = Some a → p a = false) → lstrip p s = s.
Proof. destruct s as [|a s]; [done|]. intros H. simpl. by rewrite (H a). Qed.

Lemma rstrip_fixed p s :
  (∀ a, last_char s = Some a → p a = false) → rstrip p s = s.
Proof.
  induction s as [|a s IH]; [done|]. intros H. simpl.
  destruct s as [|b s].
  - simpl. by rewrite (H a).
  - rewrite IH; [done|]. intros c Hc. apply H. exact Hc.
Qed.

Lemma strip_chars_fixed p s :
  (∀ a, first_char s = Some a → p a = false) →
  (∀ a, last_char s = Some a → p a = false) →
  strip_chars p s = s.
Proof.
  intros Hf Hl. unfold strip_chars. rewrite lstrip_fixed by done.
  by apply rstrip_fixed.
Qed.

Lemma strip_chars_ends p s :
  (∀ a, first_char (strip_chars p s) = Some a → p a = false)
  ∧ (∀ a, last_char (strip_chars p s) = Some a → p a = false).
Proof.
  unfold strip_chars. split; intros a H.
  - by apply first_char_rstrip, first_char_lstrip in H.
  - by apply last_char_rstrip in H.
Qed.

Lemma strip_chars_idem p s : strip_chars p (strip_chars p s) = strip_chars p s.
Proof. destruct (strip_chars_ends p s). by apply strip_chars_fixed. Qed.

Lemma remove_char_fixed c s : contains c s = false → remove_char c s = s.
Proof.
  induction s as [|a s IH]; [done|]. simpl.
  intros [Ha Hs]%orb_false_iff. rewrite Ha. by rewrite IH.
Qed.

Lemma str_strip_idem c : Reconciler.str_strip (Reconciler.str_strip c) = Reconciler.str_strip c.
Proof. destruct c; simpl; [|done|done]. f_equal. apply strip_idem. Qed.

Lemma map_column_twice key f df :
  (∀ c, f (f c) = f c) →
  Frame.map_column key f df ≫= Frame.map_column key f = Frame.map_column key f df.
Proof.
  intros Hf. unfold Frame.map_column. case_bool_decide as Hk; [|done].
  cbn [mbind option_bind columns rows]. rewrite bool_decide_eq_true_2 by done.
  f_equal. f_equal. rewrite <- list_fmap_compose. apply list_fmap_ext.
  intros i r _. unfold compose.
  rewrite lookup_total_insert_eq, Hf. apply insert_insert_eq.
Qed.

(** Property X1.  White space is stripped from the key column more than once
    in the notebook (lines 1072 and 2337 for STATE, 579 and 2126 for
    COUNTRY): a stripped string neither starts nor ends with a white-space
    character, and stripping a string, a cell or the key column of a frame a
    second time changes nothing. *)
Theorem strip_key_twice (key : string) (df : DataFrame) (s : string) :
  Text.space_rest (Text.strip s) = None
  ∧ Text.rstrip_space (Text.strip s) = Text.strip s
  ∧ Text.strip (Text.strip s) = Text.strip s
  ∧ Reconciler.strip_key key df ≫= Reconciler.strip_key key
    = Reconciler.strip_key key df.
Proof.
  split; [apply strip_leads|]. split; [apply strip_trails|].
  split; [apply strip_idem|].
  unfold Reconciler.strip_key. apply map_column_twice, str_strip_idem.
Qed.

Lemma remove_comma_keeps_no_newline s :
  contains newline (remove_char comma (remove_char newline s)) = false.
Proof.
  induction s as [|a s IH]; simpl; [done|].
  destruct (Ascii.eqb a newline) eqn:E; [done|].
  simpl. destruct (Ascii.eqb a comma); [done|]. simpl. by rewrite E.
Qed.

Lemma clean_cell_free s :
  contains newline (Cleaning.clean_cell s) = false
  ∧ contains comma (Cleaning.clean_cell s) = false.
Proof.
  unfold Cleaning.clean_cell, strip_plus, strip_chars. split.
  - apply contains_rstrip, contains_lstrip, remove_comma_keeps_no_newline.
  - apply contains_rstrip, contains_lstrip, remove_char_absent.
Qed.

(** Property X2.  Cell cleaning (lines 325-328, 629-632) is idempotent: a
    cleaned cell, and a cleaned table, is left as it is by a second
    cleaning. *)
Theorem clean_cells_twice (t : RawTable) (s : string) :
  Cleaning.clean_cell (Cleaning.clean_cell s) = Cleaning.clean_cell s
  ∧ body (Cleaning.clean_cells (Cleaning.clean_cells t))
    = body (Cleaning.clean_cells t).
Proof.
  assert (∀ x, Cleaning.clean_cell (Cleaning.clean_cell x) = Cleaning.clean_cell x) as H.
  { intros x.
    destruct (clean_cell_free x) as [Hn Hc].
    unfold Cleaning.clean_cell at 1.
    rewrite (remove_char_fixed newline) by done.
    rewrite (remove_char_fixed comma) by done.
    unfold Cleaning.clean_cell, strip_plus. apply strip_chars_idem. }
  split; [apply H|].
  rewrite !clean_cells_body, map_map. apply map_ext. intros r.
  rewrite map_map. apply map_ext. intros x. apply H.
Qed.

End TwiceFacts.


(** ** Column labels *)

Section HeaderFacts.
Import Text Headers.

Lemma map_chars_compose f g s : map_chars f (map_chars g s) = map_chars (fun a => f (g a)) s.
Proof. induction s as [|a s IH]; simpl; [done|]. by rewrite IH. Qed.

Lemma map_chars_ext f g s : (∀ a, f a = g a) → map_chars f s = map_chars g s.
Proof. intros H. induction s as [|a s IH]; simpl; [done|]. by rewrite H, IH. Qed.

Lemma first_char_map f s : first_char (map_chars f s) = f <$> first_char s.
Proof. by destruct s. Qed.

Lemma last_char_map f s : last_char (map_chars f s) = f <$> last_char s.
Proof.
  induction s as [|a s IH]; [done|]. simpl. destruct s as [|b s]; [done|].
  exact IH.
Qed.

Lemma lstrip_map p f s :
  (∀ a, p (f a) = p a) → lstrip p (map_chars f s) = map_chars f (lstrip p s).
Proof.
  intros H. induction s as [|a s IH]; [done|]. simpl. rewrite H.
  by destruct (p a).
Qed.

Lemma rstrip_map p f s :
  (∀ a, p (f a) = p a) → rstrip p (map_chars f s) = map_chars f (rstrip p s).
Proof.
  intros H. induction s as [|a s IH]; [done|]. simpl. rewrite IH, H.
  destruct (rstrip p s); simpl; [by destruct (p a)|done].
Qed.

Lemma upper_char_space a : is_space (upper_char a) = is_space a.
Proof. by destruct a as [[] [] [] [] [] [] [] []]. Qed.

Lemma upper_char_idem a : upper_char (upper_char a) = upper_char a.
Proof. by destruct a as [[] [] [] [] [] [] [] []]. Qed.

Lemma upper_underscore a : upper_char (underscore_char a) = underscore_char (upper_char a).
Proof. by destruct a as [[] [] [] [] [] [] [] []]. Qed.

Lemma underscore_char_idem a : underscore_char (underscore_char a) = underscore_char a.
Proof. by destruct a as [[] [] [] [] [] [] [] []]. Qed.

Lemma underscore_char_space a : is_space a = false → is_space (underscore_char a) = false.
Proof. by destruct a as [[] [] [] [] [] [] [] []]. Qed.

Lemma underscore_char_not_blank a : Ascii.eqb (underscore_char a) " " = false.
Proof. by destruct a as [[] [] [] [] [] [] [] []]. Qed.

Lemma upper_underscore_not_lower a : is_lower (underscore_char (upper_char a)) = false.
Proof. by destruct a as [[] [] [] [] [] [] [] []]. Qed.

Lemma upper_underscore_comm s : upper (underscore s) = underscore (upper s).
Proof.
  unfold upper, underscore. rewrite !map_chars_compose.
  apply map_chars_ext, upper_underscore.
Qed.

Lemma upper_idem s : upper (upper s) = upper s.
Proof. unfold upper. rewrite map_chars_compose. apply map_chars_ext, upper_char_idem. Qed.

Lemma underscore_idem s : underscore (underscore s) = underscore s.
Proof.
  unfold underscore. rewrite map_chars_compose.
  apply map_chars_ext, underscore_char_idem.
Qed.

(** On ASCII text the white space is one byte long, and [strip] is the
    strip of the characters of [is_space]. *)
Lemma ascii_not_space2 a b : is_ascii a = true → is_space2 a b = false.
Proof.
  unfold is_ascii, is_space2. intros Ha%N.ltb_lt.
  destruct (N.eqb_spec (N_of_ascii a) 194) as [E|E]; [lia|done].
Qed.

Lemma ascii_not_space3 a b c : is_ascii a = true → is_space3 a b c = false.
Proof.
  unfold is_ascii, is_space3. intros Ha%N.ltb_lt.
  destruct (N.eqb_spec (N_of_ascii a) 225) as [E|E]; [lia|].
  destruct (N.eqb_spec (N_of_ascii a) 226) as [E'|E']; [lia|].
  destruct (N.eqb_spec (N_of_ascii a) 227) as [E''|E'']; [lia|done].
Qed.

Lemma lstrip_space_ascii s :
  all_chars is_ascii s = true → lstrip_space s = lstrip is_space s.
Proof.
  induction s as [|a s1 IH]; [done|]. cbn [all_chars].
  intros [Ha Hs]%andb_true_iff. cbn [lstrip_space lstrip].
  destruct (is_space a); [by apply IH|].
  destruct s1 as [|b s2]; [done|]. rewrite ascii_not_space2 by done.
  destruct s2 as [|c s3]; [done|]. by rewrite ascii_not_space3.
Qed.

Lemma rstrip_space_ascii s :
  all_chars is_ascii s = true → rstrip_space s = rstrip is_space s.
Proof.
  induction s as [|a s1 IH]; [done|]. cbn [all_chars].
  intros [Ha Hs]%andb_true_iff. cbn [rstrip_space rstrip]. rewrite IH by done.
  destruct (rstrip is_space s1) as [|b [|c [|d t]]]; cbn [space_char].
  - by destruct (is_space a).
  - by rewrite ascii_not_space2.
  - by rewrite ascii_not_space3.
  - done.
Qed.

Lemma all_chars_lstrip p q s : all_chars p s = true → all_chars p (lstrip q s) = true.
Proof.
  induction s as [|a s IH]; [done|]. simpl. intros [Ha Hs]%andb_true_iff.
  destruct (q a); [by apply IH|]. simpl. by rewrite Ha, Hs.
Qed.

Lemma all_chars_rstrip p q s : all_chars p s = true → all_chars p (rstrip q s) = true.
Proof.
  induction s as [|a s IH]; [done|]. simpl. intros [Ha Hs]%andb_true_iff.
  specialize (IH Hs). destruct (rstrip q s) as [|b t].
  - destruct (q a); [done|]. simpl. by rewrite Ha.
  - cbn [all_chars] in *. by rewrite Ha, IH.
Qed.

Lemma all_chars_map_chars p f s :
  (∀ a, p a = true → p (f a) = true) →
  all_chars p s = true → all_chars p (map_chars f s) = true.
Proof.
  intros H. induction s as [|a s IH]; [done|]. simpl.
  intros [Ha Hs]%andb_true_iff. by rewrite H, IH.
Qed.

Lemma upper_char_ascii a : is_ascii a = true → is_ascii (upper_char a) = true.
Proof. by destruct a as [[] [] [] [] [] [] [] []]. Qed.

Lemma underscore_char_ascii a : is_ascii a = true → is_ascii (underscore_char a) = true.
Proof. by destruct a as [[] [] [] [] [] [] [] []]. Qed.

Lemma strip_ascii s : all_chars is_ascii s = true → strip s = strip_chars is_space s.
Proof.
  intros H. unfold strip, strip_chars. rewrite lstrip_space_ascii by done.
  apply rstrip_space_ascii. by apply all_chars_lstrip.
Qed.

Lemma strip_chars_ascii p s :
  all_chars is_ascii s = true → all_chars is_ascii (strip_chars p s) = true.
Proof. intros H. unfold strip_chars. by apply all_chars_rstrip, all_chars_lstrip. Qed.

Lemma upper_ascii s : all_chars is_ascii s = true → all_chars is_ascii (upper s) = true.
Proof. apply all_chars_map_chars, upper_char_ascii. Qed.

Lemma underscore_ascii s :
  all_chars is_ascii s = true → all_chars is_ascii (underscore s) = true.
Proof. apply all_chars_map_chars, underscore_char_ascii. Qed.

Lemma strip_chars_upper s :
  strip_chars is_space (upper s) = upper (strip_chars is_space s).
Proof.
  unfold strip_chars, upper.
  rewrite lstrip_map, rstrip_map by apply upper_char_space. done.
Qed.

Lemma strip_chars_underscore s :
  strip_chars is_space (underscore (strip_chars is_space s))
  = underscore (strip_chars is_space s).
Proof.
  destruct (strip_chars_ends is_space s) as [Hf Hl].
  apply strip_chars_fixed.
  - intros a. unfold underscore. rewrite first_char_map.
    destruct (first_char (strip_chars is_space s)) as [b|] eqn:E; [|done].
    intros [= <-]. apply underscore_char_space. by apply Hf.
  - intros a. unfold underscore. rewrite last_char_map.
    destruct (last_char (strip_chars is_space s)) as [b|] eqn:E; [|done].
    intros [= <-]. apply underscore_char_space. by apply Hl.
Qed.

(** The canonical form of an ASCII label. *)
Lemma canonical_ascii h :
  all_chars is_ascii h = true →
  canonical h = underscore (upper (strip_chars is_space h))
  ∧ all_chars is_ascii (canonical h) = true.
Proof.
  intros H. unfold canonical.
  rewrite (strip_ascii h) by done.
  rewrite strip_ascii by (by apply strip_chars_ascii).
  rewrite strip_chars_idem. split; [done|].
  by apply underscore_ascii, upper_ascii, strip_chars_ascii.
Qed.

Lemma contains_map_chars c f s :
  (∀ a, Ascii.eqb (f a) c = false) → contains c (map_chars f s) = false.
Proof. intros H. induction s as [|a s IH]; [done|]. simpl. by rewrite H, IH. Qed.

Lemma all_chars_map p f s :
  (∀ a, p (f a) = true) → all_chars p (map_chars f s) = true.
Proof. intros H. induction s as [|a s IH]; [done|]. simpl. by rewrite H, IH. Qed.

(** Property X3.  Header canonicalisation (lines 189-190, 247-248, 289-290)
    of a label of ASCII characters is idempotent; the canonical label is
    ASCII, holds no blank and no lower-case letter, and starts and ends with
    no white space. *)
Theorem canonical_header_idempotent (h : string) (t : RawTable) :
  all_chars is_ascii h = true →
  canonical (canonical h) = canonical h
  ∧ all_chars is_ascii (canonical h) = true
  ∧ contains " " (canonical h) = false
  ∧ all_chars (fun a => negb (is_lower a)) (canonical h) = true
  ∧ strip (canonical h) = canonical h
  ∧ (Forall (fun x => all_chars is_ascii x = true) (headers t) →
     canonical_headers (canonical_headers t) = canonical_headers t).
Proof.
  assert (∀ x, all_chars is_ascii x = true →
               strip_chars is_space (canonical x) = canonical x) as Hstrip.
  { intros x Hx. destruct (canonical_ascii x Hx) as [-> _].
    rewrite <- strip_chars_upper. apply strip_chars_underscore. }
  assert (∀ x, all_chars is_ascii x = true → canonical (canonical x) = canonical x)
    as Hidem.
  { intros x Hx. destruct (canonical_ascii x Hx) as [E Hc].
    destruct (canonical_ascii (canonical x) Hc) as [-> _].
    rewrite Hstrip by done. rewrite E.
    rewrite upper_underscore_comm, upper_idem. apply underscore_idem. }
  intros H. destruct (canonical_ascii h H) as [E Hc].
  split; [by apply Hidem|]. split; [done|]. split; [|split; [|split]].
  - unfold canonical, underscore. apply contains_map_chars, underscore_char_not_blank.
  - unfold canonical, underscore, upper. rewrite map_chars_compose.
    apply all_chars_map. intros a. by rewrite upper_underscore_not_lower.
  - rewrite strip_ascii by done. by apply Hstrip.
  - intros Hall. unfold canonical_headers. cbn [headers body]. f_equal.
    rewrite map_map. apply map_ext_Forall.
    eapply Forall_impl; [exact Hall|]. intros x Hx. by apply Hidem.
Qed.

(** The hypotheses of [canonical_header_idempotent] hold for a header of the
    scraped table. *)
Lemma canonical_header_witness :
  canonical (canonical " Total Cases ") = canonical " Total Cases "
  ∧ all_chars is_ascii (canonical " Total Cases ") = true
  ∧ contains " " (canonical " Total Cases ") = false
  ∧ all_chars (fun a => negb (is_lower a)) (canonical " Total Cases ") = true
  ∧ strip (canonical " Total Cases ") = canonical " Total Cases "
  ∧ (Forall (fun x => all_chars is_ascii x = true)
            (headers (mkRaw [" Total Cases "; "Country,Other"] [])) →
     canonical_headers (canonical_headers (mkRaw [" Total Cases "; "Country,Other"] []))
     = canonical_headers (mkRaw [" Total Cases "; "Country,Other"] [])).
Proof.
  apply (canonical_header_idempotent " Total Cases "
           (mkRaw [" Total Cases "; "Country,Other"] [])).
  vm_compute. reflexivity.
Defined.

End HeaderFacts.


(** ** Row trimming and scraped counts *)

Section TrimFacts.

Lemma trimmed_lookup {A} (a b : nat) (l : list A) (i : nat) :
  take (length l - (a + b)) (drop a l) !! i
  = if bool_decide (i < length l - (a + b))%nat then l !! (a + i)%nat else None.
Proof.
  case_bool_decide as Hi.
  - rewrite lookup_take_lt by done. apply lookup_drop.
  - apply lookup_take_ge. lia.
Qed.

(** Property X4.  Row trimming (lines 331-334 for global_data, 642-645 for
    us_data) raises when the table has fewer records than are dropped off the
    top (8, resp. 1); otherwise it keeps the headers and exactly the records
    from position 8 (resp. 1) up to the last 8 (resp. 13), in order, which is
    no record at all for a table of up to 16 (resp. 14) records. *)
Theorem trim_keeps_the_middle (t : RawTable) (i : nat) :
  let n := length (body t) in
  Trim.trim_global t
  = (if bool_decide (8 ≤ n)%nat
     then Some (mkRaw (headers t) (take (n - 16) (drop 8 (body t)))) else None)
  ∧ Trim.trim_us t
    = (if bool_decide (1 ≤ n)%nat
       then Some (mkRaw (headers t) (take (n - 14) (drop 1 (body t)))) else None)
  ∧ length (take (n - 16) (drop 8 (body t))) = (n - 16)%nat
  ∧ length (take (n - 14) (drop 1 (body t))) = (n - 14)%nat
  ∧ take (n - 16) (drop 8 (body t)) !! i
    = (if bool_decide (i < n - 16)%nat then body t !! (8 + i)%nat else None)
  ∧ take (n - 14) (drop 1 (body t)) !! i
    = (if bool_decide (i < n - 14)%nat then body t !! (1 + i)%nat else None).
Proof.
  intros n. unfold Trim.trim_global, Trim.trim_us, Trim.drop_first, Trim.drop_last.
  split_and!.
  - fold n. case_bool_decide; [|done]. cbn [mbind option_bind].
    rewrite length_drop. fold n. do 3 f_equal. lia.
  - fold n. case_bool_decide; [|done]. cbn [mbind option_bind].
    rewrite length_drop. fold n. do 3 f_equal. lia.
  - rewrite length_take, length_drop. lia.
  - rewrite length_take, length_drop. lia.
  - apply (trimmed_lookup 8 8).
  - apply (trimmed_lookup 1 13).
Qed.

Lemma remove_char_app c s1 s2 :
  Text.remove_char c (String.app s1 s2)
  = String.app (Text.remove_char c s1) (Text.remove_char c s2).
Proof.
  induction s1 as [|a s1 IH]; [done|]. simpl.
  destruct (Ascii.eqb a c); [done|]. simpl. by rewrite IH.
Qed.

(** Property X5.  The scraped recovered counts (lines 739-741 and the same
    lines per state) are read with every comma ignored, wherever it stands: a
    comma inserted at any place of the text changes nothing, and a text
    without commas is read as it is. *)
Theorem recovered_count_ignores_commas (int_of_str : string → option Z)
  (s1 s2 s : string) :
  Scrape.recovered_count int_of_str (String.app s1 (String Text.comma s2))
  = Scrape.recovered_count int_of_str (String.app s1 s2)
  ∧ Text.contains Text.comma (Text.remove_char Text.comma s) = false
  ∧ (if Text.contains Text.comma s then True
     else Scrape.recovered_count int_of_str s = int_of_str s).
Proof.
  unfold Scrape.recovered_count. split_and!.
  - rewrite !remove_char_app. simpl. done.
  - apply remove_char_absent.
  - destruct (Text.contains Text.comma s) eqn:E; [done|].
    by rewrite remove_char_fixed.
Qed.

End TrimFacts.


(** ** How many records a left merge has; [set_index] and [reset_index] *)

Section MergeCountFacts.
Import Merge NullRepair MergeCount.

Lemma merge_one_copies on l r lr : length (merge_one on l r lr) = copies on r lr.
Proof.
  unfold merge_one, copies. destruct (matching on (lr !!! on) r) as [|x xs]; [done|].
  rewrite length_fmap. simpl. lia.
Qed.

Lemma flat_map_length_sum {A B} (f : A → list B) (l : list A) :
  length (flat_map f l) = sum_list ((fun x => length (f x)) <$> l).
Proof. induction l as [|x xs IH]; simpl; [done|]. by rewrite length_app, IH. Qed.

Lemma sum_list_bounds {A} (g : A → nat) (l : list A) (lo hi : nat) :
  (∀ x, lo ≤ g x ≤ hi)%nat →
  (length l * lo ≤ sum_list (g <$> l) ≤ length l * hi)%nat.
Proof.
  intros H. induction l as [|x xs IH]; [simpl; lia|].
  rewrite fmap_cons. cbn [sum_list length]. specialize (H x).
  rewrite !Nat.mul_succ_l. cbn [sum_list_with] in *. unfold sum_list in *. simpl in *. lia.
Qed.

Lemma matching_length on k r : (length (matching on k r) ≤ length (rows r))%nat.
Proof. unfold matching. apply length_filter. Qed.

(** Property X6.  A left merge (lines 507, 566, 581) raises exactly when the
    key is not a column of both tables.  Otherwise every base record yields
    as many merged records as auxiliary records share its key, and one when
    none does: whatever the auxiliary table, no base record is lost, and the
    merged table has at most (records of the base) x (records of the
    auxiliary, at least 1) records. *)
Theorem merge_left_record_count (on : string) (l r : DataFrame) :
  (fun m => length (rows m)) <$> merge_left on l r
  = (if bool_decide (on ∈ columns l ∧ on ∈ columns r)
     then Some (sum_list (copies on r <$> rows l)) else None)
  ∧ (length (rows l) ≤ sum_list (copies on r <$> rows l))%nat
  ∧ (sum_list (copies on r <$> rows l)
     ≤ length (rows l) * max 1 (length (rows r)))%nat.
Proof.
  split; [|split].
  - unfold merge_left. case_bool_decide; [|done]. simpl. f_equal.
    rewrite flat_map_length_sum. f_equal. apply list_fmap_ext.
    intros i lr _. apply merge_one_copies.
  - pose proof (sum_list_bounds (copies on r) (rows l) 1 (max 1 (length (rows r)))) as H.
    destruct H as [H _]; [|lia].
    intros lr. unfold copies. pose proof (matching_length on (lr !!! on) r). lia.
  - pose proof (sum_list_bounds (copies on r) (rows l) 1 (max 1 (length (rows r)))) as H.
    destruct H as [_ H]; [|lia].
    intros lr. unfold copies. pose proof (matching_length on (lr !!! on) r). lia.
Qed.

(** Property X7.  Moving a column to the index and back (lines 569-570;
    1078 and 1144) keeps the number and the order of the records and every
    cell of every record; the labels in between are the cells of the key
    column; afterwards the key column stands first and the other columns
    keep their order. *)
Theorem index_round_trip (key : string) (df : DataFrame) :
  key ∈ columns df →
  ∃ f, Indexed.set_index key df = Some f
    ∧ Indexed.labels f = Frame.keys key df
    ∧ columns (Indexed.reset_index f)
      = key :: filter (fun c => c ≠ key) (columns df)
    ∧ (∀ c, c ∈ columns (Indexed.reset_index f) ↔ c ∈ columns df)
    ∧ Forall2 (fun r r' : row => ∀ c, r' !!! c = r !!! c)
              (rows df) (rows (Indexed.reset_index f)).
Proof.
  intros Hk. unfold Indexed.set_index. rewrite bool_decide_eq_true_2 by done.
  eexists. split; [done|]. split; [|split; [|split]].
  - unfold Indexed.labels, Frame.keys. cbn [irows]. rewrite <- list_fmap_compose.
    by apply list_fmap_ext.
  - done.
  - intros c. unfold Indexed.reset_index. cbn [columns index_name icolumns].
    rewrite elem_of_cons, list_elem_of_filter. split.
    + intros [->|[_ ?]]; done.
    + intros Hc. destruct (decide (c = key)); [by left|by right].
  - unfold Indexed.reset_index. cbn [rows irows index_name].
    rewrite <- list_fmap_compose. apply Forall2_fmap_r, Forall_Forall2_diag, Forall_forall.
    intros r _ c. unfold compose. cbn [fst snd].
    apply (reindexed_lookup key r c).
Qed.

Lemma index_round_trip_witness :
  ∃ f, Indexed.set_index "COUNTRY" Samples.world = Some f
    ∧ Indexed.labels f = Frame.keys "COUNTRY" Samples.world
    ∧ columns (Indexed.reset_index f)
      = "COUNTRY"%string :: filter (fun c => c ≠ "COUNTRY"%string) (columns Samples.world)
    ∧ (∀ c, c ∈ columns (Indexed.reset_index f) ↔ c ∈ columns Samples.world)
    ∧ Forall2 (fun r r' : row => ∀ c, r' !!! c = r !!! c)
              (rows Samples.world) (rows (Indexed.reset_index f)).
Proof.
  apply (index_round_trip "COUNTRY" Samples.world). vm_compute. constructor.
Defined.

End MergeCountFacts.


(** ** The export of In[22] merged back unedited *)

Section ExportFacts.
Import Merge NullRepair.

Lemma remerge_cells (df upd : DataFrame) :
  "COUNTRY" ∈ columns df → "GDP_PER_CAPITA" ∈ columns df →
  NoDup (Frame.keys "COUNTRY" df) →
  columns upd = ["COUNTRY"; "GDP_PER_CAPITA"]%string →
  Forall2 (fun r u : row => u !!! "COUNTRY" = r !!! "COUNTRY") (rows df) (rows upd) →
  ∃ df', remerge upd df = Some df'
    ∧ columns df'
      = filter (fun c => c ≠ "GDP_PER_CAPITA"%string) (columns df) ++ ["GDP_PER_CAPITA"%string]
    ∧ Forall2 (fun r r' : row =>
         ∀ c, c ∈ columns df → c ≠ "GDP_PER_CAPITA"%string → r' !!! c = r !!! c)
       (rows df) (rows df')
    ∧ Forall2 (fun u r' : row => r' !!! "GDP_PER_CAPITA" = u !!! "GDP_PER_CAPITA")
       (rows upd) (rows df').
Proof.
  intros Hc Hg Hnd Hcols Hru.
  assert (Frame.keys "COUNTRY" upd = Frame.keys "COUNTRY" df) as Hkeys.
  { unfold Frame.keys. symmetry. apply Forall2_fmap_eq.
    eapply Forall2_impl; [exact Hru|]. intros r u H1. by rewrite H1. }
  unfold remerge. rewrite drop_column_Some by done. cbn [mbind option_bind].
  set (df1 := mkDF _ _).
  assert ("COUNTRY" ∈ columns df1) as Hc1.
  { unfold df1. simpl. apply list_elem_of_filter. split; [done|done]. }
  assert ("COUNTRY" ∈ columns upd) as Hcu by (rewrite Hcols; constructor).
  assert (overlap "COUNTRY" df1 upd = []) as Hov.
  { unfold overlap. apply filter_none. intros c Hin [Hne Hu].
    unfold df1 in Hin. simpl in Hin. apply list_elem_of_filter in Hin as [Hng _].
    rewrite Hcols in Hu. apply elem_of_cons in Hu as [->|Hu]; [done|].
    apply list_elem_of_singleton in Hu. done. }
  assert (NoDup (Frame.keys "COUNTRY" upd)) as Hndu by (by rewrite Hkeys).
  destruct (merge_left_unique "COUNTRY" df1 upd Hc1 Hcu Hndu) as (m & Hm & Hrows).
  exists m. split; [done|].
  assert (∀ i r u, rows df !! i = Some r → rows upd !! i = Some u →
            partner "COUNTRY" upd (delete "GDP_PER_CAPITA" r) = Some u) as Hpart.
  { intros i r u Hr Hu. eapply partner_at; [done|exact Hu|].
    rewrite lookup_total_delete_ne by done.
    by destruct (Forall2_lookup_lr _ _ _ _ _ _ Hru Hr Hu). }
  split; [|split].
  - unfold merge_left in Hm. rewrite bool_decide_eq_true_2 in Hm by done.
    injection Hm as <-. cbn [columns]. unfold merged_columns. rewrite Hov.
    unfold right_columns. rewrite Hcols.
    assert (∀ (sfx : string) (cs : list string), suffixed [] sfx <$> cs = cs) as Hid.
    { intros sfx cs. induction cs as [|c cs IH]; [done|].
      rewrite fmap_cons, IH. by rewrite suffixed_nil. }
    rewrite !Hid. f_equal.
  - rewrite Hrows. unfold df1 at 2. cbn [rows].
    rewrite <- list_fmap_compose. apply Forall2_fmap_r.
    apply Forall2_same_length_lookup. split; [done|].
    intros i r r' Hr Hr'. rewrite Hr in Hr'. injection Hr' as <-.
    intros c Hin Hne. unfold compose. rewrite merged_row_left; [|done|].
    + by rewrite lookup_total_delete_ne.
    + unfold df1. simpl. by apply list_elem_of_filter.
  - rewrite Hrows. unfold df1 at 2. cbn [rows].
    rewrite <- list_fmap_compose. apply Forall2_fmap_r.
    apply Forall2_same_length_lookup. split; [symmetry; by eapply Forall2_length|].
    intros i u r Hu Hr. unfold compose.
    rewrite (Hpart i r u Hr Hu).
    rewrite merged_row_right; [|done| |done].
    + apply right_cell_matched, unmatched_false. intros lr Hlr.
      unfold df1 in Hlr. cbn [rows] in Hlr.
      apply list_elem_of_fmap in Hlr as (r0 & -> & Hr0).
      apply list_elem_of_lookup in Hr0 as [j Hj].
      destruct (Forall2_lookup_l _ _ _ _ _ Hru Hj) as (u0 & Hu0 & _).
      rewrite (Hpart j r0 u0 Hj Hu0). by eexists.
    + rewrite Hcols. repeat constructor.
Qed.

(** Property X8.  Dropping GDP_PER_CAPITA and merging back the frame
    [gdp_entry] of In[22] itself, with no value edited (lines 545, 563, 566),
    gives back the table, cell for cell, when the keys are pairwise
    distinct: only the order of the columns changes, GDP_PER_CAPITA moving to
    the end, and no suffixed column appears. *)
Theorem unedited_export_round_trip (df : DataFrame) :
  "COUNTRY" ∈ columns df → "GDP_PER_CAPITA" ∈ columns df →
  NoDup (Frame.keys "COUNTRY" df) →
  ∃ e df', gdp_entry df = Some e
    ∧ Frame.keys "COUNTRY" e = Frame.keys "COUNTRY" df
    ∧ remerge e df = Some df'
    ∧ columns df'
      = filter (fun c => c ≠ "GDP_PER_CAPITA"%string) (columns df) ++ ["GDP_PER_CAPITA"%string]
    ∧ Forall2 (fun r r' : row => ∀ c, c ∈ columns df → r' !!! c = r !!! c)
              (rows df) (rows df').
Proof.
  intros Hc Hg Hnd. unfold gdp_entry. rewrite select_Some by (repeat constructor; done).
  set (e := mkDF _ _).
  assert (Forall2 (fun r u : row =>
            u !!! "COUNTRY" = r !!! "COUNTRY"
            ∧ u !!! "GDP_PER_CAPITA" = r !!! "GDP_PER_CAPITA") (rows df) (rows e)) as Hre.
  { unfold e. cbn [rows]. apply Forall2_fmap_r, Forall_Forall2_diag, Forall_forall.
    intros r _. split; apply select_row_lookup; repeat constructor. }
  destruct (remerge_cells df e) as (df' & Hm & Hcols & Hleft & Hright);
    [done|done|done|done| |].
  { eapply Forall2_impl; [exact Hre|]. by intros r u [? _]. }
  exists e, df'. split; [done|]. split.
  { unfold Frame.keys. apply Forall2_fmap_eq. apply Forall2_flip.
    eapply Forall2_impl; [exact Hre|]. by intros r u [? _]. }
  split; [done|]. split; [done|].
  apply Forall2_same_length_lookup. split; [by eapply Forall2_length|].
  intros i r r' Hr Hr' c Hin.
  destruct (Forall2_lookup_l _ _ _ _ _ Hre Hr) as (u & Hu & _ & HG).
  destruct (decide (c = "GDP_PER_CAPITA"%string)) as [->|Hne].
  - rewrite (Forall2_lookup_lr _ _ _ _ _ _ Hright Hu Hr'). done.
  - by apply (Forall2_lookup_lr _ _ _ _ _ _ Hleft Hr Hr').
Qed.

Lemma unedited_export_witness :
  ∃ e df', gdp_entry Samples.gdp_table = Some e
    ∧ Frame.keys "COUNTRY" e = Frame.keys "COUNTRY" Samples.gdp_table
    ∧ remerge e Samples.gdp_table = Some df'
    ∧ columns df'
      = filter (fun c => c ≠ "GDP_PER_CAPITA"%string) (columns Samples.gdp_table)
        ++ ["GDP_PER_CAPITA"%string]
    ∧ Forall2 (fun r r' : row => ∀ c, c ∈ columns Samples.gdp_table → r' !!! c = r !!! c)
              (rows Samples.gdp_table) (rows df').
Proof.
  apply (unedited_export_round_trip Samples.gdp_table).
  - vm_compute. constructor.
  - vm_compute. repeat constructor.
  - apply (bool_decide_unpack _). vm_compute. exact I.
Defined.

End ExportFacts.


(** ** The order of the replacements; the vessels *)

Section AliasOrder.
Import Reconciler.

Lemma lookup_alias_elem t s b : NoDup t.*1 → (s, b) ∈ t → lookup_alias t s = Some b.
Proof.
  induction t as [|[a c] t IH]; intros Hnd Hin; [by apply elem_of_nil in Hin|].
  rewrite fmap_cons in Hnd. apply NoDup_cons in Hnd as [Ha Hnd].
  simpl. apply elem_of_cons in Hin as [[= -> ->]|Hin].
  - by rewrite String.eqb_refl.
  - destruct (String.eqb_spec s a) as [->|Hne]; [|by apply IH].
    exfalso. apply Ha. apply list_elem_of_fmap. by exists (a, b).
Qed.

Lemma lookup_alias_perm t t' s :
  NoDup t.*1 → t ≡ₚ t' → lookup_alias t' s = lookup_alias t s.
Proof.
  intros Hnd Hp.
  assert (NoDup t'.*1) as Hnd' by (by rewrite <- Hp).
  destruct (lookup_alias t s) as [b|] eqn:E.
  - apply lookup_alias_elem; [done|]. rewrite <- Hp. by apply lookup_alias_Some.
  - apply lookup_alias_miss. rewrite <- Hp. intros Hin.
    apply list_elem_of_fmap in Hin as ([a b] & -> & Hin).
    simpl in E. by rewrite (lookup_alias_elem t a b Hnd Hin) in E.
Qed.

Lemma separated_perm t t' : separated t → t ≡ₚ t' → separated t'.
Proof.
  intros Hs Hp ab cd Hab Hcd. apply Hs; by rewrite Hp.
Qed.

(** Property X9.  The replacement statements of In[10] and In[18] (lines
    374-375 and 477-492) can be run in any order: when no replacement value
    is a name to replace and no name is replaced twice, every arrangement of
    the statements gives the same name, and the same cell. *)
Theorem alias_order_irrelevant (tbl tbl' : list (string * string)) (s : string) (c : cell) :
  separated tbl → NoDup tbl.*1 → tbl ≡ₚ tbl' →
  alias tbl' s = alias tbl s ∧ alias_cell tbl' c = alias_cell tbl c.
Proof.
  intros Hs Hnd Hp.
  assert (∀ x, alias tbl' x = alias tbl x) as Ha.
  { intros x. rewrite !alias_lookup by eauto using separated_perm.
    by rewrite (lookup_alias_perm tbl tbl'). }
  split; [done|].
  destruct c as [x|z|f].
  - by rewrite !alias_cell_Str, Ha.
  - rewrite !alias_cell_other; done.
  - rewrite !alias_cell_other; done.
Qed.

Lemma alias_order_witness :
  alias (reverse area_aliases) "Holy See" = alias area_aliases "Holy See"
  ∧ alias_cell (reverse area_aliases) (Str "DR Congo")
    = alias_cell area_aliases (Str "DR Congo").
Proof.
  apply (alias_order_irrelevant area_aliases (reverse area_aliases)).
  - apply values_not_keys_separated. vm_compute. reflexivity.
  - apply (bool_decide_unpack _). vm_compute. exact I.
  - symmetry. apply reverse_Permutation.
Defined.

End AliasOrder.

Section VesselsOnce.
Import Exclusion Indexed.

Lemma keys_reindexed (P : row → Prop) `{∀ r, Decision (P r)} (l : list row) :
  (fun r : row => r !!! "COUNTRY") <$> (reindexed "COUNTRY" <$> filter P l)
  = (fun r : row => r !!! "COUNTRY") <$> filter P l.
Proof.
  rewrite <- list_fmap_compose. apply list_fmap_ext. intros i r _.
  unfold compose. apply reindexed_lookup.
Qed.

Lemma filter_length_disjoint {A} (P Q : A → Prop)
  `{∀ x, Decision (P x)} `{∀ x, Decision (Q x)} (l : list A) :
  (∀ x, P x → Q x → False) →
  (length (filter P l) + length (filter Q l) ≤ length l)%nat.
Proof.
  intros Hd. induction l as [|x xs IH]; [done|].
  rewrite !filter_cons. destruct (decide (P x)), (decide (Q x)); simpl; try lia.
  exfalso. eauto.
Qed.

(** Property X10.  The cell that takes the two vessels out (lines 569-570)
    runs once: where it succeeds, the keys left are the keys that are no
    vessel name, in their order, COUNTRY is the first column — and running
    the same two lines again on the result raises [KeyError], the labels to
    drop being gone. *)
Theorem drop_vessels_not_rerunnable (df df' : DataFrame) :
  drop_vessels df = Some df' →
  Frame.keys "COUNTRY" df'
  = filter (fun k => k ∉ vessels) (Frame.keys "COUNTRY" df)
  ∧ columns df' = "COUNTRY"%string :: filter (fun c => c ≠ "COUNTRY"%string) (columns df)
  ∧ (length (rows df') + 2 ≤ length (rows df))%nat
  ∧ drop_vessels df' = None.
Proof.
  rewrite drop_vessels_eq. case_bool_decide as Hd; [|done]. intros [= <-].
  destruct Hd as [Hc Hv].
  assert (Frame.keys "COUNTRY"
            (mkDF ("COUNTRY" :: filter (fun c => c ≠ "COUNTRY"%string) (columns df))
               (reindexed "COUNTRY"
                  <$> filter (fun r : row => r !!! "COUNTRY" ∉ vessels) (rows df)))
          = filter (fun k => k ∉ vessels) (Frame.keys "COUNTRY" df)) as Hk.
  { unfold Frame.keys. cbn [rows]. rewrite keys_reindexed.
    by rewrite (filter_fmap_comm _ (fun k => k ∉ vessels)). }
  split; [done|]. split; [done|]. split.
  - cbn [rows]. rewrite length_fmap.
    apply Forall_cons in Hv as [H1 Hv]. apply Forall_cons in Hv as [H2 _].
    unfold Frame.keys in H1, H2.
    apply list_elem_of_fmap in H1 as (r1 & E1 & H1).
    apply list_elem_of_fmap in H2 as (r2 & E2 & H2).
    assert (NoDup [r1; r2]) as Hnd.
    { apply NoDup_cons. split; [|apply NoDup_singleton].
      intros ->%list_elem_of_singleton. rewrite <- E1 in E2. done. }
    assert ([r1; r2] ⊆+ filter (fun r : row => r !!! "COUNTRY" ∈ vessels) (rows df)) as Hsub.
    { apply NoDup_submseteq; [done|]. intros r Hr. apply list_elem_of_filter.
      apply elem_of_cons in Hr as [->|Hr].
      - split; [|done]. rewrite <- E1. repeat constructor.
      - apply list_elem_of_singleton in Hr as ->. split; [|done].
        rewrite <- E2. repeat constructor. }
    apply submseteq_length in Hsub. simpl in Hsub.
    pose proof (filter_length_disjoint (fun r : row => r !!! "COUNTRY" ∉ vessels)
                  (fun r : row => r !!! "COUNTRY" ∈ vessels) (rows df)) as Hl.
    specialize (Hl ltac:(intros x Hx Hy; by apply Hx)). lia.
  - rewrite drop_vessels_eq. rewrite bool_decide_eq_false_2; [done|].
    intros [_ Hv']. rewrite Hk in Hv'. apply Forall_cons in Hv' as [H1 _].
    apply list_elem_of_filter in H1 as [H1 _]. apply H1. repeat constructor.
Qed.

Lemma drop_vessels_witness :
  ∃ df', drop_vessels Samples.world = Some df'
  ∧ Frame.keys "COUNTRY" df'
    = filter (fun k => k ∉ vessels) (Frame.keys "COUNTRY" Samples.world)
  ∧ columns df'
    = "COUNTRY"%string :: filter (fun c => c ≠ "COUNTRY"%string) (columns Samples.world)
  ∧ (length (rows df') + 2 ≤ length (rows Samples.world))%nat
  ∧ drop_vessels df' = None.
Proof.
  eexists. split; [vm_compute; reflexivity|].
  apply (drop_vessels_not_rerunnable Samples.world). vm_compute. reflexivity.
Defined.

End VesselsOnce.


(** ** The patch of a state the index does not have *)

Section AbsentState.
Import Indexed StatePatch Metrics.









End AbsentState.
(** ** What follows the numeric conversion *)

Section ConversionFacts.
Import Normalizer SortValues Pipeline Metrics.

Lemma apply_row_out f cs (r r' : row) c :
  Frame.apply_row f cs r = Some r' → c ∉ cs → r' !!! c = r !!! c.
Proof.
  revert r'. induction cs as [|c0 cs IH]; intros r' H Hc.
  - by injection H as <-.
  - apply not_elem_of_cons in Hc as [Hne Hc]. unfold Frame.apply_row in H. simpl in H.
    fold (Frame.apply_row f cs r) in H.
    destruct (Frame.apply_row f cs r) as [r1|]; [|done]. cbn [mbind option_bind] in H.
    destruct (f (r1 !!! c0)) as [v|]; [|done]. cbn [mbind option_bind] in H.
    injection H as <-. rewrite lookup_total_insert_ne by done. by apply IH.
Qed.

Lemma apply_row_None f cs (r : row) c :
  c ∈ cs → f (r !!! c) = None → Frame.apply_row f cs r = None.
Proof.
  intros Hc Hf. induction cs as [|c0 cs IH]; [by apply elem_of_nil in Hc|].
  unfold Frame.apply_row. simpl. fold (Frame.apply_row f cs r).
  destruct (Frame.apply_row f cs r) as [r1|] eqn:E; [|done]. cbn [mbind option_bind].
  destruct (decide (c ∈ cs)) as [Hin|Hout]; [discriminate (IH Hin)|].
  apply elem_of_cons in Hc as [->|Hc]; [|done].
  rewrite (apply_row_out f cs r r1 c0 E Hout), Hf. done.
Qed.

Lemma apply_row_image f cs (r r' : row) c :
  Frame.apply_row f cs r = Some r' → c ∈ cs → ∃ x, f x = Some (r' !!! c).
Proof.
  revert r'. induction cs as [|c0 cs IH]; intros r' H Hc; [by apply elem_of_nil in Hc|].
  unfold Frame.apply_row in H. simpl in H. fold (Frame.apply_row f cs r) in H.
  destruct (Frame.apply_row f cs r) as [r1|]; [|done]. cbn [mbind option_bind] in H.
  destruct (f (r1 !!! c0)) as [v|] eqn:Hv; [|done]. cbn [mbind option_bind] in H.
  injection H as <-. destruct (decide (c = c0)) as [->|Hne].
  - rewrite lookup_total_insert_eq. eauto.
  - rewrite lookup_total_insert_ne by done. apply IH; [done|].
    apply elem_of_cons in Hc as [?|?]; done.
Qed.

Lemma apply_columns_None f cs df (r : row) c :
  r ∈ rows df → c ∈ cs → f (r !!! c) = None → Frame.apply_columns f cs df = None.
Proof.
  intros Hr Hc Hf. unfold Frame.apply_columns. case_bool_decide; [|done].
  rewrite (proj2 (mapM_None _ _)); [done|].
  apply Exists_exists. exists r. split; [done|]. by eapply apply_row_None.
Qed.

Lemma apply_columns_image f cs df df' :
  Frame.apply_columns f cs df = Some df' →
  columns df' = columns df
  ∧ Forall2 (fun r r' : row => Frame.apply_row f cs r = Some r') (rows df) (rows df').
Proof.
  unfold Frame.apply_columns. case_bool_decide; [|done].
  destruct (mapM _ _) as [rs|] eqn:E; [|done]. intros [= <-].
  split; [done|]. by apply mapM_Some.
Qed.

Section WithParsers.
Variable to_numeric : string → option spec_float.
Variable int_of_str : string → option Z.

Lemma py_int_cell_int x v : py_int_cell int_of_str x = Some v → is_int v = true.
Proof.
  destruct x as [s|z|y]; simpl.
  - destruct (int_of_str s); [|done]. by intros [= <-].
  - by intros [= <-].
  - destruct (Float64.py_int y); [|done]. by intros [= <-].
Qed.

(** What the conversion of In[12] leaves when it returns: the columns, the
    number of records, and an integer in every cell of the columns at
    positions 1 to 10. *)
Lemma global_to_numeric_int df g :
  global_to_numeric to_numeric int_of_str df = Some g →
  columns g = columns df
  ∧ length (rows g) = length (rows df)
  ∧ Forall (fun r' : row =>
              ∀ c, c ∈ take 10 (drop 1 (columns df)) → is_int (r' !!! c) = true)
           (rows g).
Proof.
  unfold global_to_numeric.
  destruct (Frame.apply_columns _ global_cols df) as [d1|] eqn:E1; [|done].
  cbn [mbind option_bind]. apply apply_columns_image in E1 as [C1 R1].
  intros E. apply apply_columns_image in E as [C R].
  unfold Frame.applymap in C, R. cbn [columns rows] in C, R. rewrite C1 in C.
  split; [done|]. split.
  - rewrite <- (Forall2_length _ _ _ R). rewrite !length_fmap.
    symmetry. by eapply Forall2_length.
  - apply Forall_forall. intros r' Hr' c Hc.
    apply list_elem_of_lookup in Hr' as [i Hi].
    destruct (Forall2_lookup_r _ _ _ _ _ R Hi) as (r4 & _ & H4).
    rewrite C1 in H4.
    destruct (apply_row_image _ _ _ _ c H4 Hc) as [x Hx].
    by eapply py_int_cell_int.
Qed.

End WithParsers.

(** Property X12.  The conversion of In[12] (lines 388-402) replaces NaN and
    plus infinity by zero, not minus infinity: a cell of one of the ten
    converted columns that [to_numeric] reads as minus infinity reaches
    [int] as it is, and the cell raises ([OverflowError]). *)
Theorem minus_infinity_overflows (to_numeric : string → option spec_float)
  (int_of_str : string → option Z) (df : DataFrame) (r : row) (c s : string) :
  r ∈ rows df → c ∈ global_cols → c ∈ take 10 (drop 1 (columns df)) →
  r !!! c = Str s → to_numeric s = Some Float64.neg_inf →
  global_to_numeric to_numeric int_of_str df = None.
Proof.
  intros Hr Hc Hpos Hs Hinf. unfold global_to_numeric.
  destruct (Frame.apply_columns _ global_cols df) as [d1|] eqn:E1; [|done].
  cbn [mbind option_bind]. apply apply_columns_image in E1 as [C1 R1].
  apply list_elem_of_lookup in Hr as [i Hi].
  destruct (Forall2_lookup_l _ _ _ _ _ R1 Hi) as (r1 & Hi1 & H1).
  assert (r1 !!! c = Flt Float64.neg_inf) as Hc1.
  { destruct (apply_row_spec (fun x => Some (coerce to_numeric x)) global_cols r)
      as (r1' & E & Hin & _); [apply global_cols_NoDup|by eexists|].
    rewrite E in H1. injection H1 as <-. specialize (Hin c Hc).
    rewrite Hs in Hin. simpl in Hin. rewrite Hinf in Hin. by injection Hin as <-. }
  assert (c ∈ columns d1) as Hcol by (rewrite C1; by eapply elem_of_take_drop).
  eapply (apply_columns_None _ _ _ _ c).
  - unfold Frame.applymap. cbn [rows columns]. rewrite <- !list_fmap_compose.
    apply list_elem_of_fmap. eexists. split; [reflexivity|].
    by eapply list_elem_of_lookup_2.
  - unfold Frame.applymap. cbn [columns]. by rewrite C1.
  - unfold compose. rewrite zeroed_lookup by done. rewrite Hc1. reflexivity.
Qed.

Lemma minus_infinity_witness :
  global_to_numeric MoreSamples.read_signed read_nat MoreSamples.scraped_overflow = None.
Proof.
  apply (minus_infinity_overflows MoreSamples.read_signed read_nat
           MoreSamples.scraped_overflow MoreSamples.overflow_row "TOTALDEATHS" "-inf").
  - repeat constructor.
  - repeat constructor.
  - repeat constructor.
  - vm_compute. reflexivity.
  - vm_compute. reflexivity.
Defined.

(** Property X13.  The sort of In[13] (line 411) cannot fail after the
    conversion of In[12]: when TOTALCASES is one of the ten converted
    columns, every cell of it is an integer, the sort returns, and its result
    holds the same records in non-increasing order of TOTALCASES under the
    same column labels. *)
Theorem sort_follows_conversion (to_numeric : string → option spec_float)
  (int_of_str : string → option Z) (df g : DataFrame) :
  global_to_numeric to_numeric int_of_str df = Some g →
  "TOTALCASES" ∈ take 10 (drop 1 (columns df)) →
  ∃ s, sort_values_desc "TOTALCASES" g = Some s
    ∧ cases_ordered s
    ∧ rows s ≡ₚ rows g
    ∧ columns s = columns df.
Proof.
  intros Hg Hc. apply global_to_numeric_int in Hg as (C & L & Hint).
  assert ("TOTALCASES" ∈ columns g) as Hcol by (rewrite C; by eapply elem_of_take_drop).
  assert (sort_values_desc "TOTALCASES" g
          = Some (mkDF (columns g) (merge_sort (ge_on "TOTALCASES") (rows g)))) as Hs.
  { unfold sort_values_desc. rewrite bool_decide_eq_true_2 by done.
    rewrite (proj2 (forallb_forall _ _)); [done|].
    intros r Hr. apply list_elem_of_In in Hr. rewrite Forall_forall in Hint.
    by apply Hint. }
  eexists. split; [exact Hs|].
  destruct (sort_values_desc_spec _ _ _ Hs) as (C' & P & K & S).
  split; [|split; [done|by rewrite <- C]].
  split; [by rewrite C'|]. split; [exact K|exact S].
Qed.

Lemma sort_follows_conversion_witness :
  ∃ g s, global_to_numeric read_float read_nat Samples.scraped_global = Some g
    ∧ sort_values_desc "TOTALCASES" g = Some s
    ∧ cases_ordered s
    ∧ rows s ≡ₚ rows g
    ∧ columns s = columns Samples.scraped_global.
Proof.
  eexists.
  destruct (sort_follows_conversion read_float read_nat Samples.scraped_global _
              ltac:(vm_compute; reflexivity) ltac:(repeat constructor))
    as (s & H).
  exists s. split; [vm_compute; reflexivity|exact H].
Defined.

(** Property X14.  The ratios of In[20] (lines 517-524) cannot fail after
    the conversion of In[12]: when the four columns they read are among the
    ten converted ones, every division is one of integers, the three ratio
    columns exist afterwards and hold no infinity, the number of records is
    unchanged, and a record without deaths among a non-zero number of cases
    has a DEATH_RATE of zero. *)
Theorem metrics_follow_conversion (to_numeric : string → option spec_float)
  (int_of_str : string → option Z) (df g : DataFrame) :
  global_to_numeric to_numeric int_of_str df = Some g →
  Forall (fun c => c ∈ take 10 (drop 1 (columns df))) ratio_inputs →
  ∃ m, global_metrics g = Some m
    ∧ Forall (fun c => c ∈ columns m)
             ["DEATH_RATE"; "SURVIVAL_RATE"; "PERCENT_TESTS_POSITIVE"]%string
    ∧ Forall2 (fun r r' : row =>
         not_infinite "DEATH_RATE" r' ∧ not_infinite "SURVIVAL_RATE" r'
         ∧ not_infinite "PERCENT_TESTS_POSITIVE" r'
         ∧ (∀ d, d ≠ 0 → r !!! "TOTALDEATHS" = Int 0 → r !!! "TOTALCASES" = Int d →
                 is_zero (r' !!! "DEATH_RATE") = true))
       (rows g) (rows m).
Proof.
  intros Hg Hin. apply global_to_numeric_int in Hg as (C & L & Hint).
  assert (Forall (fun c => c ∈ columns g) ratio_inputs) as Hcols.
  { eapply Forall_impl; [exact Hin|]. intros c Hc. rewrite C. exact (elem_of_take_drop _ _ _ _ Hc). }
  assert (Forall (numeric ratio_inputs) (rows g)) as Hnum.
  { eapply Forall_impl; [exact Hint|]. intros r Hr. unfold numeric.
    eapply Forall_impl; [exact Hin|]. intros c Hc. specialize (Hr c Hc).
    destruct (r !!! c); [done|by eexists|done]. }
  destruct (ratios_rows g Hcols Hnum) as (d3 & Hd3 & Hcols3 & HF).
  unfold global_metrics. rewrite Hd3. cbn [mbind option_bind].
  eexists. split; [done|]. split; [done|]. cbn [Frame.applymap rows].
  apply Forall2_fmap_r. eapply Forall2_impl; [exact HF|].
  intros r r' (q1 & q2 & q3 & H1 & H2 & H3 & ->). cbv beta.
  destruct (replaced_ratio_lookups (columns d3) q1 q2 q3 r Hcols3) as (L1 & L2 & L3).
  unfold compose, not_infinite. rewrite L1, L2, L3.
  split_and!; try apply replace_inf_not_infinite.
  intros d Hd Ha Hb. rewrite Ha, Hb in H1. unfold truediv in H1.
  cbn [to_float mbind option_bind] in H1. injection H1 as <-.
  destruct (of_int_nonzero d Hd) as [(s & m & e & ->)|(s & ->)]; reflexivity.
Qed.

Lemma metrics_follow_conversion_witness :
  ∃ g m, global_to_numeric read_float read_nat Samples.scraped_global = Some g
    ∧ global_metrics g = Some m
    ∧ Forall (fun c => c ∈ columns m)
             ["DEATH_RATE"; "SURVIVAL_RATE"; "PERCENT_TESTS_POSITIVE"]%string
    ∧ Forall2 (fun r r' : row =>
         not_infinite "DEATH_RATE" r' ∧ not_infinite "SURVIVAL_RATE" r'
         ∧ not_infinite "PERCENT_TESTS_POSITIVE" r'
         ∧ (∀ d, d ≠ 0 → r !!! "TOTALDEATHS" = Int 0 → r !!! "TOTALCASES" = Int d →
                 is_zero (r' !!! "DEATH_RATE") = true))
       (rows g) (rows m).
Proof.
  eexists.
  destruct (metrics_follow_conversion read_float read_nat Samples.scraped_global _
              ltac:(vm_compute; reflexivity) ltac:(repeat constructor))
    as (m & H).
  exists m. split; [vm_compute; reflexivity|exact H].
Defined.

End ConversionFacts.


Section NoMissing.
Import Normalizer SortValues.

Lemma zeroed_not_missing x : isna (zeroed x) = false ∧ zeroed x ≠ Flt Float64.pos_inf.
Proof.
  unfold zeroed, fillna0, replace0.
  destruct x as [s|z|[b|[]| |b m e]]; cbn [isna Float64.is_nan];
    repeat case_bool_decide; try done; split; try done.
Qed.

Lemma is_int_not_missing v : is_int v = true → isna v = false ∧ v ≠ Flt Float64.pos_inf.
Proof. by destruct v. Qed.

(** Property X15.  When the conversion of In[12] (lines 388-402) returns, the
    table has no missing value left in any of its columns, converted or not:
    the selection of In[21] (line 538), [df[df.isna().any(axis=1)]], is empty
    on it, and no cell is plus infinity. *)
Theorem conversion_leaves_no_missing (to_numeric : string → option spec_float)
  (int_of_str : string → option Z) (df g : DataFrame) :
  global_to_numeric to_numeric int_of_str df = Some g →
  rows (Frame.rows_with_na g) = []
  ∧ Forall (fun r' : row => ∀ c, c ∈ columns g → r' !!! c ≠ Flt Float64.pos_inf) (rows g).
Proof.
  intros Hg.
  assert (Forall (fun r' : row => ∀ c, c ∈ columns g →
            isna (r' !!! c) = false ∧ r' !!! c ≠ Flt Float64.pos_inf) (rows g)) as Hall.
  { revert Hg. unfold global_to_numeric.
    destruct (Frame.apply_columns _ global_cols df) as [d1|] eqn:E1; [|done].
    cbn [mbind option_bind]. intros E. apply apply_columns_image in E as [C R].
    unfold Frame.applymap in C, R. cbn [columns rows] in C, R.
    apply Forall_forall. intros r' Hr' c Hc. rewrite C in Hc.
    apply list_elem_of_lookup in Hr' as [i Hi].
    destruct (Forall2_lookup_r _ _ _ _ _ R Hi) as (r4 & Hi4 & H4).
    destruct (decide (c ∈ take 10 (drop 1 (columns d1)))) as [Hin|Hout].
    - destruct (apply_row_image _ _ _ _ c H4 Hin) as [x Hx].
      apply is_int_not_missing. by eapply py_int_cell_int.
    - rewrite (apply_row_out _ _ _ _ c H4 Hout).
      rewrite !list_lookup_fmap in Hi4.
      destruct (rows d1 !! i) as [r1|]; [|done]. simpl in Hi4. injection Hi4 as <-.
      rewrite zeroed_lookup by done. apply zeroed_not_missing. }
  split.
  - unfold Frame.rows_with_na. cbn [rows]. apply filter_none.
    intros r Hr Hex. rewrite Forall_forall in Hall.
    apply existsb_exists in Hex as (c & Hc & Hna).
    apply list_elem_of_In in Hc. destruct (Hall r Hr c Hc) as [E _]. congruence.
  - eapply Forall_impl; [exact Hall|]. intros r Hr c Hc. by apply Hr.
Qed.

Lemma conversion_leaves_no_missing_witness :
  ∃ g, global_to_numeric read_float read_nat Samples.scraped_global = Some g
    ∧ rows (Frame.rows_with_na g) = []
    ∧ Forall (fun r' : row => ∀ c, c ∈ columns g → r' !!! c ≠ Flt Float64.pos_inf) (rows g).
Proof.
  eexists. split; [vm_compute; reflexivity|].
  apply (conversion_leaves_no_missing read_float read_nat Samples.scraped_global).
  vm_compute. reflexivity.
Defined.

End NoMissing.

